(** * Conformal prediction wrapper of darts: [darts/models/cp/conformal_model.py]

    A shallow embedding of [ConformalModel] (construction, [predict],
    [historical_forecasts], [_cp_component_names], [_get_q_hat]), of
    [_triul_indices], of the score functions [cqr_score_sym] and
    [cqr_score_asym] and of [_get_evaluate_metrics_from_dataset], and the
    properties of the calibration windows, outputs and errors.

    Conventions of the embedding.
    - Floating point numbers are an abstract type [num] with the operations
      the code uses on them ([Float] below); nothing proved in the generic
      part depends on arithmetic laws, so it holds for IEEE doubles as well as
      for the exact rationals of the instance at the end of the file.
    - Python integers are [Z]; lists and numpy arrays are lists (an array of
      shape (a, b, c) is a list of a lists of b lists of length c).
    - Time stamps are integers (darts' integer-indexed series); a series has a
      start, a step ([freq]) and one row of values per time stamp.
    - A call of the wrapped model and an emitted warning are events of a
      trace; an exception ends the computation with [Raise]. *)

From Stdlib Require Import ZArith List Lia Bool QArith Qround Qabs.
From stdpp Require Import base list strings gmap.
Import ListNotations.

Local Open Scope Z_scope.

(** ** Exceptions and results *)

Inductive exn :=
| ValueError (msg : string)
| IndexError (msg : string)
| NotImplementedError (msg : string)
| ModelError (msg : string).   (* whatever the wrapped model raises *)

Inductive result (A : Type) :=
| Ok (a : A)
| Raise (e : exn).
Arguments Ok {A} a.
Arguments Raise {A} e.

Definition is_ok {A} (r : result A) : bool :=
  match r with Ok _ => true | Raise _ => false end.

(** ** Python indexing and slicing *)

Module Py.

(** [l[i]] for an integer [i]: negative indices count from the end, an index
    out of range raises [IndexError]. *)
Definition norm_index (n : nat) (i : Z) : option nat :=
  if 0 <=? i then (if i <? Z.of_nat n then Some (Z.to_nat i) else None)
  else (if - Z.of_nat n <=? i then Some (Z.to_nat (Z.of_nat n + i)) else None).

Definition index {A} (l : list A) (i : Z) : result A :=
  match norm_index (length l) i with
  | Some k => match l !! k with
              | Some x => Ok x
              | None => Raise (IndexError "index out of range")
              end
  | None => Raise (IndexError "index out of range")
  end.

(** Bound of a slice with a positive step: [None] is the default, a negative
    bound counts from the end, and the result is clipped to [0, n]. *)
Definition clip (n : nat) (dflt : Z) (b : option Z) : Z :=
  match b with
  | None => dflt
  | Some i => if i <? 0 then Z.max (Z.of_nat n + i) 0 else Z.min i (Z.of_nat n)
  end.

(** [l[start:stop]] *)
Definition slice {A} (start stop : option Z) (l : list A) : list A :=
  let n := length l in
  let lo := clip n 0 start in
  let hi := clip n (Z.of_nat n) stop in
  take (Z.to_nat (hi - lo)) (drop (Z.to_nat lo) l).

(** Bound of a slice with a negative step: clipped to [-1, n - 1]. *)
Definition clip_neg (n : nat) (i : Z) : Z :=
  if i <? 0 then Z.max (Z.of_nat n + i) (-1) else Z.min i (Z.of_nat n - 1).

(** The positions selected by [l[start:stop:step]] for integer bounds. *)
Definition slice_positions (n : nat) (start stop step : Z) : list Z :=
  if 0 <? step then
    let lo := clip n 0 (Some start) in
    let hi := clip n (Z.of_nat n) (Some stop) in
    let count := if lo <? hi then (hi - lo - 1) / step + 1 else 0 in
    map (fun t : nat => lo + Z.of_nat t * step) (seq 0 (Z.to_nat count))
  else
    let lo := clip_neg n start in
    let hi := clip_neg n stop in
    let count := if hi <? lo then (lo - hi - 1) / (- step) + 1 else 0 in
    map (fun t : nat => lo + Z.of_nat t * step) (seq 0 (Z.to_nat count)).

(** [l[start:stop:step]]; a zero step raises [ValueError]. *)
Definition slice_step {A} (start stop step : Z) (l : list A) : result (list A) :=
  if step =? 0 then Raise (ValueError "slice step cannot be zero")
  else Ok (omap (fun p => l !! Z.to_nat p) (slice_positions (length l) start stop step)).

End Py.

(** ** Floating point numbers, as far as the code uses them *)

Class Float := {
  num : Type;
  fadd : num -> num -> num;
  fsub : num -> num -> num;
  nan : num;
  isnan : num -> bool;
  (** [np.quantile] of a one-dimensional sample at one level in [0, 1] *)
  quantile1 : num -> list num -> num;
  isnan_nan : isnan nan = true
}.

(** [alpha: Union[float, Tuple[float, float]]] *)
Inductive Alpha `{Float} :=
| AFloat (a : num)
| APair (lo hi : num).

Inductive StartFormat := Position | Value.

Section Conformal.
Context `{FL : Float}.

(** *** numpy on lists *)

(** [np.nanquantile] of a one-dimensional sample: NaN entries are ignored,
    an all-NaN (or empty) sample gives NaN. *)
Definition np_nanquantile1 (q : num) (l : list num) : num :=
  match filter (fun x => isnan x = false) l with
  | [] => nan
  | x :: l' => quantile1 q (x :: l')
  end.

(** [np.quantile(a, q, axis=2)] and [np.nanquantile(a, q, axis=2)] for [a] of
    shape (h, c, n): one level per (h, c). *)
Definition np_quantile_axis2 (q : num) (a : list (list (list num))) : list (list num) :=
  map (map (quantile1 q)) a.

Definition np_nanquantile_axis2 (q : num) (a : list (list (list num))) : list (list num) :=
  map (map (np_nanquantile1 q)) a.

(** Number of columns of a two-dimensional array. *)
Definition np_width (a : list (list num)) : nat := length (hd [] a).

(** [np.nanquantile(a, q, axis=0)] for [a] of n rows of c values: one
    quantile per column. A list of no rows does not keep the number of
    columns: the result is empty for it, where numpy returns one NaN per
    column. The windows of the loop have at least one row when
    [train_length] is [None] or at least 1. *)
Definition np_nanquantile_axis0 (q : num) (a : list (list num)) : list num :=
  map (fun c => np_nanquantile1 q (omap (fun row => row !! c) a)) (seq 0 (np_width a)).

(** Elementwise operation on two arrays of one shape; numpy raises
    [ValueError] when the shapes cannot be matched. *)
Definition np_zip1 (op : num -> num -> num) (a b : list num) : result (list num) :=
  if Nat.eqb (length a) (length b) then Ok (zip_with op a b)
  else Raise (ValueError "operands could not be broadcast together").

Definition np_zip2 (op : num -> num -> num) (a b : list (list num)) : result (list (list num)) :=
  if bool_decide (map length a = map length b) then Ok (zip_with (zip_with op) a b)
  else Raise (ValueError "operands could not be broadcast together").

(** [np.concatenate([a, b, c], axis=1)] for two-dimensional arrays with the
    same number of rows. *)
Definition np_concatenate3_axis1 (a b c : list (list num)) : result (list (list num)) :=
  if Nat.eqb (length a) (length b) && Nat.eqb (length b) (length c)
  then Ok (zip_with app (zip_with app a b) c)
  else Raise (ValueError "all the input array dimensions except for the concatenation axis must match exactly").

(** [np.concatenate(blocks, axis=0)]. *)
Definition np_concatenate_axis0 (blocks : list (list (list num))) : result (list (list num)) :=
  match blocks with
  | [] => Raise (ValueError "need at least one array to concatenate")
  | _ => Ok (concat blocks)
  end.

(** [r[h, c]] of a two-dimensional array (NaN stands for a missing cell). *)
Definition np_at2 (r : list (list num)) (h c : nat) : num :=
  default nan (r !! h ≫= (fun row => row !! c)).

(** [np.concatenate(rs, axis=2)] for arrays [rs[k]] of shape (h, c, 1), each
    given as its (h, c) slice: the result has shape (h, c, len(rs)). *)
Definition np_concatenate_axis2 (rs : list (list (list num))) : result (list (list (list num))) :=
  match rs with
  | [] => Raise (ValueError "need at least one array to concatenate")
  | r0 :: _ =>
      if forallb (fun r => bool_decide (map length r = map length r0)) rs
      then Ok (imap (fun h row0 =>
                 imap (fun c (_ : num) =>
                   map (fun r => np_at2 r h c) rs) row0) r0)
      else Raise (ValueError "all the input array dimensions except for the concatenation axis must match exactly")
  end.

(** [a.shape[2]] of an array of shape (h, c, n) with h, c >= 1. *)
Definition np_shape2 (a : list (list (list num))) : Z :=
  Z.of_nat (length (hd [] (hd [] a))).

(** [a[h, c, k] = v] for integers: negative indices wrap, others raise. *)
Definition np_set3 (a : list (list (list num))) (h c k : Z) (v : num)
  : result (list (list (list num))) :=
  match Py.norm_index (length a) h with
  | None => Raise (IndexError "index out of bounds for axis 0")
  | Some h' =>
      let plane := default [] (a !! h') in
      match Py.norm_index (length plane) c with
      | None => Raise (IndexError "index out of bounds for axis 1")
      | Some c' =>
          let line := default [] (plane !! c') in
          match Py.norm_index (length line) k with
          | None => Raise (IndexError "index out of bounds for axis 2")
          | Some k' => Ok (alter (alter (fun l => <[k' := v]> l) c') h' a)
          end
      end
  end.

Fixpoint np_set3_many (a : list (list (list num))) (idx : list (Z * Z * Z)) (v : num)
  : result (list (list (list num))) :=
  match idx with
  | [] => Ok a
  | (h, c, k) :: idx' =>
      match np_set3 a h c k v with
      | Ok a' => np_set3_many a' idx' v
      | Raise e => Raise e
      end
  end.

(** [a[ih, ic, ik] = v] for three index sequences of one length. *)
Definition np_setitem3 (a : list (list (list num))) (ih ic ik : list Z) (v : num)
  : result (list (list (list num))) :=
  if Nat.eqb (length ih) (length ic) && Nat.eqb (length ic) (length ik)
  then np_set3_many a (zip (zip ih ic) ik) v
  else Raise (IndexError "shape mismatch: indexing arrays could not be broadcast together").

(** [np.tril_indices(n, k=-1)]: the positions strictly below the diagonal,
    row by row. *)
Definition tril_positions (n : nat) : list (Z * Z) :=
  flat_map (fun r => map (fun c => (Z.of_nat r, Z.of_nat c)) (seq 0 r)) (seq 0 n).

Definition np_tril_indices (n : nat) : list Z * list Z :=
  (map fst (tril_positions n), map snd (tril_positions n)).

(** [a.repeat(k)] of a one-dimensional array. *)
Definition np_repeat {A} (k : nat) (a : list A) : list A :=
  flat_map (fun x => replicate k x) a.

(** [_triul_indices(forecast_horizon, n_comps)] *)
Definition _triul_indices (forecast_horizon : Z) (n_comps : nat)
  : result (list Z * list Z * list Z) :=
  if forecast_horizon <? 0 then Raise (ValueError "negative dimensions are not allowed")
  else
    let '(idx_horizon, idx_hfc) := np_tril_indices (Z.to_nat forecast_horizon) in
    let idx_comp := flat_map (fun _ => map Z.of_nat (seq 0 n_comps)) idx_horizon in
    (* reverse to get lower left triangle *)
    let idx_horizon := map (fun r => forecast_horizon - 1 - r) idx_horizon in
    let idx_horizon := np_repeat n_comps idx_horizon in
    let idx_hfc := np_repeat n_comps idx_hfc in
    Ok (idx_horizon, idx_comp, idx_hfc).

(** *** Time series *)

(** [TimeSeries] with an integer time index [start, start + freq, ...]: one
    row of [values] per time stamp, one column per component. *)
Record TimeSeries := {
  ts_start : Z;
  ts_freq : Z;
  ts_components : list string;
  ts_values : list (list num)
}.

Definition ts_len (s : TimeSeries) : nat := length (ts_values s).
Definition ts_width (s : TimeSeries) : nat := length (ts_components s).
Definition start_time (s : TimeSeries) : Z := ts_start s.
Definition end_time (s : TimeSeries) : Z := ts_start s + (Z.of_nat (ts_len s) - 1) * ts_freq s.

(** [s._time_index[i]] *)
Definition time_index_at (s : TimeSeries) (i : Z) : result Z :=
  match Py.norm_index (ts_len s) i with
  | Some k => Ok (ts_start s + Z.of_nat k * ts_freq s)
  | None => Raise (IndexError "index out of bounds")
  end.

(** The time stamps of a series, and its (time stamp, row) entries. *)
Definition ts_times (s : TimeSeries) : list Z :=
  map (fun k : nat => ts_start s + Z.of_nat k * ts_freq s) (seq 0 (ts_len s)).

Definition ts_entries (s : TimeSeries) : list (Z * list num) :=
  zip (ts_times s) (ts_values s).

(** Modelled from the spec: [darts.utils.utils.n_steps_between] is not part of
    the sources; for an integer index and a positive integer [freq] it is the
    number of steps of size [freq] from [start] to [end]. *)
Definition n_steps_between (end_ start freq : Z) : Z := (end_ - start) / freq.

(** Modelled from the spec: [darts.utils.timeseries_generation._build_forecast_series]
    is not part of the sources; it wraps an array of values into a series
    with the given time index and columns, and the series constructor rejects
    values whose shape does not fit them. *)
Definition _build_forecast_series (points_preds : list (list num))
    (custom_columns : list string) (index_start index_freq : Z) (index_len : nat)
  : result TimeSeries :=
  if Nat.eqb (length points_preds) index_len
     && forallb (fun row => Nat.eqb (length row) (length custom_columns)) points_preds
  then Ok {| ts_start := index_start; ts_freq := index_freq;
             ts_components := custom_columns; ts_values := points_preds |}
  else Raise (ValueError "values do not match the time index and the columns").

(** [Union[TimeSeries, Sequence[TimeSeries]]]. *)
Inductive SeriesArg :=
| SingleSeries (s : TimeSeries)
| SeriesSeq (l : list TimeSeries).

(** Modelled from the spec: "Output for multiple input series is a list
    aligned positionally with the input list; a single input series yields a
    single non-list result." The helper [series2seq] of
    [darts.utils.ts_utils] is not part of this module: a single
    series becomes the list of this series, a sequence is kept. The spec
    describes no call with an empty sequence; here it is kept as it is, and
    nothing below is claimed of such a call in darts. *)
Definition series2seq (a : SeriesArg) : list TimeSeries :=
  match a with SingleSeries s => [s] | SeriesSeq l => l end.

(** Modelled from the spec (the same sentence):
    [get_series_seq_type(series) == SeriesType.SINGLE] of
    [darts.utils.ts_utils], which is not part of this module either. A sequence, empty or not, is not a single series here. *)
Definition called_with_single (a : SeriesArg) : bool :=
  match a with SingleSeries _ => true | SeriesSeq _ => false end.

(** *** The wrapped forecasting model *)

(** Historical forecasts of one series: one series of last points when
    [last_points_only], else the list of all forecasts. Residuals with
    [values_only=True] have the same layout: an array of the last points'
    residuals, one row of c values per point, else one array (h, c, 1) per
    forecast, given as its (h, c) slice.

    The wrapped model's [residuals] is not part of this module.
    That the arrays of the list carry a trailing axis of one sample is read
    off lines 185 and 479, which concatenate them along axis 2. For the
    array of the last points the code shows no such use: it is taken here
    with two axes, (n, c). If it carries the trailing axis as well, (n, c,
    1), then for one component lines 440 to 443 compute the same row, and
    for more components they broadcast (1, c) against (c, 1) and the
    concatenation raises. The agreement of the two layouts is therefore
    stated for one component. *)
Definition hfcs_t (last_points_only : bool) : Type :=
  if last_points_only then TimeSeries else list TimeSeries.

Definition res_t (last_points_only : bool) : Type :=
  if last_points_only then list (list num) else list (list (list num)).

(** Keyword arguments of the calls made to the wrapped model. *)
Record HfcKwargs := {
  hk_series : list TimeSeries;
  hk_num_samples : Z;
  hk_forecast_horizon : Z;
  hk_retrain : bool;
  hk_overlap_end : bool;
  hk_last_points_only : bool
}.

Record ResKwargs := {
  rk_series : list TimeSeries;
  rk_from_historical_forecasts : bool;   (* [historical_forecasts=hfcs] given *)
  rk_forecast_horizon : option Z;
  rk_overlap_end : option bool;
  rk_last_points_only : bool;
  rk_retrain : option bool;
  rk_stride : option Z;
  rk_values_only : bool
}.

Record PredictKwargs := {
  pk_n : Z;
  pk_series : list TimeSeries;
  pk_num_samples : Z
}.

(** The operations of a forecasting model the wrapper uses; they are pure
    (the wrapper treats the model as read-only) and may raise. *)
Record ForecastingModel := {
  is_global : bool;      (* [isinstance(model, GlobalForecastingModel)] *)
  fit_called : bool;     (* [model._fit_called] *)
  m_predict : PredictKwargs -> result (list TimeSeries);
  m_historical_forecasts :
    forall kw : HfcKwargs, result (list (hfcs_t (hk_last_points_only kw)));
  m_residuals :
    forall kw : ResKwargs,
      option (list (hfcs_t (rk_last_points_only kw))) ->
      result (list (res_t (rk_last_points_only kw)))
}.

(** *** Traces *)

Inductive event :=
| EvPredict (kw : PredictKwargs)
| EvHistoricalForecasts (kw : HfcKwargs)
| EvResiduals (kw : ResKwargs)
| EvStartWarning (series_idx : nat) (start start_time : Z) (index_lo index_hi : Z).

Definition M (A : Type) : Type := (list event * result A)%type.

Definition ret {A} (a : A) : M A := ([], Ok a).
Definition raise_log {A} (e : exn) : M A := ([], Raise e).
Definition lift {A} (r : result A) : M A := ([], r).
Definition emit (ev : event) : M unit := ([ev], Ok tt).

Definition bind {A B} (m : M A) (f : A -> M B) : M B :=
  match m with
  | (t, Ok a) => let '(t', r) := f a in (t ++ t', r)
  | (t, Raise e) => (t, Raise e)
  end.

Definition trace {A} (m : M A) : list event := fst m.
Definition outcome {A} (m : M A) : result A := snd m.

End Conformal.

Arguments TimeSeries {FL}.
Arguments SeriesArg {FL}.
Arguments HfcKwargs {FL}.
Arguments ResKwargs {FL}.
Arguments PredictKwargs {FL}.
Arguments ForecastingModel {FL}.
Arguments event {FL}.

Notation "'let*' x ':=' m 'in' k" := (bind m (fun x => k))
  (at level 10, x pattern, m at level 100, k at level 200).

Definition bindR {A B} (r : result A) (f : A -> result B) : result B :=
  match r with Ok a => f a | Raise e => Raise e end.

Notation "'let!' x ':=' r 'in' k" := (bindR r (fun x => k))
  (at level 10, x pattern, r at level 100, k at level 200).

Section Model.
Context `{FL : Float}.

(** *** [ConformalModel] *)

Record ConformalModel := {
  model : ForecastingModel;
  alpha : Alpha;
  method : string;
  symmetrical : bool
}.

(** [isinstance(alpha, float)] *)
Definition is_float (alpha : Alpha) : bool :=
  match alpha with AFloat _ => true | APair _ _ => false end.

(** [ConformalModel.__init__(model, alpha, method)] *)
Definition init (model : ForecastingModel) (alpha : Alpha) (method : string)
  : result ConformalModel :=
  if negb (is_global model) || negb (fit_called model) then
    Raise (ValueError "`model` must be a pre-trained `GlobalForecastingModel`.")
  else if String.eqb method "naive" && negb (is_float alpha) then
    Raise (ValueError "`alpha` must be a `float` when `method=naive`.")
  else
    Ok {| model := model; alpha := alpha; method := method;
          symmetrical := is_float alpha |}.

(** [_cp_component_names(input_series)] *)
Definition _cp_component_names (input_series : TimeSeries) : list string :=
  flat_map (fun tgt_name =>
              map (fun param_n => (tgt_name ++ "_" ++ param_n)%string)
                  ["q_lo"; "q_md"; "q_hi"]%string)
           (ts_components input_series).

(** [q=self.alpha] is one level per output only for a float; for a pair the
    quantile has a leading axis of length two and the concatenation with the
    forecast that follows fails in numpy. *)
Definition alpha_level (a : Alpha) : result num :=
  match a with
  | AFloat q => Ok q
  | APair _ _ =>
      Raise (ValueError "all the input array dimensions except for the concatenation axis must match exactly")
  end.

(** [np.concatenate([pred_vals - q_hat, pred_vals, pred_vals + q_hat], axis=1)] *)
Definition conformal_bounds (pred_vals q_hat : list (list num)) : result (list (list num)) :=
  match np_zip2 fsub pred_vals q_hat with
  | Raise e => Raise e
  | Ok lo =>
      match np_zip2 fadd pred_vals q_hat with
      | Raise e => Raise e
      | Ok hi => np_concatenate3_axis1 lo pred_vals hi
      end
  end.

Fixpoint map_trace {A B} (f : A -> M B) (l : list A) : M (list B) :=
  match l with
  | [] => ret []
  | x :: l' => let* y := f x in let* ys := map_trace f l' in ret (y :: ys)
  end.

Fixpoint mapR {A B} (f : A -> result B) (l : list A) : result (list B) :=
  match l with
  | [] => Ok []
  | x :: l' =>
      match f x with
      | Raise e => Raise e
      | Ok y => match mapR f l' with Raise e => Raise e | Ok ys => Ok (y :: ys) end
      end
  end.

(** [enumerate(l)] *)
Definition enumerate {A} (l : list A) : list (nat * A) := imap (fun i x => (i, x)) l.

(** [zip(a, b, c)] *)
Definition zip3 {A B C} (a : list A) (b : list B) (c : list C) : list (A * B * C) :=
  zip (zip a b) c.

(** The body of the loop of [predict] for one series. *)
Definition predict_series (cm : ConformalModel)
    (series_ pred : TimeSeries) (res : list (list (list num))) : result TimeSeries :=
  (* convert to (horizon, n comps, hist fcs) *)
  match np_concatenate_axis2 res with
  | Raise e => Raise e
  | Ok res =>
      match alpha_level (alpha cm) with
      | Raise e => Raise e
      | Ok q =>
          let q_hat := np_quantile_axis2 q res in
          let pred_vals := ts_values pred in
          match conformal_bounds pred_vals q_hat with
          | Raise e => Raise e
          | Ok cp_pred =>
              _build_forecast_series cp_pred (_cp_component_names series_)
                (ts_start pred) (ts_freq pred) (ts_len pred)
          end
      end
  end.

Inductive PredictOut :=
| PredOne (s : TimeSeries)
| PredMany (l : list TimeSeries).

(** [ConformalModel.predict(n, series, num_samples)] *)
Definition predict (cm : ConformalModel) (n : Z) (series : SeriesArg) (num_samples : Z)
  : M PredictOut :=
  let called_with_single_series := called_with_single series in
  let series := series2seq series in
  let pkw := {| pk_n := n; pk_series := series; pk_num_samples := num_samples |} in
  let* _ := emit (EvPredict pkw) in
  let* preds := lift (m_predict (model cm) pkw) in
  let rkw := {| rk_series := series; rk_from_historical_forecasts := false;
                rk_forecast_horizon := Some n; rk_overlap_end := None;
                rk_last_points_only := false; rk_retrain := Some false;
                rk_stride := Some 1; rk_values_only := true |} in
  let* _ := emit (EvResiduals rkw) in
  let* residuals := lift (m_residuals (model cm) rkw None) in
  if negb (String.eqb (method cm) "naive") then
    raise_log (NotImplementedError "non-naive not yet implemented")
  else
    (* first: NAIVE only *)
    let* cp_preds :=
      lift (mapR (fun '(series_, pred, res) => predict_series cm series_ pred res)
                 (zip3 series preds residuals)) in
    if called_with_single_series then
      let* p := lift (Py.index cp_preds 0) in ret (PredOne p)
    else ret (PredMany cp_preds).

(** *** [historical_forecasts] *)

(** The arguments of [historical_forecasts] that the body uses. *)
Record HfcParams := {
  num_samples : Z;
  train_length : option Z;
  start : option Z;
  start_format : StartFormat;
  forecast_horizon : Z;
  stride : Z;
  overlap_end : bool;
  last_points_only : bool;
  show_warnings : bool
}.

(** [len(s_hfcs)], [get_single_series(s_hfcs).start_time()],
    [last_hfc.end_time()] and [s_hfcs[i].start_time()] in the two layouts. *)
Definition hfcs_len {lpo : bool} : hfcs_t lpo -> nat :=
  match lpo with
  | true => fun s => ts_len s
  | false => fun l => length l
  end.

Definition first_hfc_start {lpo : bool} : hfcs_t lpo -> result Z :=
  match lpo with
  | true => fun s => Ok (start_time s)
  | false => fun l => let! first_hfc := Py.index l 0 in Ok (start_time first_hfc)
  end.

Definition last_hfc_end {lpo : bool} : hfcs_t lpo -> result Z :=
  match lpo with
  | true => fun s => Ok (end_time s)
  | false => fun l => let! last_hfc := Py.index l (-1) in Ok (end_time last_hfc)
  end.

Definition hfc_start_at {lpo : bool} : hfcs_t lpo -> Z -> result Z :=
  match lpo with
  | true => fun s i => time_index_at s i
  | false => fun l i => let! fc := Py.index l i in Ok (start_time fc)
  end.

(** we need at least 1 residual per point in the horizon, plus some
    additional steps based on [train_length] *)
Definition skip_n_train (p : HfcParams) : Z :=
  match train_length p with
  | Some tl => forecast_horizon p + (tl - 1)
  | None => forecast_horizon p
  end.

(** determine the last forecast index for conformal prediction *)
Definition last_fc_idx (p : HfcParams) (series_ : TimeSeries) {lpo} (s_hfcs : hfcs_t lpo)
  : result Z :=
  let! last_end := last_hfc_end s_hfcs in
  let last_fc_idx := Z.of_nat (hfcs_len s_hfcs) in
  (* adjust based on [overlap_end] *)
  if negb (overlap_end p) then
    let delta_end := n_steps_between last_end (end_time series_) (ts_freq series_) in
    if negb (last_fc_idx =? 0) then Ok (last_fc_idx - delta_end) else Ok last_fc_idx
  else Ok last_fc_idx.

(** The time stamp meant by [start] (lines 366 to 369). *)
Definition start_time_of (p : HfcParams) (series_ : TimeSeries) (st : Z) : result Z :=
  match start_format p with
  | Value => Ok st
  | Position => time_index_at series_ st
  end.

(** The number of forecasts to skip for a start time (lines 371 to 378). *)
Definition skip_of_start_time (p : HfcParams) (series_ : TimeSeries)
    {lpo} (s_hfcs : hfcs_t lpo) (start_time_ : Z) : result Z :=
  let! first_start := first_hfc_start s_hfcs in
  let skip_n_start := n_steps_between start_time_ first_start (ts_freq series_) in
  (* hfcs only contain last predicted points; skip until end of first forecast *)
  Ok (if lpo then skip_n_start + (forecast_horizon p - 1) else skip_n_start).

(** if start is out of bounds, we ignore it (lines 381 to 385) *)
Definition out_of_bounds (p : HfcParams) (skip_n_start last_fc_idx : Z) : bool :=
  (skip_n_start <? 0) || (last_fc_idx <=? skip_n_start) || (skip_n_start <? skip_n_train p).

(** The warning about an ignored [start] (lines 387 to 403). *)
Definition start_warning (p : HfcParams) (series_idx : nat) (series_ : TimeSeries)
    {lpo} (s_hfcs : hfcs_t lpo) (last_fc_idx st start_time_ : Z) : M unit :=
  if show_warnings p then
    (* adjust to actual start point in case of [last_points_only] *)
    let adjust_idx :=
      (if lpo then 1 else 0) * (forecast_horizon p - 1) * ts_freq series_ in
    let* lo := lift (hfc_start_at s_hfcs (skip_n_train p)) in
    let* hi := lift (hfc_start_at s_hfcs last_fc_idx) in
    emit (EvStartWarning series_idx st start_time_ (lo - adjust_idx) (hi - adjust_idx))
  else ret tt.

(** skip solely based on [start] *)
Definition skip_n_start (p : HfcParams) (series_idx : nat) (series_ : TimeSeries)
    {lpo} (s_hfcs : hfcs_t lpo) (last_fc_idx : Z) : M Z :=
  match start p with
  | None => ret 0
  | Some st =>
      let* start_time_ := lift (start_time_of p series_ st) in
      let* skip_n_start := lift (skip_of_start_time p series_ s_hfcs start_time_) in
      if out_of_bounds p skip_n_start last_fc_idx then
        let* _ := start_warning p series_idx series_ s_hfcs last_fc_idx st start_time_ in
        ret 0
      else ret skip_n_start
  end.

(** The first and last forecast index of one series (lines 340 to 418). *)
Definition forecast_range (p : HfcParams) (series_idx : nat) (series_ : TimeSeries)
    {lpo} (s_hfcs : hfcs_t lpo) : M (Z * Z) :=
  let* last := lift (last_fc_idx p series_ s_hfcs) in
  let* skip_start := skip_n_start p series_idx series_ s_hfcs last in
  (* get final first index *)
  let first_fc_idx := Z.max (skip_n_train p) skip_start in
  if last <=? first_fc_idx then
    raise_log (ValueError "Cannot build a single input for prediction with the provided model, `series` and `*_covariates`. The minimum prediction input time index requirements were not met. Please check the time index of `series` and `*_covariates`.")
  else ret (first_fc_idx, last).

(** [res[cal_start:cal_end]] with [last_points_only=True] *)
Definition cal_end_lpo (p : HfcParams) (first_fc_idx : Z) (idx : nat) : Z :=
  first_fc_idx + Z.of_nat idx * stride p - (forecast_horizon p - 1).

Definition cal_start_lpo (p : HfcParams) (first_fc_idx : Z) (idx : nat) : option Z :=
  match train_length p with
  | Some tl => Some (cal_end_lpo p first_fc_idx idx - tl)
  | None => None
  end.

Definition cal_res_lpo (p : HfcParams) (first_fc_idx : Z) (idx : nat)
    (res : list (list num)) : list (list num) :=
  Py.slice (cal_start_lpo p first_fc_idx idx) (Some (cal_end_lpo p first_fc_idx idx)) res.

(** [res[cal_start:cal_end]] with [last_points_only=False] *)
Definition cal_end_full (p : HfcParams) (first_fc_idx : Z) (idx : nat) : Z :=
  first_fc_idx + Z.of_nat idx * stride p.

Definition cal_start_full (p : HfcParams) (first_fc_idx : Z) (idx : nat) : option Z :=
  match train_length p with
  | Some tl => Some (cal_end_full p first_fc_idx idx - tl - (forecast_horizon p - 1))
  | None => None
  end.

Definition cal_res_full (p : HfcParams) (first_fc_idx : Z) (idx : nat)
    (res : list (list (list num))) : result (list (list (list num))) :=
  np_concatenate_axis2
    (Py.slice (cal_start_full p first_fc_idx idx) (Some (cal_end_full p first_fc_idx idx)) res).

(** The two masks put on [cal_res] with [last_points_only=False]. *)
Definition mask_cal_res (p : HfcParams) (tri : list Z * list Z * list Z)
    (cal_res : list (list (list num))) : result (list (list (list num))) :=
  let '(idx_horizon, idx_comp, idx_hfc) := tri in
  (* ignore upper left residuals to have same number of residuals per horizon *)
  let! cal_res := np_setitem3 cal_res idx_horizon idx_comp idx_hfc nan in
  (* ignore lower right residuals to avoid look-ahead bias *)
  np_setitem3 cal_res
    (map (fun h => forecast_horizon p - 1 - h) idx_horizon)
    idx_comp
    (map (fun k => np_shape2 cal_res - 1 - k) idx_hfc)
    nan.

(** One iteration of the loop with [last_points_only=True]: the row of the
    output for the [idx]-th selected last point. *)
Definition cp_pred_lpo (cm : ConformalModel) (p : HfcParams) (first_fc_idx : Z)
    (res : list (list num)) (idx : nat) (pred_vals : list num) : result (list (list num)) :=
  let pred_vals := [pred_vals] in
  if (first_fc_idx =? 0) && Nat.eqb idx 0 then
    np_concatenate3_axis1 pred_vals pred_vals pred_vals
  else
    let cal_res := cal_res_lpo p first_fc_idx idx res in
    let! q := alpha_level (alpha cm) in
    let q_hat := np_nanquantile_axis0 q cal_res in
    conformal_bounds pred_vals [q_hat].

(** One iteration of the loop with [last_points_only=False]. *)
Definition cp_pred_full (cm : ConformalModel) (p : HfcParams)
    (tri : list Z * list Z * list Z) (series_ : TimeSeries) (first_fc_idx : Z)
    (res : list (list (list num))) (idx : nat) (pred : TimeSeries) : result TimeSeries :=
  let pred_vals := ts_values pred in
  let! cp_pred :=
    if (first_fc_idx =? 0) && Nat.eqb idx 0 then
      np_concatenate3_axis1 pred_vals pred_vals pred_vals
    else
      let! cal_res := cal_res_full p first_fc_idx idx res in
      let! cal_res := mask_cal_res p tri cal_res in
      let! q := alpha_level (alpha cm) in
      let q_hat := np_nanquantile_axis2 q cal_res in
      conformal_bounds pred_vals q_hat in
  _build_forecast_series cp_pred (_cp_component_names series_)
    (ts_start pred) (ts_freq pred) (ts_len pred).

(** The conformal forecasts of one series: one series of last points, or the
    list of corrected forecasts (the empty list when nothing was generated). *)
Inductive CpOut :=
| CpSeries (s : TimeSeries)
| CpList (l : list TimeSeries).

(** historical conformal prediction (lines 420 to 501) *)
Definition conformal_loop (cm : ConformalModel) (p : HfcParams)
    (tri : list Z * list Z * list Z) (series_ : TimeSeries) (first_fc_idx last_fc_idx : Z)
    {lpo} : hfcs_t lpo -> res_t lpo -> result CpOut :=
  match lpo with
  | true => fun s_hfcs res =>
      let! rows := Py.slice_step first_fc_idx last_fc_idx (stride p) (ts_values s_hfcs) in
      let! cp_preds :=
        mapR (fun '(idx, pred_vals) => cp_pred_lpo cm p first_fc_idx res idx pred_vals)
             (enumerate rows) in
      let! points_preds := np_concatenate_axis0 cp_preds in
      let! index_start := time_index_at s_hfcs first_fc_idx in
      let! cp_preds :=
        _build_forecast_series points_preds (_cp_component_names series_)
          index_start (ts_freq series_ * stride p) (length cp_preds) in
      Ok (CpSeries cp_preds)
  | false => fun s_hfcs res =>
      let! preds := Py.slice_step first_fc_idx last_fc_idx (stride p) s_hfcs in
      let! cp_preds :=
        mapR (fun '(idx, pred) => cp_pred_full cm p tri series_ first_fc_idx res idx pred)
             (enumerate preds) in
      Ok (CpList cp_preds)
  end.

(** The body of the loop over the series (lines 333 to 501). *)
Definition historical_forecasts_series (cm : ConformalModel) (p : HfcParams)
    (tri : list Z * list Z * list Z) (series_idx : nat) (series_ : TimeSeries)
    {lpo} (s_hfcs : hfcs_t lpo) (res : res_t lpo) : M CpOut :=
  (* no historical forecasts were generated *)
  if Nat.eqb (hfcs_len s_hfcs) 0
     || match train_length p with
        | Some tl => Z.of_nat (hfcs_len s_hfcs) <? tl
        | None => false
        end
  then ret (CpList [])
  else
    let* range := forecast_range p series_idx series_ s_hfcs in
    let first_fc_idx := fst range in
    let last_fc_idx := snd range in
    lift (conformal_loop cm p tri series_ first_fc_idx last_fc_idx s_hfcs res).

Inductive HfcOut :=
| HfcOne (o : CpOut)
| HfcMany (l : list CpOut).

(** [ConformalModel.historical_forecasts(series, ...)] *)
Definition historical_forecasts (cm : ConformalModel) (series : SeriesArg) (p : HfcParams)
  : M HfcOut :=
  let called_with_single_series := called_with_single series in
  let series := series2seq series in
  (* generate all possible forecasts (overlap_end=True) *)
  let hkw := {| hk_series := series; hk_num_samples := num_samples p;
                hk_forecast_horizon := forecast_horizon p; hk_retrain := false;
                hk_overlap_end := true; hk_last_points_only := last_points_only p |} in
  let* _ := emit (EvHistoricalForecasts hkw) in
  let* hfcs := lift (m_historical_forecasts (model cm) hkw) in
  let rkw := {| rk_series := series; rk_from_historical_forecasts := true;
                rk_forecast_horizon := None; rk_overlap_end := Some true;
                rk_last_points_only := last_points_only p; rk_retrain := None;
                rk_stride := None; rk_values_only := true |} in
  let* _ := emit (EvResiduals rkw) in
  let* residuals := lift (m_residuals (model cm) rkw (Some hfcs)) in
  (* this mask is later used to avoid look-ahead bias in case of [last_points_only=False] *)
  let* series0 := lift (Py.index series 0) in
  let* tri := lift (_triul_indices (forecast_horizon p) (ts_width series0)) in
  let* cp_hfcs :=
    map_trace (fun '(series_idx, (series_, s_hfcs, res)) =>
            historical_forecasts_series cm p tri series_idx series_ s_hfcs res)
         (enumerate (zip3 series hfcs residuals)) in
  if called_with_single_series then
    let* o := lift (Py.index cp_hfcs 0) in ret (HfcOne o)
  else ret (HfcMany cp_hfcs).

End Model.

(** ** Nonconformity scores: [cqr_score_sym], [cqr_score_asym], [_get_q_hat]

    A row of the calibration frame and the dictionary of scores are finite
    maps from column names; a value of a row is a float or [None]. The
    exceptions of these functions add to the ones above. *)

Inductive score_exn :=
| KeyError (key : string)
| TypeError (msg : string)
| AttributeError (name : string)
| OverflowError (msg : string)
| Builtin (e : exn).

Inductive sresult (A : Type) :=
| Returns (a : A)
| Raises (e : score_exn).
Arguments Returns {A} a.
Arguments Raises {A} e.

Definition bindS {A B} (r : sresult A) (f : A -> sresult B) : sresult B :=
  match r with Returns a => f a | Raises e => Raises e end.

Notation "'let?' x ':=' r 'in' k" := (bindS r (fun x => k))
  (at level 10, x pattern, r at level 100, k at level 200).

Definition of_result {A} (r : result A) : sresult A :=
  match r with Ok a => Returns a | Raise e => Raises (Builtin e) end.

(** [d[key]] *)
Definition getitem {V} (d : gmap string V) (key : string) : sresult V :=
  match d !! key with
  | Some v => Returns v
  | None => Raises (KeyError key)
  end.

(** An element of the list a score function returns: [None], a float or an
    integer. *)
Inductive cell `{Float} :=
| CNone
| CFloat (x : num)
| CInt (n : Z).

Section Scores.
Context `{FL : Float}.

(** [a > b] on floats, [n * x] for an integer [n], and [int(x)], which
    truncates and raises for NaN and the infinities. *)
Variable fgt : num -> num -> bool.
Variable fmul_int : Z -> num -> num.
Variable int_of_float : num -> sresult Z.

(** [a - b] where an operand may be [None] *)
Definition sub_opt (a b : option num) : sresult num :=
  match a, b with
  | Some x, Some y => Returns (fsub x y)
  | _, _ => Raises (TypeError "unsupported operand type(s) for -")
  end.

(** [max(a, b)]: the first argument unless the second is greater. *)
Definition py_max (a b : num) : num := if fgt b a then b else a.

(** [row[quantile_lo_col] - row["y"]] and [row["y"] - row[quantile_hi_col]] *)
Definition lo_minus_y (row : gmap string (option num)) (quantile_lo_col : string)
  : sresult num :=
  let? lo := getitem row quantile_lo_col in
  let? y := getitem row "y" in
  sub_opt lo y.

Definition y_minus_hi (row : gmap string (option num)) (quantile_hi_col : string)
  : sresult num :=
  let? y := getitem row "y" in
  let? hi := getitem row quantile_hi_col in
  sub_opt y hi.

(** [0 if row[lo] - row["y"] > row["y"] - row[hi] else 1] *)
Definition score_arg (row : gmap string (option num))
    (quantile_lo_col quantile_hi_col : string) : sresult Z :=
  let? a := lo_minus_y row quantile_lo_col in
  let? b := y_minus_hi row quantile_hi_col in
  Returns (if fgt a b then 0 else 1).

(** [row[quantile_lo_col] is None or row[quantile_hi_col] is None] *)
Definition quantile_is_none (row : gmap string (option num))
    (quantile_lo_col quantile_hi_col : string) : sresult bool :=
  let? lo := getitem row quantile_lo_col in
  match lo with
  | None => Returns true
  | Some _ =>
      let? hi := getitem row quantile_hi_col in
      Returns (match hi with None => true | Some _ => false end)
  end.

(** [cqr_score_sym(row, quantile_lo_col, quantile_hi_col)] *)
Definition cqr_score_sym (row : gmap string (option num))
    (quantile_lo_col quantile_hi_col : string) : sresult (list cell) :=
  let? none := quantile_is_none row quantile_lo_col quantile_hi_col in
  if none then Returns [CNone; CNone]
  else
    let? a := lo_minus_y row quantile_lo_col in
    let? b := y_minus_hi row quantile_hi_col in
    let score := py_max a b in
    let? arg := score_arg row quantile_lo_col quantile_hi_col in
    Returns [CFloat score; CInt arg].

(** [cqr_score_asym(row, quantile_lo_col, quantile_hi_col)] *)
Definition cqr_score_asym (row : gmap string (option num))
    (quantile_lo_col quantile_hi_col : string) : sresult (list cell) :=
  let? none := quantile_is_none row quantile_lo_col quantile_hi_col in
  if none then Returns [CNone; CNone]
  else
    let? a := lo_minus_y row quantile_lo_col in
    let? b := y_minus_hi row quantile_hi_col in
    let? arg := score_arg row quantile_lo_col quantile_hi_col in
    Returns [CFloat a; CFloat b; CInt arg].

(** [self.alpha_lo] and [self.alpha_hi] are set by the constructor only for
    an [alpha] that is not a float. *)
Definition alpha_lo (cm : ConformalModel) : sresult num :=
  match alpha cm with
  | APair lo _ => Returns lo
  | AFloat _ => Raises (AttributeError "alpha_lo")
  end.

Definition alpha_hi (cm : ConformalModel) : sresult num :=
  match alpha cm with
  | APair _ hi => Returns hi
  | AFloat _ => Raises (AttributeError "alpha_hi")
  end.

(** [int(len(scores) * a)] *)
Definition q_hat_idx (scores : list num) (a : num) : sresult Z :=
  int_of_float (fmul_int (Z.of_nat (length scores)) a).

(** [int(len(scores) * self.alpha)]: for a pair the product is a tuple,
    which [int] rejects. *)
Definition q_hat_idx_alpha (scores : list num) (a : Alpha) : sresult Z :=
  match a with
  | AFloat a => q_hat_idx scores a
  | APair _ _ => Raises (TypeError "int() argument must be a string, a bytes-like object or a real number, not 'tuple'")
  end.

(** [_get_q_hat(noncon_scores)] *)
Definition _get_q_hat (cm : ConformalModel) (noncon_scores : gmap string (list num))
  : sresult (gmap string num) :=
  (* Get the q-hat index and value *)
  if String.eqb (method cm) "cqr" && negb (symmetrical cm) then
    let? noncon_scores_lo := getitem noncon_scores "noncon_scores_lo" in
    let? noncon_scores_hi := getitem noncon_scores "noncon_scores_hi" in
    let? a_lo := alpha_lo cm in
    let? q_hat_idx_lo := q_hat_idx noncon_scores_lo a_lo in
    let? a_hi := alpha_hi cm in
    let? q_hat_idx_hi := q_hat_idx noncon_scores_hi a_hi in
    let? q_hat_lo := of_result (Py.index noncon_scores_lo (- q_hat_idx_lo)) in
    let? q_hat_hi := of_result (Py.index noncon_scores_hi (- q_hat_idx_hi)) in
    Returns (<["q_hat_lo"%string := q_hat_lo]> (<["q_hat_hi"%string := q_hat_hi]> ∅))
  else
    let? noncon_scores := getitem noncon_scores "noncon_scores" in
    let? q_hat_idx := q_hat_idx_alpha noncon_scores (alpha cm) in
    let? q_hat := of_result (Py.index noncon_scores (- q_hat_idx)) in
    Returns (<["q_hat_sym"%string := q_hat]> ∅).

End Scores.

(** ** Evaluation metrics: [_get_evaluate_metrics_from_dataset]

    The three arguments are one-dimensional arrays of floats, as
    [uncertainty_evaluate] passes them. *)

Section Metrics.
Context `{FL : Float}.

(** [np.mean] of a one-dimensional array, [a <= b] and [a >= b] on floats,
    [n / m] for two integers (a float; numpy gives NaN or an infinity for
    [m = 0]), and the float of an integer. *)
Variable np_mean : list num -> num.
Variable fle : num -> num -> bool.
Variable fge : num -> num -> bool.
Variable int_truediv : Z -> Z -> num.
Variable of_int : Z -> num.

(** An elementwise operation on two one-dimensional arrays: an array of one
    element is broadcast, other lengths must agree (the message of numpy goes
    on with the two shapes). *)
Definition np_broadcast1 {A B C} (op : A -> B -> C) (a : list A) (b : list B)
  : result (list C) :=
  if Nat.eqb (length a) (length b) then Ok (zip_with op a b)
  else
    match a, b with
    | [x], _ => Ok (map (op x) b)
    | _, [y] => Ok (map (fun x => op x y) a)
    | _, _ => Raise (ValueError "operands could not be broadcast together")
    end.

(** [np.sum] of an array of booleans. *)
Definition np_sum_bool (l : list bool) : Z :=
  foldr (fun (b : bool) acc => (if b then 1 else 0) + acc) 0 l.

(** [_get_evaluate_metrics_from_dataset(y, yhat_lo, yhat_hi)] *)
Definition _get_evaluate_metrics_from_dataset (y yhat_lo yhat_hi : list num)
  : result (num * num) :=
  (* Interval width (efficiency metric) *)
  let quantile_lo_mean := np_mean yhat_lo in
  let quantile_hi_mean := np_mean yhat_hi in
  let interval_width := fsub quantile_hi_mean quantile_lo_mean in
  (* Miscoverage rate (validity metric) *)
  let! above := np_broadcast1 fge y yhat_lo in
  let! below := np_broadcast1 fle y yhat_hi in
  let! both := np_broadcast1 andb above below in
  let n_covered := np_sum_bool both in
  let coverage_rate := int_truediv n_covered (Z.of_nat (length y)) in
  let miscoverage_rate := fsub (of_int 1) coverage_rate in
  Ok (interval_width, miscoverage_rate).

(** The number of points of [y] inside their interval, for arrays of one
    length. *)
Definition covered_count (y yhat_lo yhat_hi : list num) : Z :=
  np_sum_bool (zip_with andb (zip_with fge y yhat_lo) (zip_with fle y yhat_hi)).

End Metrics.

(** ** An instance: exact rationals with a NaN

    Used to run the embedding on concrete inputs. Arithmetic is exact; the
    quantile is numpy's default (linear interpolation between the order
    statistics at position [q * (n - 1)]). *)

Module Exact.

Definition xnum : Type := option Q.

Definition fin (z : Z) : xnum := Some (inject_Z z).

Definition lift2 (f : Q -> Q -> Q) (a b : xnum) : xnum :=
  match a, b with
  | Some x, Some y => Some (Qred (f x y))
  | _, _ => None
  end.

Fixpoint insert_sorted (x : Q) (l : list Q) : list Q :=
  match l with
  | [] => [x]
  | y :: l' => if Qle_bool x y then x :: l else y :: insert_sorted x l'
  end.

Definition sort (l : list Q) : list Q := foldr insert_sorted [] l.

Fixpoint all_finite (l : list xnum) : option (list Q) :=
  match l with
  | [] => Some []
  | None :: _ => None
  | Some x :: l' => match all_finite l' with Some xs => Some (x :: xs) | None => None end
  end.

Definition quantile (q : xnum) (l : list xnum) : xnum :=
  match q, all_finite l with
  | Some q, Some xs =>
      match sort xs with
      | [] => None
      | (x0 :: _) as sorted =>
          let n := length sorted in
          let pos := Qmult q (inject_Z (Z.of_nat n - 1)) in
          let lo := Qfloor pos in
          let g := Qminus pos (inject_Z lo) in
          let a := nth (Z.to_nat lo) sorted x0 in
          let b := nth (Nat.min (Z.to_nat lo + 1) (n - 1)) sorted x0 in
          Some (Qred (Qplus a (Qmult g (Qminus b a))))
      end
  | _, _ => None
  end.

Definition xisnan (x : xnum) : bool :=
  match x with None => true | Some _ => false end.

#[export] Instance exact_float : Float := {|
  num := xnum;
  fadd := lift2 Qplus;
  fsub := lift2 Qminus;
  nan := None;
  isnan := xisnan;
  quantile1 := quantile;
  isnan_nan := eq_refl
|}.

(** The absolute error [darts.metrics.ae] of one value. *)
Definition ae (actual forecast : xnum) : xnum :=
  match actual, forecast with
  | Some y, Some f => Some (Qred (Qabs (Qminus y f)))
  | _, _ => None
  end.

(** *** A wrapped model to run the code against

    A global model that repeats the last observed row. With [overlap_end]
    its historical forecasts start after every observed row, the last one
    after the end of the series; residuals are absolute errors, NaN where the
    actual value is not known yet. *)

Definition row_at (s : TimeSeries) (k : nat) : list xnum :=
  default [] (ts_values s !! k).

Definition last_value_forecast (h : Z) (s : TimeSeries) (k : nat) : TimeSeries :=
  {| ts_start := ts_start s + (Z.of_nat k + 1) * ts_freq s;
     ts_freq := ts_freq s;
     ts_components := ts_components s;
     ts_values := replicate (Z.to_nat h) (row_at s k) |}.

Definition n_forecasts (h : Z) (overlap : bool) (s : TimeSeries) : nat :=
  if overlap then ts_len s else ts_len s - Z.to_nat h.

Definition hfcs_full (h : Z) (overlap : bool) (s : TimeSeries) : list TimeSeries :=
  map (last_value_forecast h s) (seq 0 (n_forecasts h overlap s)).

Definition hfcs_last (h : Z) (overlap : bool) (s : TimeSeries) : TimeSeries :=
  {| ts_start := ts_start s + h * ts_freq s;
     ts_freq := ts_freq s;
     ts_components := ts_components s;
     ts_values := map (row_at s) (seq 0 (n_forecasts h overlap s)) |}.

(** The actual row of [s] at time [t], NaN outside of the series. *)
Definition actual_at (s : TimeSeries) (t : Z) : list xnum :=
  let k := (t - ts_start s) / ts_freq s in
  if (0 <=? k) && (k <? Z.of_nat (ts_len s)) then row_at s (Z.to_nat k)
  else map (fun _ => None) (ts_components s).

Definition residual_rows (s fc : TimeSeries) : list (list xnum) :=
  map (fun '(t, row) => zip_with ae (actual_at s t) row) (ts_entries fc).

Definition toy_historical_forecasts (kw : HfcKwargs)
  : result (list (hfcs_t (hk_last_points_only kw))) :=
  Ok (match hk_last_points_only kw as b return list (hfcs_t b) with
      | true => map (hfcs_last (hk_forecast_horizon kw) (hk_overlap_end kw)) (hk_series kw)
      | false => map (hfcs_full (hk_forecast_horizon kw) (hk_overlap_end kw)) (hk_series kw)
      end).

Definition toy_residuals (kw : ResKwargs)
    (hfcs : option (list (hfcs_t (rk_last_points_only kw))))
  : result (list (res_t (rk_last_points_only kw))) :=
  let h := default 1 (rk_forecast_horizon kw) in
  let overlap := default false (rk_overlap_end kw) in
  Ok ((match rk_last_points_only kw as b
             return option (list (hfcs_t b)) -> list (res_t b) with
       | true => fun hfcs =>
           zip_with residual_rows (rk_series kw)
             (default (map (hfcs_last h overlap) (rk_series kw)) hfcs)
       | false => fun hfcs =>
           zip_with (fun s fcs => map (residual_rows s) fcs) (rk_series kw)
             (default (map (hfcs_full h overlap) (rk_series kw)) hfcs)
       end) hfcs).

Definition toy_predict (kw : PredictKwargs) : result (list TimeSeries) :=
  Ok (map (fun s => last_value_forecast (pk_n kw) s (ts_len s - 1)) (pk_series kw)).

Definition toy_model : ForecastingModel := {|
  is_global := true;
  fit_called := true;
  m_predict := toy_predict;
  m_historical_forecasts := toy_historical_forecasts;
  m_residuals := toy_residuals
|}.

(** A univariate and a bivariate series. *)
Definition uni (vals : list Z) : TimeSeries :=
  {| ts_start := 0; ts_freq := 1; ts_components := ["a"%string];
     ts_values := map (fun v => [fin v]) vals |}.

Definition biv (vals : list (Z * Z)) : TimeSeries :=
  {| ts_start := 0; ts_freq := 1; ts_components := ["a"%string; "b"%string];
     ts_values := map (fun v => [fin (fst v); fin (snd v)]) vals |}.

Definition half : num := Some (1 # 2).

Definition naive_cm : ConformalModel :=
  {| model := toy_model; alpha := AFloat half; method := "naive"; symmetrical := true |}.

Definition params (lpo overlap : bool) (h stride_ : Z) (tl st : option Z) (warn : bool)
  : HfcParams :=
  {| num_samples := 1; train_length := tl; start := st; start_format := Value;
     forecast_horizon := h; stride := stride_; overlap_end := overlap;
     last_points_only := lpo; show_warnings := warn |}.

End Exact.

(** ** The operations of the score functions on exact rationals *)

Module ExactScores.
Import Exact.

(** [a > b]: false when an operand is NaN. *)
Definition xgt (a b : num) : bool :=
  match a, b with
  | Some x, Some y => negb (Qle_bool x y)
  | _, _ => false
  end.

(** [n * a] *)
Definition xmul_int (n : Z) (a : num) : num :=
  match a with
  | Some x => Some (Qred (inject_Z n * x))
  | None => None
  end.

(** [int(a)]: truncation towards zero. *)
Definition xint (a : num) : sresult Z :=
  match a with
  | Some x => Returns (Z.quot (Qnum x) (Zpos (Qden x)))
  | None => Raises (Builtin (ValueError "cannot convert float NaN to integer"))
  end.

End ExactScores.

(** ** The operations of the evaluation metrics on exact rationals *)

Module ExactMetrics.
Import Exact.

(** [a <= b] and [a >= b]: false when an operand is NaN. *)
Definition xle (a b : num) : bool :=
  match a, b with
  | Some x, Some y => Qle_bool x y
  | _, _ => false
  end.

Definition xge (a b : num) : bool := xle b a.

(** [np.mean]: NaN for an empty array or one holding a NaN. *)
Definition xmean (l : list num) : num :=
  match all_finite l with
  | Some [] => None
  | Some xs => Some (Qred (foldr Qplus 0%Q xs / inject_Z (Z.of_nat (length xs))))
  | None => None
  end.

(** [n / m]: NaN for [0 / 0]; the infinities of [n / 0] are not rationals
    and are NaN here. *)
Definition xtruediv (n m : Z) : num :=
  if m =? 0 then None else Some (Qred (inject_Z n / inject_Z m)).

Definition xof_int (n : Z) : num := Some (inject_Z n).

End ExactMetrics.

(** ** Vocabulary of the properties *)

Section Vocabulary.
Context `{FL : Float}.

Definition is_warning (ev : event) : Prop :=
  match ev with EvStartWarning _ _ _ _ _ => True | _ => False end.

(** The keyword arguments [historical_forecasts] passes to the wrapped
    model (lines 284 to 299 and 313 to 322). *)
Definition hfc_kwargs (series : SeriesArg) (p : HfcParams) : HfcKwargs :=
  {| hk_series := series2seq series; hk_num_samples := num_samples p;
     hk_forecast_horizon := forecast_horizon p; hk_retrain := false;
     hk_overlap_end := true; hk_last_points_only := last_points_only p |}.

Definition res_kwargs (series : SeriesArg) (p : HfcParams) : ResKwargs :=
  {| rk_series := series2seq series; rk_from_historical_forecasts := true;
     rk_forecast_horizon := None; rk_overlap_end := Some true;
     rk_last_points_only := last_points_only p; rk_retrain := None;
     rk_stride := None; rk_values_only := true |}.

(** The same arguments without [start]. *)
Definition without_start (p : HfcParams) : HfcParams :=
  {| num_samples := num_samples p; train_length := train_length p; start := None;
     start_format := start_format p; forecast_horizon := forecast_horizon p;
     stride := stride p; overlap_end := overlap_end p;
     last_points_only := last_points_only p; show_warnings := show_warnings p |}.

(** The same arguments with another [last_points_only]. *)
Definition with_last_points_only (p : HfcParams) (b : bool) : HfcParams :=
  {| num_samples := num_samples p; train_length := train_length p; start := start p;
     start_format := start_format p; forecast_horizon := forecast_horizon p;
     stride := stride p; overlap_end := overlap_end p;
     last_points_only := b; show_warnings := show_warnings p |}.

(** The arguments the properties assume: a positive horizon and stride, and
    a positive [train_length] if any. The module does not check them itself
    (the wrapped call of lines 284 to 299 does not receive [train_length]). *)
Definition valid_params (p : HfcParams) : Prop :=
  1 <= forecast_horizon p /\ 1 <= stride p /\
  match train_length p with Some tl => 1 <= tl | None => True end.

Definition insufficient_msg : string :=
  "Cannot build a single input for prediction with the provided model, `series` and `*_covariates`. The minimum prediction input time index requirements were not met. Please check the time index of `series` and `*_covariates`.".

(** Cells and shapes of arrays. *)
Definition get3 (a : list (list (list num))) (h c k : nat) : option num :=
  match a !! h with
  | Some plane =>
      match plane !! c with
      | Some line => line !! k
      | None => None
      end
  | None => None
  end.

Definition shape3 (H C N : nat) (a : list (list (list num))) : Prop :=
  length a = H /\
  Forall (fun plane => length plane = C /\ Forall (fun line => length line = N) plane) a.

Definition shape2 (H C : nat) (a : list (list num)) : Prop :=
  length a = H /\ Forall (fun row => length row = C) a.

Definition in_bounds (H C N : nat) (t : Z * Z * Z) : Prop :=
  0 <= t.1.1 < Z.of_nat H /\ 0 <= t.1.2 < Z.of_nat C /\ 0 <= t.2 < Z.of_nat N.

Definition zidx (h c k : nat) : Z * Z * Z := (Z.of_nat h, Z.of_nat c, Z.of_nat k).

(** The cells of the two masks. *)
Definition upper_left (fh : Z) (nc : nat) : list (Z * Z * Z) :=
  flat_map (fun t => map (fun i => (fh - 1 - t.1, i, t.2)) (map Z.of_nat (seq 0 nc)))
           (tril_positions (Z.to_nat fh)).

Definition lower_right (fh : Z) (nc : nat) (n : Z) : list (Z * Z * Z) :=
  map (fun t => (fh - 1 - t.1.1, t.1.2, n - 1 - t.2)) (upper_left fh nc).

(** One row of [np.concatenate([pred_vals - q_hat, pred_vals, pred_vals + q_hat], axis=1)]. *)
Definition bounds_row (pred_vals q_hat : list num) : list num :=
  (zip_with fsub pred_vals q_hat ++ pred_vals) ++ zip_with fadd pred_vals q_hat.

(** The last row of an array, and the last (time stamp, row) of a series. *)
Definition last_row (r : list (list num)) : list num := default [] (last r).

Definition last_entry (o : TimeSeries) : Z * list num :=
  (end_time o, last_row (ts_values o)).

(** Two results agree when both are values related by [R] or both are
    exceptions. *)
Definition res_agree {X Y} (R : X -> Y -> Prop) (r1 : result X) (r2 : result Y) : Prop :=
  match r1, r2 with
  | Ok x, Ok y => R x y
  | Raise _, Raise _ => True
  | _, _ => False
  end.

(** What the wrapped model returns for one series in the two layouts: with
    [last_points_only=False] a list [full] of forecasts of [forecast_horizon]
    rows each and their residual arrays [res_full]; with
    [last_points_only=True] the series [lpo] of the last points of the same
    forecasts and the residuals [res_lpo] of these points. The last forecast
    ends no earlier than the series ([overlap_end=True]). *)
Record layouts_agree (p : HfcParams) (s : TimeSeries)
    (full : list TimeSeries) (res_full : list (list (list num)))
    (lpo : TimeSeries) (res_lpo : list (list num)) : Prop := {
  la_freq : 0 < ts_freq s;
  la_width : (1 <= ts_width s)%nat;
  la_full : forall k fc, full !! k = Some fc ->
    ts_freq fc = ts_freq s /\
    end_time fc = ts_start lpo + Z.of_nat k * ts_freq s /\
    shape2 (Z.to_nat (forecast_horizon p)) (ts_width s) (ts_values fc);
  la_res : Forall (shape2 (Z.to_nat (forecast_horizon p)) (ts_width s)) res_full;
  la_res_len : length res_full = length full;
  la_lpo_freq : ts_freq lpo = ts_freq s;
  la_lpo_values : ts_values lpo = map (fun fc => last_row (ts_values fc)) full;
  la_res_lpo : res_lpo = map last_row res_full;
  la_end : end_time s <= end_time lpo
}.

(** The output for one series with [last_points_only=True] against the one
    with [last_points_only=False]: both empty, or a series whose entries are
    the last entries of the forecasts of the list, in order. *)
Definition last_points_of (s : TimeSeries) (o_lpo o_full : CpOut) : Prop :=
  (o_full = CpList [] /\ o_lpo = CpList []) \/
  exists l o,
    o_full = CpList l /\ o_lpo = CpSeries o /\ l <> [] /\
    ts_entries o = map last_entry l /\
    ts_components o = _cp_component_names s.

(** The values of the column of a series with a given name. *)
Definition ts_column (o : TimeSeries) (name : string) : option (list num) :=
  match list_find (fun c => c = name) (ts_components o) with
  | Some (i, _) => Some (omap (fun row : list num => row !! i) (ts_values o))
  | None => None
  end.

(** A row of an output whose lower bound, median and upper bound coincide. *)
Definition zero_width (row : list num) : Prop :=
  exists x, row = [x; x; x].

End Vocabulary.

(** ** Vocabulary of the further properties *)

Section MoreVocabulary.
Context `{FL : Float}.

(** The number of residuals per horizon step that calibrate forecast number
    [j]: [train_length], or every residual realized before [j]. *)
Definition n_cal (p : HfcParams) (j : Z) : Z :=
  match train_length p with
  | Some tl => tl
  | None => j - (forecast_horizon p - 1)
  end.

(** [a[h, c]] of an array of shape (h, c) or (h, c, n). *)
Definition get2 {A} (a : list (list A)) (h c : nat) : option A :=
  match a !! h with
  | Some row => row !! c
  | None => None
  end.

(** The same arguments with another [stride]. *)
Definition with_stride (p : HfcParams) (st : Z) : HfcParams :=
  {| num_samples := num_samples p; train_length := train_length p; start := start p;
     start_format := start_format p; forecast_horizon := forecast_horizon p;
     stride := st; overlap_end := overlap_end p;
     last_points_only := last_points_only p; show_warnings := show_warnings p |}.

(** The output [os] for one series holds every [st]-th forecast (or every
    [st]-th last point, time stamp and row) of the output [o1]. *)
Definition subsampled (st : nat) (o1 os : CpOut) : Prop :=
  match o1, os with
  | CpList l1, CpList ls => forall t, ls !! t = l1 !! (t * st)%nat
  | CpSeries s1, CpSeries ss =>
      ts_components ss = ts_components s1 /\
      forall t, ts_entries ss !! t = ts_entries s1 !! (t * st)%nat
  | _, _ => False
  end.

Definition hfc_subsampled (st : nat) (out1 outs : HfcOut) : Prop :=
  match out1, outs with
  | HfcOne o1, HfcOne os => subsampled st o1 os
  | HfcMany l1, HfcMany ls => Forall2 (subsampled st) l1 ls
  | _, _ => False
  end.

(** The values of the column at position [i] of a series. *)
Definition ts_column_at (o : TimeSeries) (i : nat) : list num :=
  omap (fun row : list num => row !! i) (ts_values o).

(** The test of lines 335 to 338: no historical forecasts were generated, or
    fewer than [train_length]. *)
Definition nothing_generated (p : HfcParams) {lpo} (s_hfcs : hfcs_t lpo) : bool :=
  Nat.eqb (hfcs_len s_hfcs) 0
  || match train_length p with
     | Some tl => Z.of_nat (hfcs_len s_hfcs) <? tl
     | None => false
     end.

(** The keyword arguments [predict] passes to the wrapped model (lines 155
    to 177). *)
Definition predict_kwargs (n : Z) (series : SeriesArg) (ns : Z) : PredictKwargs :=
  {| pk_n := n; pk_series := series2seq series; pk_num_samples := ns |}.

Definition predict_res_kwargs (n : Z) (series : SeriesArg) : ResKwargs :=
  {| rk_series := series2seq series; rk_from_historical_forecasts := false;
     rk_forecast_horizon := Some n; rk_overlap_end := None;
     rk_last_points_only := false; rk_retrain := Some false;
     rk_stride := Some 1; rk_values_only := true |}.

(** Whether the outcome of the body of the loop is a list of forecasts. *)
Definition returns_list (r : result CpOut) : bool :=
  match r with Ok (CpList _) => true | _ => false end.

(** The same arguments with another [overlap_end]. *)
Definition with_overlap_end (p : HfcParams) (b : bool) : HfcParams :=
  {| num_samples := num_samples p; train_length := train_length p; start := start p;
     start_format := start_format p; forecast_horizon := forecast_horizon p;
     stride := stride p; overlap_end := b;
     last_points_only := last_points_only p; show_warnings := show_warnings p |}.

(** The output [o'] for one series is the beginning of the output [o]: the
    first forecasts of the list, or the first rows of the series of last
    points, with its start, step and columns. *)
Definition truncated (o o' : CpOut) : Prop :=
  match o, o' with
  | CpList l, CpList l' => l' `prefix_of` l
  | CpSeries s, CpSeries s' =>
      ts_start s' = ts_start s /\ ts_freq s' = ts_freq s /\
      ts_components s' = ts_components s /\
      ts_values s' `prefix_of` ts_values s
  | _, _ => False
  end.

Definition hfc_truncated (out out' : HfcOut) : Prop :=
  match out, out' with
  | HfcOne o, HfcOne o' => truncated o o'
  | HfcMany l, HfcMany l' => Forall2 truncated l l'
  | _, _ => False
  end.

(** The result holds no forecast: the empty list for every series. *)
Definition no_forecasts (out : HfcOut) : Prop :=
  match out with
  | HfcOne o => o = CpList []
  | HfcMany l => Forall (fun o => o = CpList []) l
  end.

End MoreVocabulary.

(** ** Concrete inputs *)

Module Inputs.
Import Exact.

(** A univariate series of five points and one of two points. *)
Definition s5 : TimeSeries := uni [1; 3; 2; 7; 5].
Definition s2 : TimeSeries := uni [1; 2].
Definition s8 : TimeSeries := uni [1; 3; 2; 7; 5; 6; 10; 4].

(** A series with the two components a and b. *)
Definition ab : TimeSeries := biv [(1, 10); (3, 30); (2, 50); (7, 20)].

(** [last_points_only=True], horizon 1, stride 1, no [train_length], no start. *)
Definition p_lpo : HfcParams := params true false 1 1 None None true.

(** The same with [train_length=10]. *)
Definition p_train10 : HfcParams := params true false 1 1 (Some 10) None true.

(** Horizon 3, [start=1], no warnings. *)
Definition p_h3_start : HfcParams := params false false 3 1 None (Some 1) false.

(** Horizon 1 with [start=1]: the time of the first historical forecast,
    which lies before the minimum eligible index 1 (time 2); without and with
    [overlap_end]. *)
Definition p_start1 : HfcParams := params false false 1 1 None (Some 1) true.
Definition p_start1_overlap : HfcParams := params false true 1 1 None (Some 1) true.

(** [last_points_only=False], horizon 1, stride 1, no [train_length], no start. *)
Definition p_full : HfcParams := params false false 1 1 None None true.

(** Horizon 2, stride 2, [train_length=2]. *)
Definition p_h2 : HfcParams := params false true 2 2 (Some 2) None true.

(** The historical forecasts and residuals of the wrapped model for [s8]
    with horizon 2, in the two layouts. *)
Definition full8 : list TimeSeries := hfcs_full 2 true s8.
Definition res_full8 : list (list (list num)) := map (residual_rows s8) full8.
Definition lpo8 : TimeSeries := hfcs_last 2 true s8.
Definition res_lpo8 : list (list num) := residual_rows s8 lpo8.

(** The outputs of the runs below. *)
Definition cp_names : list string := ["a_q_lo"; "a_q_md"; "a_q_hi"]%string.

Definition out_s5 : TimeSeries :=
  {| ts_start := 2; ts_freq := 1; ts_components := cp_names;
     ts_values := [[fin 1; fin 3; fin 5];
                   [Some (1 # 2)%Q; fin 2; Some (7 # 2)%Q];
                   [fin 5; fin 7; fin 9]] |}.

Definition out_lpo8 : TimeSeries :=
  {| ts_start := 5; ts_freq := 2; ts_components := cp_names;
     ts_values := [[Some (9 # 2)%Q; fin 7; Some (19 # 2)%Q];
                   [fin 4; fin 6; fin 8];
                   [Some (1 # 2)%Q; fin 4; Some (15 # 2)%Q]] |}.

Definition out_full8 : list TimeSeries :=
  [{| ts_start := 4; ts_freq := 1; ts_components := cp_names;
      ts_values := [[fin 4; fin 7; fin 10];
                    [Some (9 # 2)%Q; fin 7; Some (19 # 2)%Q]] |};
   {| ts_start := 6; ts_freq := 1; ts_components := cp_names;
      ts_values := [[Some (9 # 2)%Q; fin 6; Some (15 # 2)%Q];
                    [fin 4; fin 6; fin 8]] |};
   {| ts_start := 8; ts_freq := 1; ts_components := cp_names;
      ts_values := [[fin (-1); fin 4; fin 9];
                    [Some (1 # 2)%Q; fin 4; Some (15 # 2)%Q]] |}].

Definition cp_names_ab : list string :=
  ["a_q_lo"; "a_q_md"; "a_q_hi"; "b_q_lo"; "b_q_md"; "b_q_hi"]%string.

Definition out_ab_predict : TimeSeries :=
  {| ts_start := 4; ts_freq := 1; ts_components := cp_names_ab;
     ts_values := [[fin 5; fin 0; fin 7; fin 20; fin 9; fin 40]] |}.

Definition out_ab_1 : TimeSeries :=
  {| ts_start := 2; ts_freq := 1; ts_components := cp_names_ab;
     ts_values := [[fin 1; fin 10; fin 3; fin 30; fin 5; fin 50]] |}.

Definition out_ab_2 : TimeSeries :=
  {| ts_start := 3; ts_freq := 1; ts_components := cp_names_ab;
     ts_values := [[Some (1 # 2)%Q; fin 30; fin 2; fin 50; Some (7 # 2)%Q; fin 70]] |}.

(** A model with the method "cqr". *)
Definition cqr_cm : ConformalModel :=
  {| model := toy_model; alpha := AFloat half; method := "cqr"; symmetrical := true |}.

End Inputs.

(** ** Inputs of the further runs *)

Module MoreInputs.
Import Exact Inputs ExactScores.

(** [last_points_only=True], horizon 2, stride 2, [train_length=2]. *)
Definition p_h2_lpo : HfcParams := params true true 2 2 (Some 2) None true.

(** Horizon 1 with [start=3], the time of the third historical forecast. *)
Definition p_start3 : HfcParams := params false false 1 1 None (Some 3) true.

(** The historical forecasts and residuals of the wrapped model for [s5]
    with horizon 1, in the two layouts, and its forecast after the end. *)
Definition full5 : list TimeSeries := hfcs_full 1 true s5.
Definition res_full5 : list (list (list num)) := map (residual_rows s5) full5.
Definition lpo5 : TimeSeries := hfcs_last 1 true s5.
Definition res_lpo5 : list (list num) := residual_rows s5 lpo5.
Definition pred5 : TimeSeries := last_value_forecast 1 s5 4.
Definition res_pred5 : list (list (list num)) :=
  map (residual_rows s5) (hfcs_full 1 false s5).

(** The indices of the masks for horizon 1: none. *)
Definition tri1 : list Z * list Z * list Z := ([], [], []).

(** A model with [alpha = 1/4]. *)
Definition quarter_cm : ConformalModel :=
  {| model := toy_model; alpha := AFloat (Some (1 # 4)%Q); method := "naive";
     symmetrical := true |}.

(** Rows of a calibration frame and a dictionary of scores. *)
Definition row_lo_none : gmap string (option num) :=
  <["lo"%string := None]> ∅.

Definition row_3_5_8 : gmap string (option num) :=
  <["lo"%string := Some (fin 3)]>
    (<["hi"%string := Some (fin 8)]> (<["y"%string := Some (fin 5)]> ∅)).

Definition scores_124 : gmap string (list num) :=
  <["noncon_scores"%string := [fin 1; fin 2; fin 4]]> ∅.

(** A model with a pair of significance levels. *)
Definition pair_cm : ConformalModel :=
  {| model := toy_model; alpha := APair (Some (1 # 4)%Q) (Some (3 # 4)%Q);
     method := "cqr"; symmetrical := false |}.

(** Three observations with their bounds, and wider bounds. *)
Definition y_159 : list num := [fin 1; fin 5; fin 9].
Definition lo_068 : list num := [fin 0; fin 6; fin 8].
Definition hi_27x : list num := [fin 2; fin 7; fin 10].
Definition lo_048 : list num := [fin 0; fin 4; fin 8].
Definition hi_37x : list num := [fin 3; fin 7; fin 10].

End MoreInputs.

(** * Properties *)

Example py_index_neg : Py.index [10; 20; 30] (-1) = Ok 30.
Proof. reflexivity. Qed.

Example py_index_oob : Py.index [10; 20; 30] 3 = Raise (IndexError "index out of range").
Proof. reflexivity. Qed.

Example py_slice_none : Py.slice None (Some 2) [10; 20; 30] = [10; 20].
Proof. reflexivity. Qed.

Example py_slice_step_ex : Py.slice_step 1 6 2 [0; 1; 2; 3; 4; 5; 6] = Ok [1; 3; 5].
Proof. reflexivity. Qed.

Example py_slice_step_rev : Py.slice_step 4 0 (-2) [0; 1; 2; 3; 4; 5; 6] = Ok [4; 2].
Proof. reflexivity. Qed.

Section Properties.
Context `{FL : Float}.

(** ** The trace monad *)

Lemma trace_bind {A B} (m : M A) (f : A -> M B) :
  trace (bind m f) =
  trace m ++ match outcome m with Ok a => trace (f a) | Raise _ => [] end.
Proof.
  destruct m as [t [a | e]]; simpl.
  - destruct (f a); reflexivity.
  - now rewrite app_nil_r.
Qed.

Lemma outcome_bind {A B} (m : M A) (f : A -> M B) :
  outcome (bind m f) =
  match outcome m with Ok a => outcome (f a) | Raise e => Raise e end.
Proof.
  destruct m as [t [a | e]]; simpl; [destruct (f a) |]; reflexivity.
Qed.

Lemma bind_lift {A B} (r : result A) (f : A -> M B) :
  bind (lift r) f = match r with Ok a => f a | Raise e => ([], Raise e) end.
Proof. destruct r; simpl; [destruct (f a) |]; reflexivity. Qed.

Lemma bind_emit {B} (ev : event) (f : unit -> M B) :
  bind (emit ev) f = (ev :: trace (f tt), outcome (f tt)).
Proof. unfold emit, bind. destruct (f tt); reflexivity. Qed.

Lemma bind_ret {A B} (a : A) (f : A -> M B) : bind (ret a) f = f a.
Proof. unfold ret, bind. destruct (f a); reflexivity. Qed.

(** ** Construction *)

(** C9. Construction raises exactly when the wrapped model is not a global
    forecasting model or was not fit, or when the method is "naive" and
    [alpha] is not a float; for a fit global model, a float [alpha] and the
    method "naive" it returns the model. *)
Theorem init_raises_iff (m : ForecastingModel) (a : Alpha) (meth : string) (q : num) :
  ((exists e, init m a meth = Raise e) <->
   ((is_global m = false \/ fit_called m = false) \/
    (meth = "naive"%string /\ is_float a = false)))
  /\ init m (AFloat q) "naive" =
     (if is_global m && fit_called m
      then Ok {| model := m; alpha := AFloat q; method := "naive"; symmetrical := true |}
      else Raise (ValueError "`model` must be a pre-trained `GlobalForecastingModel`.")).
Proof.
  split.
  - unfold init.
    destruct (is_global m), (fit_called m); simpl;
      try (split; [intros _; left; auto | intros _; eexists; reflexivity]).
    destruct (String.eqb_spec meth "naive") as [-> | Hne]; simpl.
    + destruct a; simpl.
      * split; [intros [e He]; discriminate | intros [[?|?] | [_ ?]]; discriminate].
      * split; [intros _; right; auto | intros _; eexists; reflexivity].
    + split; [intros [e He]; discriminate | intros [[?|?] | [? _]]; congruence].
  - unfold init. destruct (is_global m), (fit_called m); reflexivity.
Qed.

(** ** [predict] *)

(** C10. With a method other than "naive", [predict] never returns an
    output; once the wrapped model has returned its forecast and its
    residuals, the call raises [NotImplementedError], the two calls of the
    wrapped model being the only events before it. Hence only the method
    "naive" produces intervals. *)
Theorem predict_not_naive (cm : ConformalModel) (n : Z) (series : SeriesArg) (ns : Z) :
  method cm <> "naive"%string ->
  (forall out, outcome (predict cm n series ns) <> Ok out) /\
  (forall preds residuals,
     let pkw := {| pk_n := n; pk_series := series2seq series; pk_num_samples := ns |} in
     let rkw := {| rk_series := series2seq series; rk_from_historical_forecasts := false;
                   rk_forecast_horizon := Some n; rk_overlap_end := None;
                   rk_last_points_only := false; rk_retrain := Some false;
                   rk_stride := Some 1; rk_values_only := true |} in
     m_predict (model cm) pkw = Ok preds ->
     m_residuals (model cm) rkw None = Ok residuals ->
     predict cm n series ns =
       ([EvPredict pkw; EvResiduals rkw],
        Raise (NotImplementedError "non-naive not yet implemented"))).
Proof.
  intros Hm.
  assert (Hb : String.eqb (method cm) "naive" = false) by now apply String.eqb_neq.
  split.
  - intros out. unfold predict.
    rewrite bind_emit. cbn [outcome snd]. rewrite bind_lift.
    destruct (m_predict _ _) as [preds | e]; [| discriminate].
    rewrite bind_emit. cbn [outcome snd]. rewrite bind_lift.
    destruct (m_residuals _ _ _) as [res | e]; [| discriminate].
    rewrite Hb. discriminate.
  - intros preds residuals pkw rkw Hp Hr. unfold predict.
    rewrite bind_emit, bind_lift. fold pkw. rewrite Hp.
    rewrite bind_emit, bind_lift. fold rkw. rewrite Hr, Hb. reflexivity.
Qed.

(** ** The calls made by [historical_forecasts] *)

Lemma skip_n_start_trace (p : HfcParams) (i : nat) (s : TimeSeries) {lpo}
    (h : hfcs_t lpo) (last : Z) :
  Forall is_warning (trace (skip_n_start p i s h last)).
Proof.
  unfold skip_n_start. destruct (start p) as [st |]; [| constructor].
  rewrite bind_lift. destruct (start_time_of p s st) as [t | e]; [| constructor].
  rewrite bind_lift. destruct (skip_of_start_time p s h t) as [k | e]; [| constructor].
  destruct (out_of_bounds p k last); [| constructor].
  rewrite trace_bind. apply Forall_app. split; [| destruct (outcome _); constructor].
  unfold start_warning. destruct (show_warnings p); [| constructor].
  rewrite bind_lift. destruct (hfc_start_at h _) as [lo | e]; [| constructor].
  rewrite bind_lift. destruct (hfc_start_at h _) as [hi | e]; [| constructor].
  repeat constructor.
Qed.

Lemma forecast_range_trace (p : HfcParams) (i : nat) (s : TimeSeries) {lpo}
    (h : hfcs_t lpo) :
  Forall is_warning (trace (forecast_range p i s h)).
Proof.
  unfold forecast_range. rewrite bind_lift.
  destruct (last_fc_idx p s h) as [last | e]; [| constructor].
  rewrite trace_bind. apply Forall_app. split; [apply skip_n_start_trace |].
  destruct (outcome _); [| constructor].
  match goal with |- context [if ?c then _ else _] => destruct c end; constructor.
Qed.

Lemma historical_forecasts_series_trace (cm : ConformalModel) (p : HfcParams) tri
    (i : nat) (s : TimeSeries) {lpo} (h : hfcs_t lpo) (r : res_t lpo) :
  Forall is_warning (trace (historical_forecasts_series cm p tri i s h r)).
Proof.
  unfold historical_forecasts_series.
  match goal with |- context [if ?c then _ else _] => destruct c end; [constructor |].
  rewrite trace_bind. apply Forall_app. split; [apply forecast_range_trace |].
  destruct (outcome _); constructor.
Qed.

Lemma map_trace_Forall {A B} (P : event -> Prop) (f : A -> M B) (l : list A) :
  (forall x, Forall P (trace (f x))) -> Forall P (trace (map_trace f l)).
Proof.
  intros Hf. induction l as [| x l IH]; [constructor |].
  cbn [map_trace]. rewrite trace_bind. apply Forall_app. split; [apply Hf |].
  destruct (outcome (f x)); [| constructor].
  rewrite trace_bind. apply Forall_app. split; [exact IH |].
  destruct (outcome _); constructor.
Qed.

Lemma historical_forecasts_trace (cm : ConformalModel) (series : SeriesArg) (p : HfcParams) :
  exists rest,
    trace (historical_forecasts cm series p) =
      EvHistoricalForecasts (hfc_kwargs series p) :: rest /\
    match m_historical_forecasts (model cm) (hfc_kwargs series p) with
    | Raise _ => rest = []
    | Ok _ => exists warnings,
        rest = EvResiduals (res_kwargs series p) :: warnings /\
        Forall is_warning warnings
    end.
Proof.
  unfold historical_forecasts. rewrite bind_emit. cbn [trace fst].
  eexists. split; [reflexivity |].
  fold (hfc_kwargs series p).
  rewrite bind_lift.
  destruct (m_historical_forecasts (model cm) (hfc_kwargs series p)) as [hfcs | e];
    [| reflexivity].
  rewrite bind_emit. cbn [trace fst]. eexists. split; [reflexivity |].
  rewrite bind_lift. destruct (m_residuals _ _ _) as [res | e]; [| constructor].
  rewrite bind_lift. destruct (Py.index _ 0) as [s0 | e]; [| constructor].
  rewrite bind_lift. destruct (_triul_indices _ _) as [tri | e]; [| constructor].
  rewrite trace_bind. apply Forall_app. split.
  - apply map_trace_Forall. intros [i [[s h] r]].
    apply historical_forecasts_series_trace.
  - destruct (outcome _); [| constructor].
    destruct (called_with_single series); [| constructor].
    rewrite bind_lift. destruct (Py.index _ 0); constructor.
Qed.

(** C3 (amended). Whatever [overlap_end] and [last_points_only] the caller
    gives, the first event of [historical_forecasts] is the call of the wrapped
    model's [historical_forecasts] with [overlap_end=True], [retrain=False]
    and the caller's own [last_points_only]; every later call of the wrapped
    model is a call of [residuals] with [overlap_end=True] and the caller's
    [last_points_only], and it is made whenever the first call returns. *)
Theorem historical_forecasts_wrapped_calls
    (cm : ConformalModel) (series : SeriesArg) (p : HfcParams) :
  exists hkw rest,
    trace (historical_forecasts cm series p) = EvHistoricalForecasts hkw :: rest /\
    hk_overlap_end hkw = true /\
    hk_retrain hkw = false /\
    hk_last_points_only hkw = last_points_only p /\
    (forall ev, In ev rest ->
       match ev with
       | EvResiduals rkw =>
           rk_overlap_end rkw = Some true /\
           rk_last_points_only rkw = last_points_only p
       | EvStartWarning _ _ _ _ _ => True
       | _ => False
       end) /\
    (forall hfcs, m_historical_forecasts (model cm) hkw = Ok hfcs ->
       exists rkw, In (EvResiduals rkw) rest).
Proof.
  destruct (historical_forecasts_trace cm series p) as [rest [Ht Hrest]].
  exists (hfc_kwargs series p), rest.
  split; [exact Ht |]. do 3 (split; [reflexivity |]).
  destruct (m_historical_forecasts (model cm) (hfc_kwargs series p)) as [hfcs | e].
  - destruct Hrest as [warnings [-> Hw]]. split.
    + intros ev [<- | Hin]; [split; reflexivity |].
      rewrite Forall_forall in Hw. apply list_elem_of_In in Hin.
      specialize (Hw ev Hin). destruct ev; simpl in Hw; tauto.
    + intros _ _. eexists. left. reflexivity.
  - subst rest. split; [intros ev [] | intros hfcs' Heq; discriminate].
Qed.

(** ** The range of forecasts *)

Lemma skip_n_start_outcome_nonneg_or_skip (p : HfcParams) (i : nat) (s : TimeSeries)
    {lpo} (h : hfcs_t lpo) (last k : Z) :
  outcome (skip_n_start p i s h last) = Ok k ->
  k = 0 \/ (0 <= k /\ k < last /\ skip_n_train p <= k).
Proof.
  unfold skip_n_start. destruct (start p) as [st |]; [| intros [= <-]; now left].
  rewrite outcome_bind. cbn [lift outcome snd].
  destruct (start_time_of p s st) as [t | e]; [| discriminate].
  rewrite outcome_bind. cbn [lift outcome snd].
  destruct (skip_of_start_time p s h t) as [k' | e]; [| discriminate].
  destruct (out_of_bounds p k' last) eqn:Hb.
  - rewrite outcome_bind. destruct (outcome _); [| discriminate].
    intros [= <-]. now left.
  - intros [= <-]. right. unfold out_of_bounds in Hb.
    apply orb_false_elim in Hb as [Hb H3]. apply orb_false_elim in Hb as [H1 H2].
    lia.
Qed.

Lemma forecast_range_bounds (p : HfcParams) (i : nat) (s : TimeSeries)
    {lpo} (h : hfcs_t lpo) (first last : Z) :
  outcome (forecast_range p i s h) = Ok (first, last) ->
  skip_n_train p <= first /\ first < last /\ last_fc_idx p s h = Ok last.
Proof.
  unfold forecast_range. rewrite outcome_bind. cbn [lift outcome snd].
  destruct (last_fc_idx p s h) as [last' | e]; [| discriminate].
  rewrite outcome_bind.
  destruct (outcome (skip_n_start p i s h last')) as [k | e]; [| discriminate].
  destruct (Z.leb_spec last' (Z.max (skip_n_train p) k)); [discriminate |].
  intros [= <- <-]. repeat split; lia.
Qed.

(** C6 (amended). For arguments assumed valid ([valid_params]) the first
    forecast index is at least [forecast_horizon], hence never 0: no iteration of either loop takes
    the branch that repeats the forecast three times, and every emitted
    forecast is the raw forecast minus and plus the quantile of its
    calibration window. *)
Theorem zero_width_branch_unreachable (cm : ConformalModel) (p : HfcParams) (i : nat)
    (s : TimeSeries) {lpo} (h : hfcs_t lpo) (first last : Z) :
  valid_params p ->
  outcome (forecast_range p i s h) = Ok (first, last) ->
  1 <= forecast_horizon p <= first /\
  (forall res idx pred_vals,
     cp_pred_lpo cm p first res idx pred_vals =
       (let! q := alpha_level (alpha cm) in
        conformal_bounds [pred_vals] [np_nanquantile_axis0 q (cal_res_lpo p first idx res)])) /\
  (forall tri res idx pred,
     cp_pred_full cm p tri s first res idx pred =
       (let! cp_pred :=
          (let! cal_res := cal_res_full p first idx res in
           let! cal_res := mask_cal_res p tri cal_res in
           let! q := alpha_level (alpha cm) in
           conformal_bounds (ts_values pred) (np_nanquantile_axis2 q cal_res)) in
        _build_forecast_series cp_pred (_cp_component_names s)
          (ts_start pred) (ts_freq pred) (ts_len pred))).
Proof.
  intros (Hfh & Hst & Htl) Hr.
  apply forecast_range_bounds in Hr as (Hskip & _ & _).
  assert (Hf : forecast_horizon p <= first).
  { unfold skip_n_train in Hskip. destruct (train_length p); lia. }
  assert (Hz : (first =? 0) = false) by (apply Z.eqb_neq; lia).
  split; [lia |]. split.
  - intros res idx pv. unfold cp_pred_lpo. now rewrite Hz.
  - intros tri res idx pred. unfold cp_pred_full. now rewrite Hz.
Qed.

(** C7 (amended). For a series without historical forecasts, or with fewer
    of them than [train_length], the body of the loop returns the empty list
    and raises nothing. Otherwise, when no forecast index is eligible (the
    last forecast index is not above the minimum [skip_n_train]), the body
    raises and returns nothing; without [start] the error is the
    [ValueError] of lines 407 to 418 and no event precedes it. *)
Theorem too_short_series (cm : ConformalModel) (p : HfcParams) tri (i : nat)
    (s : TimeSeries) {lpo} (h : hfcs_t lpo) (r : res_t lpo) :
  (hfcs_len h = 0%nat \/
   (exists tl, train_length p = Some tl /\ Z.of_nat (hfcs_len h) < tl) ->
   historical_forecasts_series cm p tri i s h r = ([], Ok (CpList []))) /\
  (hfcs_len h <> 0%nat ->
   (forall tl, train_length p = Some tl -> tl <= Z.of_nat (hfcs_len h)) ->
   forall last, last_fc_idx p s h = Ok last -> last <= skip_n_train p ->
   (exists e, outcome (historical_forecasts_series cm p tri i s h r) = Raise e) /\
   (start p = None ->
    historical_forecasts_series cm p tri i s h r = ([], Raise (ValueError insufficient_msg)))).
Proof.
  split.
  - intros Hg. unfold historical_forecasts_series.
    destruct Hg as [-> | [tl [-> Hlt]]]; [reflexivity |].
    apply Z.ltb_lt in Hlt. rewrite Hlt. now rewrite orb_true_r.
  - intros Hne Htl last Hlast Hle.
    assert (Hg : Nat.eqb (hfcs_len h) 0
                 || match train_length p with
                    | Some tl => Z.of_nat (hfcs_len h) <? tl
                    | None => false
                    end = false).
    { apply orb_false_intro; [now apply Nat.eqb_neq |].
      destruct (train_length p) as [tl |] eqn:E; [| reflexivity].
      apply Z.ltb_ge. now apply Htl. }
    unfold historical_forecasts_series. rewrite Hg.
    unfold forecast_range. rewrite Hlast, bind_lift. split.
    + rewrite !outcome_bind.
      destruct (outcome (skip_n_start p i s h last)) as [k | e]; [| eauto].
      destruct (Z.leb_spec last (Z.max (skip_n_train p) k)); [| lia].
      eexists. reflexivity.
    + intros Hs. unfold skip_n_start. rewrite Hs, bind_ret.
      destruct (Z.leb_spec last (Z.max (skip_n_train p) 0)); [| lia].
      reflexivity.
Qed.

(** ** An ignored [start] *)

Lemma conformal_loop_without_start (cm : ConformalModel) (p : HfcParams) tri
    (s : TimeSeries) (first last : Z) {lpo} (h : hfcs_t lpo) (r : res_t lpo) :
  conformal_loop cm (without_start p) tri s first last h r =
  conformal_loop cm p tri s first last h r.
Proof. destruct p, lpo; reflexivity. Qed.

Lemma forecast_range_without_start (p : HfcParams) (i : nat) (s : TimeSeries)
    {lpo} (h : hfcs_t lpo) :
  forecast_range (without_start p) i s h =
  match last_fc_idx p s h with
  | Raise e => ([], Raise e)
  | Ok last =>
      if last <=? Z.max (skip_n_train p) 0
      then ([], Raise (ValueError insufficient_msg))
      else ([], Ok (Z.max (skip_n_train p) 0, last))
  end.
Proof.
  unfold forecast_range.
  replace (last_fc_idx (without_start p) s h) with (last_fc_idx p s h)
    by (destruct p; reflexivity).
  rewrite bind_lift. destruct (last_fc_idx p s h) as [last | e]; [| reflexivity].
  unfold skip_n_start. cbn [without_start start]. rewrite bind_ret.
  replace (skip_n_train (without_start p)) with (skip_n_train p)
    by (destruct p; reflexivity).
  destruct (last <=? _); reflexivity.
Qed.

(** When the requested [start] is out of bounds (before the first
    forecast, at or after the last forecast index, or before the minimum
    [skip_n_train]) and the two index look-ups of the warning are in range
    (or [show_warnings] is off), the start is ignored: the range of
    forecasts and the outcome of the loop body are those of the same call
    without [start], a range that is found starts at [skip_n_train] (for
    arguments assumed valid; at [max(skip_n_train, 0)] in general), and the only
    event is the warning, emitted exactly when [show_warnings] is on. *)
Lemma out_of_bounds_start_ignored (cm : ConformalModel) (p : HfcParams) tri (i : nat)
    (s : TimeSeries) {lpo} (h : hfcs_t lpo) (r : res_t lpo) (st t k last lo hi : Z) :
  start p = Some st ->
  start_time_of p s st = Ok t ->
  skip_of_start_time p s h t = Ok k ->
  last_fc_idx p s h = Ok last ->
  out_of_bounds p k last = true ->
  (show_warnings p = true ->
   hfc_start_at h (skip_n_train p) = Ok lo /\ hfc_start_at h last = Ok hi) ->
  let adjust_idx := (if lpo then 1 else 0) * (forecast_horizon p - 1) * ts_freq s in
  forecast_range p i s h =
    (if show_warnings p
     then [EvStartWarning i st t (lo - adjust_idx) (hi - adjust_idx)] else [],
     outcome (forecast_range (without_start p) i s h)) /\
  (forall first last', outcome (forecast_range p i s h) = Ok (first, last') ->
     first = Z.max (skip_n_train p) 0 /\ (valid_params p -> first = skip_n_train p)) /\
  outcome (historical_forecasts_series cm p tri i s h r) =
  outcome (historical_forecasts_series cm (without_start p) tri i s h r).
Proof.
  intros Hst Ht Hk Hlast Hoob Hw adjust_idx.
  assert (Hskip : skip_n_start p i s h last =
                  (if show_warnings p
                   then [EvStartWarning i st t (lo - adjust_idx) (hi - adjust_idx)]
                   else [], Ok 0)).
  { unfold skip_n_start. rewrite Hst, Ht, bind_lift, Hk, bind_lift, Hoob.
    unfold start_warning. destruct (show_warnings p).
    - destruct (Hw eq_refl) as [-> ->]. reflexivity.
    - reflexivity. }
  assert (Hrange : forecast_range p i s h =
    (if show_warnings p
     then [EvStartWarning i st t (lo - adjust_idx) (hi - adjust_idx)] else [],
     outcome (forecast_range (without_start p) i s h))).
  { rewrite forecast_range_without_start, Hlast.
    unfold forecast_range. rewrite Hlast, bind_lift, Hskip.
    unfold bind. destruct (last <=? Z.max (skip_n_train p) 0);
      cbn; now rewrite app_nil_r. }
  split; [exact Hrange |]. split.
  - intros first last' Hr.
    pose proof (forecast_range_bounds _ _ _ _ _ _ Hr) as (Hlo & _ & _).
    rewrite Hrange in Hr. cbn [outcome snd] in Hr.
    rewrite forecast_range_without_start, Hlast in Hr.
    destruct (last <=? Z.max (skip_n_train p) 0); [discriminate |].
    cbn in Hr. injection Hr as <- <-.
    split; [reflexivity |]. intros (Hfh & _ & Htl).
    unfold skip_n_train in *. destruct (train_length p); lia.
  - unfold historical_forecasts_series. cbn [without_start train_length].
    match goal with |- context [if ?c then _ else _] => destruct c end; [reflexivity |].
    rewrite !outcome_bind, Hrange.
    change (outcome (?t, ?o)) with o.
    destruct (outcome (forecast_range (without_start p) i s h)) as [[f l] | e];
      [| reflexivity].
    cbn [lift outcome snd fst]. now rewrite conformal_loop_without_start.
Qed.

(** ** A call with a single series *)

(** With a single series and a wrapped model that returns one set of
    historical forecasts and one set of residuals, the call is the two calls
    of the wrapped model followed by the body of the loop for that series. *)
Lemma historical_forecasts_single (cm : ConformalModel) (s : TimeSeries) (p : HfcParams)
    (h : hfcs_t (last_points_only p)) (r : res_t (last_points_only p)) tri :
  m_historical_forecasts (model cm) (hfc_kwargs (SingleSeries s) p) = Ok [h] ->
  m_residuals (model cm) (res_kwargs (SingleSeries s) p) (Some [h]) = Ok [r] ->
  _triul_indices (forecast_horizon p) (ts_width s) = Ok tri ->
  historical_forecasts cm (SingleSeries s) p =
    (EvHistoricalForecasts (hfc_kwargs (SingleSeries s) p)
       :: EvResiduals (res_kwargs (SingleSeries s) p)
       :: trace (historical_forecasts_series cm p tri 0 s h r),
     match outcome (historical_forecasts_series cm p tri 0 s h r) with
     | Ok o => Ok (HfcOne o)
     | Raise e => Raise e
     end).
Proof.
  intros Hh Hr Htri. unfold historical_forecasts.
  fold (hfc_kwargs (SingleSeries s) p). fold (res_kwargs (SingleSeries s) p).
  rewrite bind_emit, bind_lift, Hh, bind_emit, bind_lift.
  match goal with
  | |- context [m_residuals ?m ?k ?o] =>
      change (m_residuals m k o)
        with (m_residuals (model cm) (res_kwargs (SingleSeries s) p) (Some [h]))
  end.
  rewrite Hr.
  cbn [series2seq]. rewrite bind_lift.
  change (Py.index [s] 0) with (Ok s). cbv iota.
  rewrite bind_lift, Htri.
  change (enumerate (zip3 [s] [h] [r])) with [(0%nat, (s, h, r))].
  cbn [map_trace called_with_single].
  cbn [hk_last_points_only rk_last_points_only hfc_kwargs res_kwargs].
  destruct (historical_forecasts_series cm p tri 0 s h r) as [w [o | e]].
  - cbn [bind ret]. rewrite bind_lift. change (Py.index [o] 0) with (Ok o).
    cbn. now rewrite !app_nil_r.
  - reflexivity.
Qed.

(** ** Arrays and the triangular masks *)

Lemma norm_index_nat (n i : nat) :
  (i < n)%nat -> Py.norm_index n (Z.of_nat i) = Some i.
Proof.
  intros Hi. unfold Py.norm_index.
  destruct (Z.leb_spec 0 (Z.of_nat i)); [| lia].
  destruct (Z.ltb_spec (Z.of_nat i) (Z.of_nat n)); [| lia].
  now rewrite Nat2Z.id.
Qed.

Lemma shape3_lookup H C N a h c :
  shape3 H C N a -> (h < H)%nat -> (c < C)%nat ->
  exists plane line, a !! h = Some plane /\ length plane = C /\
                     plane !! c = Some line /\ length line = N.
Proof.
  intros [Hl Ha] Hh Hc.
  destruct (lookup_lt_is_Some_2 a h) as [plane Hp]; [lia |].
  rewrite Forall_lookup in Ha. destruct (Ha _ _ Hp) as [Hpl Hlines].
  destruct (lookup_lt_is_Some_2 plane c) as [line Hln]; [lia |].
  rewrite Forall_lookup in Hlines.
  exists plane, line. eauto.
Qed.

Lemma get3_is_Some H C N a h c k :
  shape3 H C N a -> (h < H)%nat -> (c < C)%nat -> (k < N)%nat ->
  is_Some (get3 a h c k).
Proof.
  intros Hs Hh Hc Hk.
  destruct (shape3_lookup _ _ _ _ _ _ Hs Hh Hc) as (plane & line & Hp & _ & Hln & Hlen).
  unfold get3. rewrite Hp. simpl. rewrite Hln. simpl.
  apply lookup_lt_is_Some_2. lia.
Qed.

Lemma np_set3_spec H C N a (h c k : nat) v :
  shape3 H C N a -> (h < H)%nat -> (c < C)%nat -> (k < N)%nat ->
  exists a',
    np_set3 a (Z.of_nat h) (Z.of_nat c) (Z.of_nat k) v = Ok a' /\
    shape3 H C N a' /\
    forall h' c' k',
      get3 a' h' c' k' =
      if decide (h' = h /\ c' = c /\ k' = k) then Some v else get3 a h' c' k'.
Proof.
  intros Hs Hh Hc Hk.
  destruct (shape3_lookup _ _ _ _ _ _ Hs Hh Hc) as (plane & line & Hp & Hpl & Hln & Hlen).
  destruct Hs as [Hl Ha].
  exists (alter (alter (fun l => <[k := v]> l) c) h a). split; [| split].
  - unfold np_set3. rewrite norm_index_nat by lia. rewrite Hp. simpl.
    rewrite norm_index_nat by lia. rewrite Hln. simpl.
    now rewrite norm_index_nat by lia.
  - split; [now rewrite length_alter |].
    apply Forall_alter; [exact Ha |].
    intros pl Hpl' [Hlen' Hlines]. split; [now rewrite length_alter |].
    apply Forall_alter; [exact Hlines |].
    intros ln _ Hn. now rewrite length_insert.
  - intros h' c' k'. unfold get3.
    destruct (decide (h' = h)) as [-> | Hne].
    + rewrite list_lookup_alter_eq, Hp. simpl.
      destruct (decide (c' = c)) as [-> | Hnc].
      * rewrite list_lookup_alter_eq, Hln. simpl.
        destruct (decide (k' = k)) as [-> | Hnk].
        -- rewrite list_lookup_insert_eq by lia.
           now rewrite decide_True by auto.
        -- rewrite list_lookup_insert_ne by auto.
           rewrite decide_False by tauto. reflexivity.
      * rewrite list_lookup_alter_ne by auto.
        rewrite decide_False by tauto. reflexivity.
    + rewrite list_lookup_alter_ne by auto.
      rewrite decide_False by tauto. reflexivity.
Qed.

Lemma np_set3_many_spec H C N idx v : forall a,
  shape3 H C N a -> Forall (in_bounds H C N) idx ->
  exists a',
    np_set3_many a idx v = Ok a' /\
    shape3 H C N a' /\
    forall h c k,
      get3 a' h c k = if decide (zidx h c k ∈ idx) then Some v else get3 a h c k.
Proof.
  induction idx as [| [[zh zc] zk] idx IH]; intros a Hs Hb.
  - exists a. split; [reflexivity |]. split; [exact Hs |]. intros h c k.
    rewrite decide_False; [reflexivity | apply not_elem_of_nil].
  - apply Forall_cons in Hb as [(Hh & Hc & Hk) Hb]. simpl in Hh, Hc, Hk.
    destruct (np_set3_spec H C N a (Z.to_nat zh) (Z.to_nat zc) (Z.to_nat zk) v Hs)
      as (a1 & Hset & Hs1 & Hget1); try lia.
    rewrite !Z2Nat.id in Hset by lia.
    destruct (IH a1 Hs1 Hb) as (a' & Hmany & Hs' & Hget').
    exists a'. split; [| split; [exact Hs' |]].
    + cbn [np_set3_many]. now rewrite Hset.
    + intros h c k. rewrite Hget', Hget1.
      destruct (decide (zidx h c k ∈ idx)) as [Hin | Hnin].
      * rewrite decide_True; [reflexivity | apply elem_of_cons; now right].
      * destruct (decide (h = Z.to_nat zh /\ c = Z.to_nat zc /\ k = Z.to_nat zk))
          as [(-> & -> & ->) | Hne].
        -- rewrite decide_True; [reflexivity |].
           unfold zidx. rewrite !Z2Nat.id by lia. apply elem_of_cons. now left.
        -- rewrite decide_False; [reflexivity |].
           intros Hin. apply elem_of_cons in Hin as [Heq | Hin]; [| contradiction].
           unfold zidx in Heq. injection Heq as <- <- <-.
           apply Hne. rewrite !Nat2Z.id. auto.
Qed.

(** *** The index lists of the masks *)

Lemma zip3_replicate {A B C} (a : A) (c : C) (bs : list B) :
  zip (zip (replicate (length bs) a) bs) (replicate (length bs) c) =
  map (fun b => (a, b, c)) bs.
Proof. induction bs as [| b bs IH]; [reflexivity |]. cbn. now f_equal. Qed.

Lemma np_repeat_cons {A} (n : nat) (x : A) (l : list A) :
  np_repeat n (x :: l) = replicate n x ++ np_repeat n l.
Proof. reflexivity. Qed.

Lemma zip3_repeat (T : list (Z * Z)) (f : Z -> Z) (comps : list Z) :
  zip (zip (np_repeat (length comps) (map f (map fst T)))
           (flat_map (fun _ => comps) (map fst T)))
      (np_repeat (length comps) (map snd T)) =
  flat_map (fun t => map (fun i => (f t.1, i, t.2)) comps) T.
Proof.
  induction T as [| [r c] T IH]; [reflexivity |].
  cbn [map flat_map fst snd]. rewrite !np_repeat_cons.
  rewrite zip_with_app by now rewrite length_replicate.
  rewrite zip_with_app.
  - rewrite IH. f_equal. apply (zip3_replicate (f r) c comps).
  - rewrite length_zip_with, !length_replicate. lia.
Qed.

Lemma repeat_lengths (T : list (Z * Z)) (f : Z -> Z) (comps : list Z) :
  length (np_repeat (length comps) (map f (map fst T))) =
    length (flat_map (fun _ => comps) (map fst T)) /\
  length (flat_map (fun _ => comps) (map fst T)) =
    length (np_repeat (length comps) (map snd T)).
Proof.
  induction T as [| [r c] T [IH1 IH2]]; [split; reflexivity |].
  cbn [map flat_map fst snd]. rewrite !np_repeat_cons, !length_app, !length_replicate.
  lia.
Qed.

Lemma zip3_map (f g : Z -> Z) (a b c : list Z) :
  zip (zip (map f a) b) (map g c) =
  map (fun t => (f t.1.1, t.1.2, g t.2)) (zip (zip a b) c).
Proof.
  revert b c. induction a as [| x a IH]; intros [| y b] [| z c]; try reflexivity.
  cbn. f_equal. apply IH.
Qed.

Lemma in_tril_positions (n : nat) (r c : Z) :
  In (r, c) (tril_positions n) <-> 0 <= c < r /\ r < Z.of_nat n.
Proof.
  unfold tril_positions. rewrite in_flat_map. split.
  - intros (r0 & Hr0 & Hin). apply in_seq in Hr0.
    apply in_map_iff in Hin as (c0 & Heq & Hc0). apply in_seq in Hc0.
    injection Heq as <- <-. lia.
  - intros [Hc Hr]. exists (Z.to_nat r). split; [apply in_seq; lia |].
    apply in_map_iff. exists (Z.to_nat c). split; [| apply in_seq; lia].
    f_equal; lia.
Qed.

Lemma triul_indices_zip (fh : Z) (nc : nat) ih ic ik :
  _triul_indices fh nc = Ok (ih, ic, ik) ->
  zip (zip ih ic) ik = upper_left fh nc /\
  length ih = length ic /\ length ic = length ik.
Proof.
  unfold _triul_indices. destruct (fh <? 0); [discriminate |].
  unfold np_tril_indices. intros [= <- <- <-].
  pose proof (zip3_repeat (tril_positions (Z.to_nat fh)) (fun r => fh - 1 - r)
                (map Z.of_nat (seq 0 nc))) as Hz.
  pose proof (repeat_lengths (tril_positions (Z.to_nat fh)) (fun r => fh - 1 - r)
                (map Z.of_nat (seq 0 nc))) as Hl.
  rewrite length_map, length_seq in Hz, Hl. split; [exact Hz | exact Hl].
Qed.

Lemma in_upper_left (fh : Z) (nc : nat) (zh zc zk : Z) :
  In (zh, zc, zk) (upper_left fh nc) <->
  0 <= zc < Z.of_nat nc /\ 0 <= zh /\ 0 <= zk /\ zh + zk < fh - 1.
Proof.
  unfold upper_left. rewrite in_flat_map. split.
  - intros ([r c] & Ht & Hin). apply in_tril_positions in Ht.
    apply in_map_iff in Hin as (i & Heq & Hi).
    apply in_map_iff in Hi as (i0 & <- & Hi0). apply in_seq in Hi0.
    cbn in Heq. injection Heq as <- <- <-. lia.
  - intros (Hc & Hh & Hk & Hs). exists (fh - 1 - zh, zk). split.
    + apply in_tril_positions. lia.
    + apply in_map_iff. exists zc. split; [cbn; f_equal; f_equal; lia |].
      apply in_map_iff. exists (Z.to_nat zc). split; [lia | apply in_seq; lia].
Qed.

Lemma in_lower_right (fh : Z) (nc : nat) (n zh zc zk : Z) :
  In (zh, zc, zk) (lower_right fh nc n) <->
  0 <= zc < Z.of_nat nc /\ zh <= fh - 1 /\ zk <= n - 1 /\ n <= zh + zk.
Proof.
  unfold lower_right. rewrite in_map_iff. split.
  - intros ([[x y] z] & Heq & Hin). apply in_upper_left in Hin.
    cbn in Heq. injection Heq as <- <- <-. lia.
  - intros (Hc & Hh & Hk & Hs). exists (fh - 1 - zh, zc, n - 1 - zk). split.
    + cbn. f_equal; [f_equal |]; lia.
    + apply in_upper_left. lia.
Qed.

Lemma np_shape2_shape3 H C N a :
  shape3 H C N a -> (1 <= H)%nat -> (1 <= C)%nat -> np_shape2 a = Z.of_nat N.
Proof.
  intros Hs HH HC.
  destruct (shape3_lookup H C N a 0%nat 0%nat Hs) as (plane & line & Hp & _ & Hl & Hn);
    try lia.
  unfold np_shape2. destruct a as [| pl a]; [discriminate |].
  injection Hp as ->. destruct plane as [| ln plane]; [discriminate |].
  injection Hl as ->. cbn. now rewrite Hn.
Qed.

(** The masked array: a cell (h, c, k) is NaN when [h + k < fh - 1] (upper
    left) or [n <= h + k] (lower right), and unchanged otherwise. *)
Lemma mask_cal_res_spec (p : HfcParams) (F C N : nat) a tri :
  forecast_horizon p = Z.of_nat F ->
  (1 <= F)%nat -> (1 <= C)%nat -> (F - 1 <= N)%nat ->
  shape3 F C N a ->
  _triul_indices (forecast_horizon p) C = Ok tri ->
  exists a',
    mask_cal_res p tri a = Ok a' /\
    shape3 F C N a' /\
    forall h c k, (h < F)%nat -> (c < C)%nat -> (k < N)%nat ->
      get3 a' h c k =
      if (Z.of_nat h + Z.of_nat k <? Z.of_nat F - 1)
         || (Z.of_nat N <=? Z.of_nat h + Z.of_nat k)
      then Some nan else get3 a h c k.
Proof.
  intros Hfh HF HC HN Hs Htri.
  destruct tri as [[ih ic] ik].
  destruct (triul_indices_zip _ _ _ _ _ Htri) as (Hzip & Hl1 & Hl2).
  assert (Hb1 : Forall (in_bounds F C N) (upper_left (forecast_horizon p) C)).
  { apply Forall_forall. intros [[zh zc] zk] Hin.
    apply list_elem_of_In, in_upper_left in Hin. unfold in_bounds. cbn. lia. }
  assert (Hb2 : Forall (in_bounds F C N)
                  (lower_right (forecast_horizon p) C (Z.of_nat N))).
  { apply Forall_forall. intros [[zh zc] zk] Hin.
    apply list_elem_of_In in Hin. pose proof Hin as Hin'.
    unfold lower_right in Hin'. apply in_map_iff in Hin' as ([[x y] z] & Heq & Hu).
    apply in_upper_left in Hu. cbn in Heq. injection Heq as <- <- <-.
    unfold in_bounds. cbn. lia. }
  destruct (np_set3_many_spec F C N _ nan a Hs Hb1) as (a1 & Hm1 & Hs1 & Hg1).
  destruct (np_set3_many_spec F C N _ nan a1 Hs1 Hb2) as (a2 & Hm2 & Hs2 & Hg2).
  exists a2. split; [| split; [exact Hs2 |]].
  - unfold mask_cal_res, np_setitem3.
    rewrite Hl1, Hl2, !Nat.eqb_refl. cbn [andb]. rewrite Hzip, Hm1.
    cbn [bindR]. rewrite !length_map, Hl1, Hl2, !Nat.eqb_refl. cbn [andb].
    rewrite zip3_map, Hzip, (np_shape2_shape3 F C N a1 Hs1 HF HC).
    exact Hm2.
  - intros h c k Hh Hc Hk. rewrite Hg2, Hg1.
    destruct (decide (zidx h c k ∈ lower_right (forecast_horizon p) C (Z.of_nat N)))
      as [Hin | Hnin].
    + apply list_elem_of_In, in_lower_right in Hin.
      destruct (Z.leb_spec (Z.of_nat N) (Z.of_nat h + Z.of_nat k)); [| lia].
      now rewrite orb_true_r.
    + assert (Hlr : (Z.of_nat N <=? Z.of_nat h + Z.of_nat k) = false).
      { apply Z.leb_gt. destruct (Z.ltb_spec (Z.of_nat h + Z.of_nat k) (Z.of_nat N));
          [assumption |].
        exfalso. apply Hnin. apply list_elem_of_In, in_lower_right. lia. }
      rewrite Hlr, orb_false_r.
      destruct (decide (zidx h c k ∈ upper_left (forecast_horizon p) C)) as [Hin | Hnu].
      * apply list_elem_of_In, in_upper_left in Hin.
        destruct (Z.ltb_spec (Z.of_nat h + Z.of_nat k) (Z.of_nat F - 1)); [reflexivity | lia].
      * destruct (Z.ltb_spec (Z.of_nat h + Z.of_nat k) (Z.of_nat F - 1)); [| reflexivity].
        exfalso. apply Hnu. apply list_elem_of_In, in_upper_left. lia.
Qed.

(** *** Slices *)

Lemma py_slice_take {A} (n : Z) (l : list A) :
  0 <= n -> Py.slice None (Some n) l = take (Z.to_nat n) l.
Proof.
  intros Hn. unfold Py.slice, Py.clip.
  destruct (Z.ltb_spec n 0); [lia |].
  rewrite Z.sub_0_r. change (Z.to_nat 0) with 0%nat. rewrite drop_0.
  destruct (Z.le_ge_cases n (Z.of_nat (length l))).
  - now rewrite Z.min_l.
  - rewrite Z.min_r by lia. rewrite Nat2Z.id.
    rewrite (take_ge l (length l)) by lia.
    rewrite (take_ge l (Z.to_nat n)) by lia. reflexivity.
Qed.

Lemma py_slice_range {A} (a b : Z) (l : list A) :
  0 <= a <= b -> b <= Z.of_nat (length l) ->
  Py.slice (Some a) (Some b) l = take (Z.to_nat (b - a)) (drop (Z.to_nat a) l).
Proof.
  intros Hab Hb. unfold Py.slice, Py.clip.
  destruct (Z.ltb_spec a 0); [lia |]. destruct (Z.ltb_spec b 0); [lia |].
  rewrite !Z.min_l by lia. reflexivity.
Qed.

Lemma py_slice_fmap {A B} (f : A -> B) (a b : option Z) (l : list A) :
  Py.slice a b (f <$> l) = f <$> Py.slice a b l.
Proof.
  unfold Py.slice. rewrite length_fmap, fmap_take, fmap_drop. reflexivity.
Qed.

(** The positions of [l[first:last:stride]] for [0 <= first] and a positive
    stride: [first + t * stride] below [last] and the length. *)
Lemma slice_positions_spec (n : nat) (first last stride : Z) (t : nat) (pos : Z) :
  0 <= first -> 0 <= last -> 0 < stride ->
  Py.slice_positions n first last stride !! t = Some pos ->
  pos = first + Z.of_nat t * stride /\ pos < last /\ pos < Z.of_nat n.
Proof.
  intros Hf Hla Hs. unfold Py.slice_positions, Py.clip.
  destruct (Z.ltb_spec 0 stride); [| lia].
  destruct (Z.ltb_spec first 0); [lia |].
  rewrite list_lookup_fmap, fmap_Some. intros (t' & Ht & ->).
  apply lookup_seq in Ht as [-> Hlt]. cbn [Nat.add] in *.
  set (lo := Z.min first (Z.of_nat n)) in *.
  set (hi := if last <? 0 then Z.max (Z.of_nat n + last) 0
             else Z.min last (Z.of_nat n)) in *.
  assert (Hhi : hi <= Z.of_nat n /\ (hi <= last \/ hi = 0)).
  { subst hi. destruct (Z.ltb_spec last 0); lia. }
  destruct (Z.ltb_spec lo hi) as [Hlh | Hlh]; [| cbn in Hlt; lia].
  assert (Hlo : lo = first) by (subst lo; lia).
  assert (Hq : Z.of_nat t <= (hi - lo - 1) / stride) by lia.
  assert (Hm : stride * ((hi - lo - 1) / stride) <= hi - lo - 1)
    by (apply Z.mul_div_le; lia).
  assert (Z.of_nat t * stride <= hi - lo - 1) by nia.
  repeat split; lia.
Qed.

Lemma slice_positions_length (n : nat) (first last stride : Z) :
  0 <= first -> 0 < stride -> first < last -> first < Z.of_nat n ->
  (1 <= length (Py.slice_positions n first last stride))%nat.
Proof.
  intros Hf Hs Hl Hn. unfold Py.slice_positions, Py.clip.
  destruct (Z.ltb_spec 0 stride); [| lia].
  destruct (Z.ltb_spec first 0); [lia |].
  destruct (Z.ltb_spec last 0); [lia |].
  rewrite length_map, length_seq.
  destruct (Z.ltb_spec (Z.min first (Z.of_nat n)) (Z.min last (Z.of_nat n))); [| lia].
  assert (0 <= (Z.min last (Z.of_nat n) - Z.min first (Z.of_nat n) - 1) / stride)
    by (apply Z.div_pos; lia).
  lia.
Qed.

Lemma slice_step_fmap {A B} (f : A -> B) (first last stride : Z) (l : list A) :
  Py.slice_step first last stride (f <$> l) =
  match Py.slice_step first last stride l with
  | Ok xs => Ok (f <$> xs)
  | Raise e => Raise e
  end.
Proof.
  unfold Py.slice_step. destruct (stride =? 0); [reflexivity |].
  rewrite length_fmap. f_equal.
  induction (Py.slice_positions (length l) first last stride) as [| pos ps IH];
    [reflexivity |].
  cbn [omap list_omap]. rewrite list_lookup_fmap.
  destruct (l !! Z.to_nat pos); cbn; now rewrite IH.
Qed.

Lemma slice_step_lookup {A} (first last stride : Z) (l xs : list A) (t : nat) (x : A) :
  0 <= first -> 0 <= last -> 0 < stride ->
  Py.slice_step first last stride l = Ok xs ->
  xs !! t = Some x ->
  l !! Z.to_nat (first + Z.of_nat t * stride) = Some x /\
  first + Z.of_nat t * stride < last.
Proof.
  intros Hf Hla Hs. unfold Py.slice_step.
  destruct (Z.eqb_spec stride 0); [lia |]. intros [= <-].
  set (ps := Py.slice_positions (length l) first last stride).
  assert (Hps : forall t pos, ps !! t = Some pos ->
            pos = first + Z.of_nat t * stride /\ pos < last /\ pos < Z.of_nat (length l))
    by (intros; eapply slice_positions_spec; eauto).
  assert (Hall : forall t pos, ps !! t = Some pos -> is_Some (l !! Z.to_nat pos)).
  { intros t' pos Hp. destruct (Hps _ _ Hp) as (-> & _ & Hlt).
    apply lookup_lt_is_Some_2. lia. }
  assert (Hom : omap (fun p => l !! Z.to_nat p) ps !! t =
                ps !! t ≫= (fun p => l !! Z.to_nat p)).
  { clear Hps. revert t Hall. induction ps as [| p0 ps IH]; intros t Hall; [now destruct t |].
    cbn [omap list_omap]. destruct (Hall 0%nat p0 eq_refl) as [y Hy]. rewrite Hy.
    destruct t as [| t]; cbn; [now rewrite Hy |].
    apply IH. intros t' pos Hp. apply (Hall (S t')). exact Hp. }
  rewrite Hom. destruct (ps !! t) as [pos |] eqn:Hp; [| discriminate].
  cbn. intros Hx. destruct (Hps _ _ Hp) as (-> & Hlast & _). auto.
Qed.


Lemma py_slice_lookup {A} (a : option Z) (b : Z) (l : list A) (i : nat) (x : A) :
  0 <= b -> match a with Some a => 0 <= a | None => True end ->
  Py.slice a (Some b) l !! i = Some x ->
  exists k, l !! k = Some x /\ Z.of_nat k < b /\
            match a with Some a => a <= Z.of_nat k | None => True end.
Proof.
  intros Hb Ha. unfold Py.slice. rewrite lookup_take_Some, lookup_drop.
  intros [Hx Hi]. eexists. split; [exact Hx |].
  unfold Py.clip in *. destruct (Z.ltb_spec b 0); [lia |].
  destruct a as [a |]; [destruct (Z.ltb_spec a 0); [lia |] |]; lia.
Qed.

(** *** Concatenation of the residual arrays of a window *)

Lemma shape2_lengths (H C : nat) (r : list (list num)) :
  shape2 H C r -> map length r = replicate H C.
Proof.
  intros [<- Hr]. induction Hr as [| row r Hrow _ IH]; [reflexivity |].
  cbn. now rewrite Hrow, IH.
Qed.

Lemma np_at2_lookup (H C : nat) (r : list (list num)) (h c : nat) :
  shape2 H C r -> (h < H)%nat -> (c < C)%nat ->
  exists row, r !! h = Some row /\ length row = C /\ row !! c = Some (np_at2 r h c).
Proof.
  intros [Hl Hr] Hh Hc.
  destruct (lookup_lt_is_Some_2 r h) as [row Hrow]; [lia |].
  rewrite Forall_lookup in Hr. pose proof (Hr _ _ Hrow) as Hlen.
  destruct (lookup_lt_is_Some_2 row c) as [x Hx]; [lia |].
  exists row. repeat split; try assumption.
  unfold np_at2. rewrite Hrow. cbn. now rewrite Hx.
Qed.

Lemma np_concatenate_axis2_spec (F C : nat) (W : list (list (list num))) :
  W <> [] -> Forall (shape2 F C) W ->
  exists a,
    np_concatenate_axis2 W = Ok a /\
    shape3 F C (length W) a /\
    forall h c k, (h < F)%nat -> (c < C)%nat ->
      get3 a h c k = (fun r => np_at2 r h c) <$> W !! k.
Proof.
  intros Hne HW. destruct W as [| r0 W']; [contradiction |].
  set (W := r0 :: W') in *.
  assert (Hr0 : shape2 F C r0) by (apply Forall_cons in HW; tauto).
  assert (Hall : forallb (fun r => bool_decide (map length r = map length r0)) W = true).
  { apply forallb_forall. intros r Hr. apply bool_decide_eq_true.
    rewrite Forall_forall in HW. apply list_elem_of_In in Hr.
    now rewrite (shape2_lengths F C r (HW r Hr)), (shape2_lengths F C r0 Hr0). }
  eexists. split; [| split].
  - unfold np_concatenate_axis2. subst W. cbv iota. rewrite Hall. reflexivity.
  - destruct Hr0 as [Hl0 Hrows0]. split; [now rewrite length_imap |].
    apply Forall_lookup. intros h plane Hp.
    rewrite list_lookup_imap in Hp. apply fmap_Some in Hp as (row0 & Hrow0 & ->).
    rewrite Forall_lookup in Hrows0. split.
    + rewrite length_imap. eapply Hrows0; eauto.
    + apply Forall_lookup. intros c line Hline.
      rewrite list_lookup_imap in Hline. apply fmap_Some in Hline as (x & _ & ->).
      now rewrite length_map.
  - intros h c k Hh Hc.
    destruct (np_at2_lookup F C r0 h c Hr0 Hh Hc) as (row0 & Hrow0 & _ & Hx).
    unfold get3. rewrite list_lookup_imap, Hrow0. cbn.
    rewrite list_lookup_imap, Hx. cbn [fmap option_fmap option_map mbind option_bind].
    apply (list_lookup_fmap (fun r => np_at2 r h c) W k).
Qed.

(** *** Bounds around a forecast *)

Lemma conformal_bounds_spec (H C : nat) (pv q : list (list num)) :
  shape2 H C pv -> shape2 H C q ->
  conformal_bounds pv q = Ok (zip_with bounds_row pv q).
Proof.
  intros Hpv Hq. unfold conformal_bounds, np_zip2.
  rewrite (shape2_lengths H C pv Hpv), (shape2_lengths H C q Hq).
  rewrite bool_decide_eq_true_2 by reflexivity.
  unfold np_concatenate3_axis1. rewrite !length_zip_with.
  destruct Hpv as [Hlp _], Hq as [Hlq _]. rewrite Hlp, Hlq, Nat.min_id.
  rewrite !Nat.eqb_refl. cbn [andb]. f_equal.
  clear. revert q. induction pv as [| row pv IH]; intros [| qrow q]; try reflexivity.
  cbn. f_equal. apply IH.
Qed.

Lemma length_bounds_row (pv q : list num) :
  length pv = length q -> length (bounds_row pv q) = (3 * length pv)%nat.
Proof.
  intros Hl. unfold bounds_row. rewrite !length_app, !length_zip_with. lia.
Qed.

Lemma length_cp_component_names (s : TimeSeries) :
  length (_cp_component_names s) = (3 * ts_width s)%nat.
Proof.
  unfold _cp_component_names, ts_width.
  induction (ts_components s) as [| x l IH]; [reflexivity |].
  cbn [flat_map]. rewrite length_app, IH. cbn. lia.
Qed.


(** *** The calibration windows *)

Lemma windows_spec {A B} (p : HfcParams) (first : Z) (idx : nat)
    (res : list A) (res' : list B) :
  valid_params p -> skip_n_train p <= first ->
  first + Z.of_nat idx * stride p <= Z.of_nat (length res) ->
  length res' = length res ->
  exists g0 N : nat,
    Py.slice (cal_start_full p first idx) (Some (cal_end_full p first idx)) res =
      take N (drop g0 res) /\
    Py.slice (cal_start_lpo p first idx) (Some (cal_end_lpo p first idx)) res' =
      take (N - (Z.to_nat (forecast_horizon p) - 1)) (drop g0 res') /\
    Z.of_nat g0 + Z.of_nat N = first + Z.of_nat idx * stride p /\
    (Z.to_nat (forecast_horizon p) <= N)%nat.
Proof.
  intros (Hfh & Hst & Htl) Hskip Hj Hlen.
  unfold cal_start_full, cal_start_lpo, cal_end_full, cal_end_lpo, skip_n_train in *.
  assert (Hidx : 0 <= Z.of_nat idx * stride p) by nia.
  destruct (train_length p) as [tl |].
  - exists (Z.to_nat (first + Z.of_nat idx * stride p - tl - (forecast_horizon p - 1))),
           (Z.to_nat (tl + (forecast_horizon p - 1))).
    split; [| split; [| split]]; try lia.
    + rewrite py_slice_range by lia. f_equal. lia.
    + rewrite py_slice_range by lia. f_equal; [lia | f_equal; lia].
  - exists 0%nat, (Z.to_nat (first + Z.of_nat idx * stride p)).
    split; [| split; [| split]]; try lia.
    + rewrite py_slice_take by lia. now rewrite drop_0.
    + rewrite py_slice_take by lia. rewrite drop_0. f_equal. lia.
Qed.

(** C1. For arguments assumed valid ([valid_params]) and a first forecast
    index that passed the range computation, the forecast corrected in iteration [idx] is forecast
    number [j = first_fc_idx + idx * stride]. With [last_points_only=True]
    every residual of the window [res[cal_start:cal_end]] is the residual of
    a forecast [k] below [cal_end = j - (forecast_horizon - 1)], whose last
    point is therefore realized strictly before the first step of forecast
    [j]. With [last_points_only=False] the window holds the forecasts
    [g0 .. j - 1], and after the two masks every cell (h, c, k) whose
    realization [g0 + k + h] lies at or after [j] is NaN, so that every
    non-NaN value given to the quantile is a residual realized strictly
    before [j]. *)
Theorem calibration_windows_causal (p : HfcParams) (first : Z) (idx : nat) :
  valid_params p -> skip_n_train p <= first ->
  (cal_end_lpo p first idx =
     first + Z.of_nat idx * stride p - (forecast_horizon p - 1) /\
   forall (res : list (list num)) i x,
     cal_res_lpo p first idx res !! i = Some x ->
     exists k, res !! k = Some x /\
       Z.of_nat k < cal_end_lpo p first idx /\
       Z.of_nat k + (forecast_horizon p - 1) < first + Z.of_nat idx * stride p) /\
  (forall (res : list (list (list num))) tri (F C : nat),
     forecast_horizon p = Z.of_nat F -> (1 <= C)%nat ->
     Forall (shape2 F C) res ->
     first + Z.of_nat idx * stride p <= Z.of_nat (length res) ->
     _triul_indices (forecast_horizon p) C = Ok tri ->
     exists a a' (g0 N : nat),
       cal_res_full p first idx res = Ok a /\
       mask_cal_res p tri a = Ok a' /\
       shape3 F C N a' /\
       Z.of_nat g0 + Z.of_nat N = first + Z.of_nat idx * stride p /\
       forall h c k, (h < F)%nat -> (c < C)%nat -> (k < N)%nat ->
         get3 a h c k = (fun r => np_at2 r h c) <$> res !! (g0 + k)%nat /\
         (first + Z.of_nat idx * stride p <= Z.of_nat (g0 + k) + Z.of_nat h ->
          get3 a' h c k = Some nan) /\
         (forall x, get3 a' h c k = Some x -> isnan x = false ->
            Z.of_nat (g0 + k) + Z.of_nat h < first + Z.of_nat idx * stride p /\
            get3 a h c k = Some x)).
Proof.
  intros Hv Hskip. pose proof Hv as (Hfh & Hst & Htl). split.
  - split; [reflexivity |]. intros res i x Hx.
    assert (Hidx : 0 <= Z.of_nat idx * stride p) by nia.
    unfold cal_res_lpo in Hx. apply py_slice_lookup in Hx as (k & Hk & Hlt & _).
    + exists k. unfold cal_end_lpo in *. repeat split; [exact Hk | lia | lia].
    + unfold cal_end_lpo, skip_n_train in *. destruct (train_length p); lia.
    + unfold cal_start_lpo, cal_end_lpo, skip_n_train in *.
      destruct (train_length p); [lia | exact I].
  - intros res tri F C HF HC Hres Hj Htri.
    destruct (windows_spec p first idx res res Hv Hskip Hj eq_refl)
      as (g0 & N & HW & _ & Hsum & HN).
    rewrite HF, Nat2Z.id in HN.
    assert (HlenW : length (take N (drop g0 res)) = N).
    { rewrite length_take, length_drop. lia. }
    assert (HWne : take N (drop g0 res) <> []).
    { intros E. rewrite E in HlenW. cbn in HlenW. lia. }
    assert (HWs : Forall (shape2 F C) (take N (drop g0 res))).
    { apply Forall_take, Forall_drop, Hres. }
    destruct (np_concatenate_axis2_spec F C _ HWne HWs) as (a & Ha & Hsa & Hga).
    rewrite HlenW in Hsa.
    destruct (mask_cal_res_spec p F C N a tri HF) as (a' & Ha' & Hsa' & Hga');
      try assumption; try lia.
    exists a, a', g0, N. split; [| split; [| split; [| split]]]; try assumption.
    + unfold cal_res_full. now rewrite HW.
    + intros h c k Hh Hc Hk.
      assert (Hcell : get3 a h c k = (fun r => np_at2 r h c) <$> res !! (g0 + k)%nat).
      { rewrite Hga by assumption. now rewrite lookup_take_lt, lookup_drop by lia. }
      split; [exact Hcell |].
      rewrite Hga' by assumption. split.
      * intros Hle.
        destruct (Z.leb_spec (Z.of_nat N) (Z.of_nat h + Z.of_nat k)); [| lia].
        now rewrite orb_true_r.
      * intros x Hx Hnan.
        destruct (Z.leb_spec (Z.of_nat N) (Z.of_nat h + Z.of_nat k)).
        { rewrite orb_true_r in Hx. injection Hx as <-.
          rewrite isnan_nan in Hnan. discriminate. }
        destruct (Z.ltb_spec (Z.of_nat h + Z.of_nat k) (Z.of_nat F - 1)).
        { cbn in Hx. injection Hx as <-. rewrite isnan_nan in Hnan. discriminate. }
        cbn in Hx. split; [lia | exact Hx].
Qed.

(** *** The last horizon step of the masked window *)

Lemma filter_replicate_nan (n : nat) :
  filter (fun x => isnan x = false) (replicate n nan) = [].
Proof.
  induction n as [| n IH]; [reflexivity |].
  cbn [replicate]. rewrite filter_cons_False; [exact IH |].
  rewrite isnan_nan. discriminate.
Qed.

Lemma last_row_shape2 (F C : nat) (r : list (list num)) (c : nat) :
  shape2 F C r -> (1 <= F)%nat -> (c < C)%nat ->
  length (last_row r) = C /\ last_row r !! c = Some (np_at2 r (F - 1) c).
Proof.
  intros Hr HF Hc.
  destruct (np_at2_lookup F C r (F - 1) c Hr) as (row & Hrow & Hlen & Hx); try lia.
  unfold last_row. rewrite last_lookup.
  destruct Hr as [Hl _]. rewrite Hl.
  replace (Nat.pred F) with (F - 1)%nat by lia. rewrite Hrow. cbn. auto.
Qed.

Lemma column_of_last_rows (F C : nat) (W : list (list (list num))) (c : nat) :
  Forall (shape2 F C) W -> (1 <= F)%nat -> (c < C)%nat ->
  omap (fun row : list num => row !! c) (map last_row W) =
  map (fun r => np_at2 r (F - 1) c) W.
Proof.
  intros HW HF Hc. induction HW as [| r W Hr _ IH]; [reflexivity |].
  cbn [map omap list_omap].
  destruct (last_row_shape2 F C r c Hr HF Hc) as [_ ->]. now rewrite IH.
Qed.

Lemma masked_last_line (F C N : nat) (W : list (list (list num))) a a' (c : nat) :
  (1 <= F)%nat -> (F <= N)%nat -> (c < C)%nat -> length W = N ->
  shape3 F C N a' ->
  (forall k, (k < N)%nat -> get3 a (F - 1) c k = (fun r => np_at2 r (F - 1) c) <$> W !! k) ->
  (forall k, (k < N)%nat ->
     get3 a' (F - 1) c k =
     if (Z.of_nat (F - 1) + Z.of_nat k <? Z.of_nat F - 1)
        || (Z.of_nat N <=? Z.of_nat (F - 1) + Z.of_nat k)
     then Some nan else get3 a (F - 1) c k) ->
  exists plane line,
    a' !! (F - 1)%nat = Some plane /\ plane !! c = Some line /\
    forall q, np_nanquantile1 q line =
              np_nanquantile1 q (map (fun r => np_at2 r (F - 1) c)
                                     (take (N - (F - 1)) W)).
Proof.
  intros HF HN Hc HlenW Hs Hga Hga'.
  destruct (shape3_lookup F C N a' (F - 1) c Hs) as (plane & line & Hp & _ & Hl & Hlen);
    try lia.
  exists plane, line. split; [exact Hp |]. split; [exact Hl |].
  assert (Hline : line = map (fun r => np_at2 r (F - 1) c) (take (N - (F - 1)) W)
                         ++ replicate (F - 1) nan).
  { apply list_eq. intros k.
    destruct (Nat.lt_ge_cases k N) as [Hk | Hk].
    - specialize (Hga' k Hk). unfold get3 at 1 in Hga'. rewrite Hp, Hl in Hga'.
      rewrite Hga'.
      destruct (Z.ltb_spec (Z.of_nat (F - 1) + Z.of_nat k) (Z.of_nat F - 1)); [lia |].
      cbn [orb].
      destruct (Z.leb_spec (Z.of_nat N) (Z.of_nat (F - 1) + Z.of_nat k)).
      + rewrite lookup_app_r by (rewrite length_map, length_take; lia).
        rewrite length_map, length_take, HlenW.
        symmetry. apply lookup_replicate_2. lia.
      + rewrite lookup_app_l by (rewrite length_map, length_take; lia).
        rewrite Hga by assumption.
        rewrite list_lookup_fmap, lookup_take_lt by lia. reflexivity.
    - rewrite !lookup_ge_None_2; [reflexivity | |].
      + rewrite length_app, length_map, length_take, length_replicate. lia.
      + lia. }
  intros q. unfold np_nanquantile1. rewrite Hline, filter_app, filter_replicate_nan.
  now rewrite app_nil_r.
Qed.


Lemma last_row_zip_with (F C : nat) (f : list num -> list num -> list num)
    (x y : list (list num)) :
  shape2 F C x -> shape2 F C y -> (1 <= F)%nat ->
  last_row (zip_with f x y) = f (last_row x) (last_row y).
Proof.
  intros [Hx _] [Hy _] HF. unfold last_row. rewrite !last_lookup.
  rewrite length_zip_with, Hx, Hy, Nat.min_id.
  rewrite lookup_zip_with.
  destruct (lookup_lt_is_Some_2 x (Nat.pred F)) as [rx ->]; [lia |].
  destruct (lookup_lt_is_Some_2 y (Nat.pred F)) as [ry ->]; [lia |].
  reflexivity.
Qed.

Lemma shape2_quantiles (F C N : nat) (q : num) a :
  shape3 F C N a -> shape2 F C (np_nanquantile_axis2 q a).
Proof.
  intros [Hl Ha]. unfold np_nanquantile_axis2. split; [now rewrite length_map |].
  apply Forall_fmap. eapply Forall_impl; [exact Ha |].
  intros plane [Hp _]. cbn. now rewrite length_map.
Qed.

Lemma build_forecast_series_ok (rows : list (list num)) (cols : list string)
    (t0 f : Z) (n : nat) :
  length rows = n -> Forall (fun row => length row = length cols) rows ->
  _build_forecast_series rows cols t0 f n =
  Ok {| ts_start := t0; ts_freq := f; ts_components := cols; ts_values := rows |}.
Proof.
  intros Hn Hrows. unfold _build_forecast_series.
  rewrite Hn, Nat.eqb_refl. cbn [andb].
  replace (forallb _ rows) with true; [reflexivity |].
  symmetry. apply forallb_forall. intros row Hrow. apply Nat.eqb_eq.
  rewrite Forall_forall in Hrows. apply Hrows. now apply list_elem_of_In.
Qed.

Lemma bounds_rows_width (F C : nat) (x y : list (list num)) :
  shape2 F C x -> shape2 F C y ->
  Forall (fun row => length row = (3 * C)%nat) (zip_with bounds_row x y).
Proof.
  intros [_ Hx] [_ Hy]. apply Forall_lookup. intros i row Hrow.
  apply lookup_zip_with_Some in Hrow as (rx & ry & -> & Hrx & Hry).
  rewrite Forall_lookup in Hx, Hy.
  rewrite length_bounds_row; rewrite (Hx _ _ Hrx); [reflexivity |].
  now rewrite (Hy _ _ Hry).
Qed.

(** One iteration of the two loops on the same forecast: the row computed
    with [last_points_only=True] is the last row of the forecast computed
    with [last_points_only=False]. *)
Lemma cp_pred_agree (cm : ConformalModel) (p : HfcParams) tri (s : TimeSeries)
    (first : Z) (idx : nat) (pred : TimeSeries) (res_full : list (list (list num)))
    (F C : nat) :
  valid_params p -> forecast_horizon p = Z.of_nat F -> C = ts_width s -> (1 <= C)%nat ->
  skip_n_train p <= first ->
  first + Z.of_nat idx * stride p <= Z.of_nat (length res_full) ->
  Forall (shape2 F C) res_full ->
  shape2 F C (ts_values pred) ->
  _triul_indices (forecast_horizon p) C = Ok tri ->
  res_agree
    (fun (o : TimeSeries) (rows : list (list num)) =>
       rows = [last_row (ts_values o)] /\
       ts_start o = ts_start pred /\ ts_freq o = ts_freq pred /\
       ts_len o = F /\ length (last_row (ts_values o)) = (3 * C)%nat)
    (cp_pred_full cm p tri s first res_full idx pred)
    (cp_pred_lpo cm p first (map last_row res_full) idx (last_row (ts_values pred))).
Proof.
  intros Hv HF HC HC1 Hskip Hj Hres Hpv Htri.
  pose proof Hv as (Hfh & Hst & Htl).
  assert (HF1 : (1 <= F)%nat) by lia.
  assert (Hz : (first =? 0) = false).
  { apply Z.eqb_neq. unfold skip_n_train in Hskip. destruct (train_length p); lia. }
  unfold cp_pred_full, cp_pred_lpo. rewrite Hz. cbn [andb].
  destruct (windows_spec p first idx res_full (map last_row res_full) Hv Hskip Hj)
    as (g0 & N & HW & HW' & Hsum & HN); [apply length_map |].
  rewrite HF, Nat2Z.id in HN, HW'.
  unfold cal_res_full, cal_res_lpo. rewrite HW, HW'.
  set (W := take N (drop g0 res_full)).
  assert (HlenW : length W = N).
  { subst W. rewrite length_take, length_drop. lia. }
  assert (HWne : W <> []).
  { intros E. rewrite E in HlenW. cbn in HlenW. lia. }
  assert (HWs : Forall (shape2 F C) W).
  { apply Forall_take, Forall_drop, Hres. }
  destruct (np_concatenate_axis2_spec F C W HWne HWs) as (a & Ha & Hsa & Hga).
  rewrite HlenW in Hsa. rewrite Ha. cbn [bindR].
  destruct (mask_cal_res_spec p F C N a tri HF) as (a' & Ha' & Hsa' & Hga');
    try assumption; try lia.
  rewrite Ha'. cbn [bindR].
  destruct (alpha cm) as [q | qlo qhi]; cbn [alpha_level bindR]; [| exact I].
  (* the corrected forecast *)
  pose proof (shape2_quantiles F C N q a' Hsa') as Hq2.
  rewrite (conformal_bounds_spec F C _ _ Hpv Hq2). cbn [bindR].
  rewrite build_forecast_series_ok.
  2:{ unfold ts_len. rewrite length_zip_with.
      destruct Hpv as [-> _], Hq2 as [-> _]. lia. }
  2:{ rewrite length_cp_component_names, <- HC. now apply (bounds_rows_width F C). }
  (* the quantiles of the last points *)
  rewrite <- fmap_drop, <- fmap_take.
  set (W2 := take (N - (F - 1)) (drop g0 res_full)).
  assert (HW2 : W2 = take (N - (F - 1)) W).
  { subst W W2. rewrite take_take. f_equal. lia. }
  assert (HW2s : Forall (shape2 F C) W2) by (apply Forall_take, Forall_drop, Hres).
  assert (HW2len : (1 <= length W2)%nat).
  { rewrite HW2, length_take, HlenW. lia. }
  assert (Hwidth : np_width (last_row <$> W2) = C).
  { destruct W2 as [| r W2']; [cbn in HW2len; lia |].
    apply Forall_cons in HW2s as [Hr _]. unfold np_width. cbn.
    destruct (last_row_shape2 F C r 0%nat Hr) as [Hl _]; [lia | lia | exact Hl]. }
  assert (Hqlpo : np_nanquantile_axis0 q (last_row <$> W2) =
                  last_row (np_nanquantile_axis2 q a')).
  { unfold np_nanquantile_axis0. rewrite Hwidth.
    destruct (shape3_lookup F C N a' (F - 1) 0%nat Hsa') as (plane & _ & Hplane & HplC & _);
      try lia.
    assert (Hlast : last_row (np_nanquantile_axis2 q a') = map (np_nanquantile1 q) plane).
    { unfold last_row, np_nanquantile_axis2. rewrite last_lookup, length_map.
      destruct Hsa' as [-> _]. replace (Nat.pred F) with (F - 1)%nat by lia.
      change (map (map (np_nanquantile1 q)) a')
        with (fmap (M:=list) (map (np_nanquantile1 q)) a').
      now rewrite list_lookup_fmap, Hplane. }
    rewrite Hlast. apply list_eq. intros c.
    destruct (Nat.lt_ge_cases c C) as [Hc | Hc].
    - destruct (masked_last_line F C N W a a' c HF1 HN Hc HlenW Hsa')
        as (plane' & line & Hp' & Hline & Hnq).
      + intros k Hk. apply Hga; lia.
      + intros k Hk. apply Hga'; lia.
      + rewrite Hplane in Hp'. injection Hp' as <-.
        change (map ?f ?l !! c) with (fmap (M:=list) f l !! c).
        rewrite !list_lookup_fmap, Hline, lookup_seq_lt by lia. cbn.
        f_equal. rewrite Hnq, <- HW2.
        pose proof (column_of_last_rows F C W2 c HW2s HF1 Hc) as Hcol.
        change (map last_row W2) with (last_row <$> W2) in Hcol.
        now rewrite Hcol.
    - rewrite !lookup_ge_None_2; [reflexivity | |].
      + rewrite length_map. lia.
      + rewrite length_map, length_seq. lia. }
  rewrite Hqlpo.
  assert (Hpl : shape2 1 C [last_row (ts_values pred)]).
  { split; [reflexivity |]. repeat constructor.
    destruct (last_row_shape2 F C _ 0%nat Hpv) as [Hl _]; [lia | lia | exact Hl]. }
  assert (Hql : shape2 1 C [last_row (np_nanquantile_axis2 q a')]).
  { split; [reflexivity |]. repeat constructor.
    destruct (last_row_shape2 F C _ 0%nat Hq2) as [Hl _]; [lia | lia | exact Hl]. }
  rewrite (conformal_bounds_spec 1 C _ _ Hpl Hql).
  cbn [res_agree zip_with ts_values ts_start ts_freq ts_len].
  rewrite (last_row_zip_with F C bounds_row _ _ Hpv Hq2 HF1).
  split; [reflexivity |]. split; [reflexivity |]. split; [reflexivity |]. split.
  - unfold ts_len. cbn [ts_values]. rewrite length_zip_with.
    destruct Hpv as [-> _], Hq2 as [-> _]. lia.
  - destruct Hpl as [_ Hpl], Hql as [_ Hql].
    apply Forall_cons in Hpl as [Hpl _]. apply Forall_cons in Hql as [Hql _].
    rewrite length_bounds_row; rewrite Hpl; [reflexivity | now rewrite Hql].
Qed.


(** *** The two loops *)

Lemma mapR_imap_agree {A B X Y} (R : nat -> X -> Y -> Prop)
    (f : nat -> A -> result X) (g : nat -> B -> result Y) (la : list A) :
  forall (u : nat -> nat) (lb : list B),
  length la = length lb ->
  (forall i a b, la !! i = Some a -> lb !! i = Some b ->
     res_agree (R (u i)) (f (u i) a) (g (u i) b)) ->
  res_agree
    (fun xs ys =>
       length xs = length la /\ length ys = length la /\
       forall i x y, xs !! i = Some x -> ys !! i = Some y -> R (u i) x y)
    (mapR (fun '(i, a) => f i a) (imap (fun i x => (u i, x)) la))
    (mapR (fun '(i, b) => g i b) (imap (fun i x => (u i, x)) lb)).
Proof.
  induction la as [| a la IH]; intros u [| b lb] Hlen Hab; try discriminate.
  - cbn. repeat split; try reflexivity. intros i x y Hx. discriminate.
  - rewrite !imap_cons. cbn [mapR].
    pose proof (Hab 0%nat a b eq_refl eq_refl) as H0.
    destruct (f (u 0%nat) a) as [x0 | e], (g (u 0%nat) b) as [y0 | e'];
      cbn in H0; try contradiction; [| exact I].
    specialize (IH (u ∘ S) lb).
    assert (Hlen' : length la = length lb) by (cbn in Hlen; lia).
    specialize (IH Hlen' (fun i a' b' Ha' Hb' => Hab (S i) a' b' Ha' Hb')).
    change (imap ((fun i x => (u i, x)) ∘ S) la)
      with (imap (fun i (x : A) => ((u ∘ S) i, x)) la).
    change (imap ((fun i x => (u i, x)) ∘ S) lb)
      with (imap (fun i (x : B) => ((u ∘ S) i, x)) lb).
    destruct (mapR _ (imap _ la)) as [xs | e], (mapR _ (imap _ lb)) as [ys | e'];
      cbn in IH; try contradiction; [| exact I].
    destruct IH as (Hxs & Hys & Hrel). cbn. repeat split; try lia.
    intros [| i] x y Hx Hy; cbn in Hx, Hy.
    + injection Hx as <-. injection Hy as <-. exact H0.
    + apply (Hrel i); assumption.
Qed.

Lemma mapR_enumerate_agree {A B X Y} (R : nat -> X -> Y -> Prop)
    (f : nat -> A -> result X) (g : nat -> B -> result Y)
    (la : list A) (lb : list B) :
  length la = length lb ->
  (forall i a b, la !! i = Some a -> lb !! i = Some b ->
     res_agree (R i) (f i a) (g i b)) ->
  res_agree
    (fun xs ys =>
       length xs = length la /\ length ys = length la /\
       forall i x y, xs !! i = Some x -> ys !! i = Some y -> R i x y)
    (mapR (fun '(i, a) => f i a) (enumerate la))
    (mapR (fun '(i, b) => g i b) (enumerate lb)).
Proof.
  intros Hlen Hab. exact (mapR_imap_agree R f g la (fun i => i) lb Hlen Hab).
Qed.

Lemma slice_step_length {A} (first last stride : Z) (l xs : list A) :
  0 <= first -> 0 <= last -> 0 < stride ->
  Py.slice_step first last stride l = Ok xs ->
  length xs = length (Py.slice_positions (length l) first last stride).
Proof.
  intros Hf Hla Hs. unfold Py.slice_step.
  destruct (Z.eqb_spec stride 0); [lia |]. intros [= <-].
  set (ps := Py.slice_positions (length l) first last stride).
  assert (Hall : forall t pos, ps !! t = Some pos -> is_Some (l !! Z.to_nat pos)).
  { intros t pos Hp.
    destruct (slice_positions_spec _ _ _ _ _ _ Hf Hla Hs Hp) as (-> & _ & Hlt).
    apply lookup_lt_is_Some_2. lia. }
  clearbody ps. induction ps as [| p0 ps IH]; [reflexivity |].
  cbn [omap list_omap]. destruct (Hall 0%nat p0 eq_refl) as [y Hy]. rewrite Hy.
  cbn. f_equal. apply IH. intros t pos Hp. apply (Hall (S t)). exact Hp.
Qed.

Lemma slice_step_ok {A} (first last stride : Z) (l : list A) :
  stride <> 0 -> exists xs, Py.slice_step first last stride l = Ok xs.
Proof.
  intros Hs. unfold Py.slice_step. destruct (Z.eqb_spec stride 0); [lia |]. eauto.
Qed.

Lemma concat_singletons {A} (rowss : list (list A)) (rows : list A) :
  length rowss = length rows ->
  (forall i x y, rows !! i = Some x -> rowss !! i = Some y -> y = [x]) ->
  concat rowss = rows.
Proof.
  revert rows. induction rowss as [| y rowss IH]; intros [| x rows] Hlen Hr;
    try discriminate; [reflexivity |].
  cbn [concat]. rewrite (Hr 0%nat x y eq_refl eq_refl). cbn. f_equal.
  apply IH; [cbn in Hlen; lia |].
  intros i x' y' Hx Hy. apply (Hr (S i)); assumption.
Qed.


Lemma res_agree_impl {X Y} (R R' : X -> Y -> Prop) (r1 : result X) (r2 : result Y) :
  res_agree R r1 r2 -> (forall x y, R x y -> R' x y) -> res_agree R' r1 r2.
Proof. destruct r1, r2; cbn; auto. Qed.

Lemma norm_index_lt (n : nat) (i : Z) (k : nat) :
  Py.norm_index n i = Some k -> (k < n)%nat.
Proof.
  unfold Py.norm_index.
  destruct (Z.leb_spec 0 i).
  - destruct (Z.ltb_spec i (Z.of_nat n)); [| discriminate]. intros [= <-]. lia.
  - destruct (Z.leb_spec (- Z.of_nat n) i); [| discriminate]. intros [= <-]. lia.
Qed.

Lemma conformal_loop_agree (cm : ConformalModel) (p : HfcParams) tri (s : TimeSeries)
    (first last : Z) full res_full lpo res_lpo :
  valid_params p -> layouts_agree p s full res_full lpo res_lpo ->
  _triul_indices (forecast_horizon p) (ts_width s) = Ok tri ->
  skip_n_train p <= first -> first < last -> last <= Z.of_nat (length full) ->
  res_agree
    (fun o_full o_lpo => exists l o,
       o_full = CpList l /\ o_lpo = CpSeries o /\ l <> [] /\
       ts_entries o = map last_entry l /\
       ts_components o = _cp_component_names s)
    (conformal_loop (lpo:=false) cm p tri s first last full res_full)
    (conformal_loop (lpo:=true) cm p tri s first last lpo res_lpo).
Proof.
  intros Hv [Hf HC Hfull Hres Hrlen Hlf Hlv Hrl Hend] Htri Hskip Hfl Hlast.
  pose proof Hv as (Hfh & Hst & Htl).
  set (F := Z.to_nat (forecast_horizon p)) in *.
  assert (HF : forecast_horizon p = Z.of_nat F) by (subst F; lia).
  assert (Hfirst : 1 <= first).
  { unfold skip_n_train in Hskip. destruct (train_length p); lia. }
  unfold conformal_loop. rewrite Hlv.
  change (map (fun fc => last_row (ts_values fc)) full)
    with ((fun fc => last_row (ts_values fc)) <$> full).
  rewrite slice_step_fmap.
  destruct (slice_step_ok first last (stride p) full) as [preds Hsl]; [lia |].
  rewrite Hsl. cbn [bindR].
  pose (R := fun (idx : nat) (o : TimeSeries) (rows : list (list num)) =>
               rows = [last_row (ts_values o)] /\
               end_time o = ts_start lpo + (first + Z.of_nat idx * stride p) * ts_freq s /\
               length (last_row (ts_values o)) = (3 * ts_width s)%nat).
  pose proof (mapR_enumerate_agree R
                (fun idx pred => cp_pred_full cm p tri s first res_full idx pred)
                (fun idx pv => cp_pred_lpo cm p first res_lpo idx pv)
                preds ((fun fc => last_row (ts_values fc)) <$> preds)) as Hmap.
  rewrite length_fmap in Hmap. specialize (Hmap eq_refl).
  assert (Hlen_preds : (1 <= length preds)%nat).
  { rewrite (slice_step_length first last (stride p) full preds) by (assumption || lia).
    apply slice_positions_length; lia. }
  match type of Hmap with ?P -> _ => assert (Hprem : P) end.
  { intros i pred pv Hpred Hpv.
    rewrite list_lookup_fmap, Hpred in Hpv. injection Hpv as <-.
    destruct (slice_step_lookup first last (stride p) full preds i pred)
      as [Hfc Hjl]; try assumption; try lia.
    destruct (Hfull _ _ Hfc) as (Hfreq & Hendt & Hshape).
    assert (Hidx : 0 <= Z.of_nat i * stride p) by nia.
    rewrite Z2Nat.id in Hendt by lia.
    eapply res_agree_impl.
    - rewrite Hrl. apply (cp_pred_agree cm p tri s first i pred res_full F (ts_width s));
        try assumption; try reflexivity. lia.
    - intros o rows (Hrows & Hs0 & Hf0 & Hl0 & Hw0). unfold R. repeat split; try assumption.
      unfold end_time in *. destruct Hshape as [Hlp _]. unfold ts_len in *.
      rewrite Hs0, Hf0, Hl0. rewrite Hlp in Hendt. exact Hendt. }
  specialize (Hmap Hprem). clear Hprem.
  destruct (mapR _ (enumerate preds)) as [outs | e],
           (mapR _ (enumerate (_ <$> preds))) as [rowss | e'];
    cbn [res_agree] in Hmap; try contradiction; [| exact I].
  destruct Hmap as (Houts & Hrowss & Hrel). cbn [bindR].
  assert (Hconcat : concat rowss = map (fun o => last_row (ts_values o)) outs).
  { apply concat_singletons; [rewrite length_map; lia |].
    intros i x y Hx Hy.
    change (map ?f ?l !! i) with (fmap (M:=list) f l !! i) in Hx.
    rewrite list_lookup_fmap in Hx. apply fmap_Some in Hx as (o & Ho & ->).
    destruct (Hrel i o y Ho Hy) as (-> & _). reflexivity. }
  unfold np_concatenate_axis0.
  destruct rowss as [| rows0 rowss']; [cbn in Hrowss; lia |].
  set (rowss := rows0 :: rowss') in *. cbn [bindR].
  assert (Hti : time_index_at lpo first =
                Ok (ts_start lpo + first * ts_freq lpo)).
  { unfold time_index_at, ts_len. rewrite Hlv, length_map.
    replace first with (Z.of_nat (Z.to_nat first)) at 1 by lia.
    rewrite norm_index_nat by lia. now rewrite Z2Nat.id by lia. }
  rewrite Hti. cbn [bindR].
  rewrite build_forecast_series_ok.
  2:{ rewrite Hconcat, length_map. lia. }
  2:{ rewrite Hconcat, length_cp_component_names. apply Forall_forall.
      intros row Hrow. apply list_elem_of_In, in_map_iff in Hrow as (o & <- & Ho).
      apply list_elem_of_In, list_elem_of_lookup in Ho as [i Ho].
      destruct (lookup_lt_is_Some_2 rowss i) as [y Hy]; [apply lookup_lt_Some in Ho; lia |].
      now destruct (Hrel i o y Ho Hy) as (_ & _ & ?). }
  cbn [bindR res_agree]. eexists outs, _. split; [reflexivity |]. split; [reflexivity |].
  split; [| split; [| reflexivity]].
  - intros E. rewrite E in Houts. cbn in Houts. lia.
  - unfold ts_entries, ts_times, ts_len. cbn [ts_values ts_start ts_freq].
    rewrite Hconcat, length_map. apply list_eq. intros i.
    rewrite lookup_zip_with.
    change (map ?f ?l !! i) with (fmap (M:=list) f l !! i).
    rewrite !list_lookup_fmap.
    destruct (outs !! i) as [o |] eqn:Ho.
    + rewrite lookup_seq_lt by (apply lookup_lt_Some in Ho; lia). cbn.
      destruct (lookup_lt_is_Some_2 rowss i) as [y Hy]; [apply lookup_lt_Some in Ho; lia |].
      destruct (Hrel i o y Ho Hy) as (_ & Het & _).
      unfold last_entry. rewrite Het, Hlf. do 2 f_equal. ring.
    + rewrite lookup_seq_ge by (apply lookup_ge_None in Ho; lia). reflexivity.
Qed.


(** *** The range of forecasts in the two layouts *)

Section Layouts.
Variables (p : HfcParams) (s : TimeSeries) (full : list TimeSeries)
  (res_full : list (list (list num))) (lpo : TimeSeries) (res_lpo : list (list num)).
Hypothesis Hv : valid_params p.
Hypothesis Hla : layouts_agree p s full res_full lpo res_lpo.
Hypothesis Hne : full <> [].

Lemma lpo_len : ts_len lpo = length full.
Proof. unfold ts_len. rewrite (la_lpo_values _ _ _ _ _ _ Hla). apply length_map. Qed.

Lemma full_start (k : nat) (fc : TimeSeries) :
  full !! k = Some fc ->
  ts_start fc =
  ts_start lpo + Z.of_nat k * ts_freq s - (forecast_horizon p - 1) * ts_freq s.
Proof.
  intros Hfc. destruct (la_full _ _ _ _ _ _ Hla _ _ Hfc) as (Hfreq & Hend & [Hlen _]).
  destruct Hv as (Hfh & _). unfold end_time, ts_len in Hend.
  rewrite Hlen, Hfreq in Hend. rewrite Z2Nat.id in Hend by lia. lia.
Qed.

Lemma last_hfc_end_agree :
  last_hfc_end (lpo:=false) full = Ok (end_time lpo) /\
  last_hfc_end (lpo:=true) lpo = Ok (end_time lpo).
Proof.
  split; [| reflexivity]. unfold last_hfc_end, Py.index.
  assert (Hlen : (1 <= length full)%nat) by (destruct full; [contradiction | cbn; lia]).
  replace (Py.norm_index (length full) (-1)) with (Some (length full - 1)%nat).
  2:{ unfold Py.norm_index. cbn.
      destruct (Z.leb_spec (- Z.of_nat (length full)) (-1)); [| lia]. f_equal. lia. }
  destruct (lookup_lt_is_Some_2 full (length full - 1)) as [fc Hfc]; [lia |].
  rewrite Hfc. cbn [bindR]. f_equal.
  destruct (la_full _ _ _ _ _ _ Hla _ _ Hfc) as (_ & Hend & _).
  rewrite Hend. unfold end_time. rewrite lpo_len, (la_lpo_freq _ _ _ _ _ _ Hla).
  do 2 f_equal. lia.
Qed.

Lemma last_fc_idx_agree :
  last_fc_idx p s (lpo:=true) lpo = last_fc_idx p s (lpo:=false) full /\
  forall last, last_fc_idx p s (lpo:=false) full = Ok last ->
               last <= Z.of_nat (length full).
Proof.
  destruct last_hfc_end_agree as [Hfull Hlpo].
  unfold last_fc_idx. rewrite Hfull, Hlpo. cbn [bindR hfcs_len].
  rewrite lpo_len. split; [reflexivity |].
  intros last. destruct (overlap_end p); cbn [negb].
  - intros [= <-]. lia.
  - destruct (Z.of_nat (length full) =? 0); cbn [negb]; intros [= <-]; [lia |].
    unfold n_steps_between.
    pose proof (la_end _ _ _ _ _ _ Hla). pose proof (la_freq _ _ _ _ _ _ Hla).
    assert (0 <= (end_time lpo - end_time s) / ts_freq s) by (apply Z.div_pos; lia).
    lia.
Qed.

Lemma skip_of_start_time_agree (t : Z) :
  skip_of_start_time p s (lpo:=true) lpo t = skip_of_start_time p s (lpo:=false) full t.
Proof.
  assert (Hlen : (1 <= length full)%nat) by (destruct full; [contradiction | cbn; lia]).
  unfold skip_of_start_time, first_hfc_start, Py.index.
  replace (Py.norm_index (length full) 0) with (Some 0%nat)
    by (symmetry; apply (norm_index_nat (length full) 0); lia).
  destruct (lookup_lt_is_Some_2 full 0%nat) as [fc0 Hfc0]; [lia |].
  rewrite Hfc0. cbn [bindR]. f_equal.
  pose proof (full_start 0 fc0 Hfc0) as Hs0.
  unfold start_time, n_steps_between. rewrite Hs0.
  pose proof (la_freq _ _ _ _ _ _ Hla).
  replace (t - (ts_start lpo + Z.of_nat 0 * ts_freq s
                - (forecast_horizon p - 1) * ts_freq s))
    with (t - ts_start lpo + (forecast_horizon p - 1) * ts_freq s) by lia.
  rewrite Z.div_add by lia. reflexivity.
Qed.

Lemma hfc_start_at_agree (i : Z) :
  res_agree (fun a b => a - 1 * (forecast_horizon p - 1) * ts_freq s
                        = b - 0 * (forecast_horizon p - 1) * ts_freq s)
    (hfc_start_at (lpo:=true) lpo i) (hfc_start_at (lpo:=false) full i).
Proof.
  unfold hfc_start_at, time_index_at, Py.index. rewrite lpo_len.
  destruct (Py.norm_index (length full) i) as [k |] eqn:Hk; [| exact I].
  apply norm_index_lt in Hk.
  destruct (lookup_lt_is_Some_2 full k Hk) as [fc Hfc]. rewrite Hfc.
  cbn [bindR res_agree]. unfold start_time. rewrite (full_start k fc Hfc).
  rewrite (la_lpo_freq _ _ _ _ _ _ Hla). lia.
Qed.

Lemma skip_n_start_agree (i : nat) (last : Z) :
  skip_n_start p i s (lpo:=true) lpo last = skip_n_start p i s (lpo:=false) full last
  \/ (trace (skip_n_start p i s (lpo:=true) lpo last) = [] /\
      trace (skip_n_start p i s (lpo:=false) full last) = [] /\
      res_agree (fun _ _ => False)
        (outcome (skip_n_start p i s (lpo:=true) lpo last))
        (outcome (skip_n_start p i s (lpo:=false) full last))).
Proof.
  unfold skip_n_start. destruct (start p) as [st |]; [| now left].
  rewrite !bind_lift. destruct (start_time_of p s st) as [t | e]; [| now left].
  rewrite !bind_lift, skip_of_start_time_agree.
  destruct (skip_of_start_time p s (lpo:=false) full t) as [k | e]; [| now left].
  destruct (out_of_bounds p k last); [| now left].
  unfold start_warning. destruct (show_warnings p); [| now left].
  rewrite !bind_lift.
  pose proof (hfc_start_at_agree (skip_n_train p)) as Hlo.
  destruct (hfc_start_at (lpo:=true) lpo (skip_n_train p)) as [lo1 | e1],
           (hfc_start_at (lpo:=false) full (skip_n_train p)) as [lo2 | e2];
    cbn [res_agree] in Hlo; try contradiction.
  2:{ right. cbn. auto. }
  rewrite !bind_lift.
  pose proof (hfc_start_at_agree last) as Hhi.
  destruct (hfc_start_at (lpo:=true) lpo last) as [hi1 | e1],
           (hfc_start_at (lpo:=false) full last) as [hi2 | e2];
    cbn [res_agree] in Hhi; try contradiction.
  2:{ right. cbn. auto. }
  left. now rewrite Hlo, Hhi.
Qed.

Lemma forecast_range_agree (i : nat) :
  trace (forecast_range p i s (lpo:=true) lpo) =
    trace (forecast_range p i s (lpo:=false) full) /\
  res_agree eq (outcome (forecast_range p i s (lpo:=true) lpo))
               (outcome (forecast_range p i s (lpo:=false) full)).
Proof.
  unfold forecast_range. destruct last_fc_idx_agree as [-> _].
  rewrite !bind_lift.
  destruct (last_fc_idx p s (lpo:=false) full) as [last | e]; [| cbn; auto].
  destruct (skip_n_start_agree i last) as [-> | (Ht1 & Ht2 & Ho)].
  - split; [reflexivity |].
    destruct (outcome (bind _ _)); cbn; auto.
  - rewrite !trace_bind, !outcome_bind, Ht1, Ht2.
    destruct (outcome (skip_n_start p i s (lpo:=true) lpo last)),
             (outcome (skip_n_start p i s (lpo:=false) full last));
      cbn [res_agree] in Ho; try contradiction.
    cbn. auto.
Qed.

End Layouts.


(** The body of the loop over the series in the two layouts. *)
Lemma series_layouts_agree (cm : ConformalModel) (p : HfcParams) tri (i : nat)
    (s : TimeSeries) full res_full lpo res_lpo :
  valid_params p -> layouts_agree p s full res_full lpo res_lpo ->
  _triul_indices (forecast_horizon p) (ts_width s) = Ok tri ->
  trace (historical_forecasts_series cm p tri i s (lpo:=true) lpo res_lpo) =
    trace (historical_forecasts_series cm p tri i s (lpo:=false) full res_full) /\
  res_agree (last_points_of s)
    (outcome (historical_forecasts_series cm p tri i s (lpo:=true) lpo res_lpo))
    (outcome (historical_forecasts_series cm p tri i s (lpo:=false) full res_full)).
Proof.
  intros Hv Hla Htri. unfold historical_forecasts_series. cbn [hfcs_len].
  rewrite (lpo_len p s full res_full lpo res_lpo Hla).
  destruct (Nat.eqb_spec (length full) 0) as [Hz | Hnz]; cbn [orb].
  { split; [reflexivity |]. cbn. left. auto. }
  destruct (match train_length p with
            | Some tl => Z.of_nat (length full) <? tl
            | None => false
            end).
  { split; [reflexivity |]. cbn. left. auto. }
  assert (Hne : full <> []) by (intros E; apply Hnz; now rewrite E).
  destruct (forecast_range_agree p s full res_full lpo res_lpo Hv Hla Hne i) as [Ht Ho].
  rewrite !trace_bind, !outcome_bind, Ht.
  destruct (outcome (forecast_range p i s (lpo:=true) lpo)) as [[f1 l1] | e1],
           (outcome (forecast_range p i s (lpo:=false) full)) as [[first last] | e2] eqn:Hr;
    cbn [res_agree] in Ho; try contradiction; [| split; [reflexivity | exact I]].
  injection Ho as -> ->. split; [reflexivity |].
  apply forecast_range_bounds in Hr as (Hskip & Hfl & Hlast).
  destruct (last_fc_idx_agree p s full res_full lpo res_lpo Hla Hne) as [_ Hle].
  specialize (Hle last Hlast).
  cbn [lift outcome snd fst].
  pose proof (conformal_loop_agree cm p tri s first last full res_full lpo res_lpo
                Hv Hla Htri Hskip Hfl Hle) as Hloop.
  destruct (conformal_loop (lpo:=false) cm p tri s first last full res_full),
           (conformal_loop (lpo:=true) cm p tri s first last lpo res_lpo);
    cbn [res_agree] in *; try contradiction; [| exact I].
  right. exact Hloop.
Qed.

Lemma historical_forecasts_series_with_lpo (cm : ConformalModel) (p : HfcParams) (b : bool)
    tri (i : nat) (s : TimeSeries) {lpo} (h : hfcs_t lpo) (r : res_t lpo) :
  historical_forecasts_series cm (with_last_points_only p b) tri i s h r =
  historical_forecasts_series cm p tri i s h r.
Proof. destruct p, lpo; reflexivity. Qed.

Lemma triul_indices_ok (fh : Z) (n : nat) :
  0 <= fh -> exists tri, _triul_indices fh n = Ok tri.
Proof.
  intros Hfh. unfold _triul_indices. destruct (Z.ltb_spec fh 0); [lia |].
  unfold np_tril_indices. eauto.
Qed.


End Properties.

(** ** Columns and values *)

Section Columns.
Context `{FL : Float}.

(** The name of the median of component [i] is at position [3 * i + 1]. *)
Lemma cp_component_names_median (s : TimeSeries) (i : nat) :
  _cp_component_names s !! (3 * i + 1)%nat =
  (fun tgt_name => (tgt_name ++ "_q_md")%string) <$> ts_components s !! i.
Proof.
  unfold _cp_component_names. revert i.
  induction (ts_components s) as [| c l IH]; intros i; [reflexivity |].
  cbn [flat_map map app]. destruct i as [| i]; [reflexivity |].
  replace (3 * S i + 1)%nat with (S (S (S (3 * i + 1)))) by lia. cbn. apply IH.
Qed.

(** The raw forecast of component [i] is at position [c + i] of a row of [c]
    components. *)
Lemma bounds_row_median (pred_vals q_hat : list num) (i : nat) :
  length q_hat = length pred_vals -> (i < length pred_vals)%nat ->
  bounds_row pred_vals q_hat !! (length pred_vals + i)%nat = pred_vals !! i.
Proof.
  intros Hl Hi. unfold bounds_row.
  rewrite lookup_app_l by (rewrite !length_app, length_zip_with; lia).
  rewrite lookup_app_r by (rewrite length_zip_with; lia).
  rewrite length_zip_with. f_equal. lia.
Qed.

End Columns.

(** * Further properties of the code *)

Section Further.
Context `{FL : Float}.

(** ** The indices of the masks *)

Lemma length_tril_positions (n : nat) :
  2 * Z.of_nat (length (tril_positions n)) = Z.of_nat n * (Z.of_nat n - 1).
Proof.
  unfold tril_positions. induction n as [| n IH]; [reflexivity |].
  rewrite seq_S, flat_map_app, length_app. cbn [flat_map Nat.add].
  rewrite app_nil_r, length_map, length_seq. lia.
Qed.

Lemma length_np_repeat {A} (k : nat) (l : list A) :
  length (np_repeat k l) = (k * length l)%nat.
Proof.
  unfold np_repeat. induction l as [| x l IH]; [cbn; lia |].
  cbn [flat_map]. rewrite length_app, length_replicate, IH. cbn [length]. lia.
Qed.

(** X1. [_triul_indices(forecast_horizon, n_comps)] returns three index
    sequences of one length, [n_comps * forecast_horizon *
    (forecast_horizon - 1) / 2], and the cells (h, c, k) they address are
    exactly those of the upper left triangle: every component c, and every
    horizon step h and forecast k (both from 0) with
    [h + k < forecast_horizon - 1]. *)
Theorem triul_indices_cells (fh : Z) (nc : nat) :
  0 <= fh ->
  exists ih ic ik,
    _triul_indices fh nc = Ok (ih, ic, ik) /\
    length ih = length ic /\ length ic = length ik /\
    2 * Z.of_nat (length ih) = Z.of_nat nc * (fh * (fh - 1)) /\
    forall h c k,
      In (h, c, k) (zip3 ih ic ik) <->
      0 <= c < Z.of_nat nc /\ 0 <= h /\ 0 <= k /\ h + k < fh - 1.
Proof.
  intros Hfh. destruct (triul_indices_ok fh nc Hfh) as [[[ih ic] ik] Htri].
  exists ih, ic, ik. split; [exact Htri |].
  destruct (triul_indices_zip fh nc ih ic ik Htri) as (Hzip & Hl1 & Hl2).
  split; [exact Hl1 |]. split; [exact Hl2 |]. split.
  - unfold _triul_indices in Htri. destruct (fh <? 0); [discriminate |].
    unfold np_tril_indices in Htri. injection Htri as <- _ _.
    rewrite length_np_repeat, !length_map.
    pose proof (length_tril_positions (Z.to_nat fh)) as Hlen.
    rewrite Z2Nat.id in Hlen by lia. nia.
  - intros h c k. unfold zip3. rewrite Hzip. apply in_upper_left.
Qed.

(** ** The names of the output columns *)

Lemma string_append_cons (ch : Ascii.ascii) (a s : string) :
  (String ch a ++ s)%string = String ch (a ++ s)%string.
Proof. reflexivity. Qed.

Lemma string_length_append (a s : string) :
  String.length (a ++ s)%string = (String.length a + String.length s)%nat.
Proof.
  induction a as [| ch a IH]; [reflexivity |].
  rewrite string_append_cons. cbn [String.length]. now rewrite IH.
Qed.

Lemma string_app_inj (a b s t : string) :
  String.length s = String.length t ->
  (a ++ s)%string = (b ++ t)%string -> a = b /\ s = t.
Proof.
  intros Hlen. revert b. induction a as [| ch a IH]; intros [| ch' b] H.
  - auto.
  - change (s = (String ch' b ++ t)%string) in H. rewrite H in Hlen.
    rewrite string_length_append in Hlen. cbn in Hlen. lia.
  - change ((String ch a ++ s)%string = t) in H. rewrite <- H in Hlen.
    rewrite string_length_append in Hlen. cbn in Hlen. lia.
  - rewrite !string_append_cons in H. injection H as -> H.
    destruct (IH b H) as [-> ->]. auto.
Qed.

Lemma cp_component_names_elem (comps : list string) (x : string) :
  In x (flat_map (fun tgt_name =>
          map (fun param_n => (tgt_name ++ "_" ++ param_n)%string)
              ["q_lo"; "q_md"; "q_hi"]%string) comps) <->
  exists name suffix, In name comps /\
    In suffix ["_q_lo"; "_q_md"; "_q_hi"]%string /\ x = (name ++ suffix)%string.
Proof.
  rewrite in_flat_map. split.
  - intros (name & Hn & Hx). exists name. cbn in Hx.
    destruct Hx as [<- | [<- | [<- | []]]]; eexists; (split; [exact Hn |]);
      (split; [| reflexivity]); cbn; auto.
  - intros (name & suffix & Hn & Hs & ->). exists name. split; [exact Hn |].
    cbn in Hs. destruct Hs as [<- | [<- | [<- | []]]]; cbn; auto.
Qed.

(** X2. [_cp_component_names] gives three names per component, in the order of
    the components: [<name>_q_lo], [<name>_q_md], [<name>_q_hi] at the
    positions [3 i], [3 i + 1], [3 i + 2] for component [i]; the names are
    pairwise distinct when the components are. *)
Theorem cp_component_names_spec (s : TimeSeries) :
  length (_cp_component_names s) = (3 * ts_width s)%nat /\
  (forall i name, ts_components s !! i = Some name ->
     _cp_component_names s !! (3 * i)%nat = Some (name ++ "_q_lo")%string /\
     _cp_component_names s !! (3 * i + 1)%nat = Some (name ++ "_q_md")%string /\
     _cp_component_names s !! (3 * i + 2)%nat = Some (name ++ "_q_hi")%string) /\
  (NoDup (ts_components s) -> NoDup (_cp_component_names s)).
Proof.
  split; [apply length_cp_component_names |].
  unfold _cp_component_names. split.
  - induction (ts_components s) as [| c l IH]; intros i name Hi; [discriminate |].
    cbn [flat_map map app]. destruct i as [| i].
    + injection Hi as ->. auto.
    + cbn in Hi. destruct (IH i name Hi) as (H0 & H1 & H2).
      replace (3 * S i)%nat with (S (S (S (3 * i)))) by lia.
      replace (3 * S i + 1)%nat with (S (S (S (3 * i + 1)))) by lia.
      replace (3 * S i + 2)%nat with (S (S (S (3 * i + 2)))) by lia.
      cbn. auto.
  - induction (ts_components s) as [| c l IH]; intros Hnd; [constructor |].
    apply NoDup_cons in Hnd as [Hc Hl]. cbn [flat_map].
    apply NoDup_app. split; [| split; [| exact (IH Hl)]].
    + cbn. repeat (apply NoDup_cons; split);
        [| | | apply NoDup_nil; exact I];
        rewrite ?elem_of_cons, elem_of_nil; intros H;
        repeat (destruct H as [H | H]); try contradiction;
        apply (string_app_inj c c) in H; try reflexivity;
        destruct H as [_ H]; discriminate H.
    + intros x Hx Hx'. apply list_elem_of_In, cp_component_names_elem in Hx'
        as (name & suffix & Hn & Hs & ->).
      assert (Hsl : String.length suffix = 5%nat)
        by (cbn in Hs; destruct Hs as [<- | [<- | [<- | []]]]; reflexivity).
      cbn in Hx. rewrite !elem_of_cons, elem_of_nil in Hx.
      assert (Hcn : c = name).
      { destruct Hx as [Hx | [Hx | [Hx | []]]];
          symmetry in Hx; apply string_app_inj in Hx; try (rewrite Hsl; reflexivity);
          destruct Hx as [Hx _]; auto. }
      subst name. apply Hc. now apply list_elem_of_In.
Qed.

(** ** The size of the calibration windows *)

(** X3. With [last_points_only=True], for arguments assumed valid
    ([valid_params]) and a first index from the range computation, the window of forecast number
    [j = first_fc_idx + idx * stride] is never empty: it holds exactly
    [train_length] residuals, or all [j - (forecast_horizon - 1)] residuals
    realized so far without [train_length], and they are the most recent
    ones, ending [forecast_horizon - 1] forecasts before [j]. *)
Theorem lpo_window_size (p : HfcParams) (first : Z) (idx : nat) (res : list (list num)) :
  valid_params p -> skip_n_train p <= first ->
  cal_end_lpo p first idx <= Z.of_nat (length res) ->
  let j := first + Z.of_nat idx * stride p in
  let n := n_cal p j in
  1 <= n /\
  cal_res_lpo p first idx res =
    take (Z.to_nat n) (drop (Z.to_nat (j - (forecast_horizon p - 1) - n)) res) /\
  length (cal_res_lpo p first idx res) = Z.to_nat n.
Proof.
  intros (Hfh & Hst & Htl) Hskip Hlen j n.
  assert (Hidx : 0 <= Z.of_nat idx * stride p) by nia.
  assert (Hres : 1 <= n /\
    cal_res_lpo p first idx res =
      take (Z.to_nat n) (drop (Z.to_nat (j - (forecast_horizon p - 1) - n)) res)).
  { subst n j. unfold n_cal, cal_res_lpo, cal_start_lpo, cal_end_lpo, skip_n_train in *.
    destruct (train_length p) as [tl |].
    - split; [lia |]. rewrite py_slice_range by lia. f_equal; try lia; f_equal; lia.
    - split; [lia |]. rewrite py_slice_take by lia.
      replace (first + Z.of_nat idx * stride p - (forecast_horizon p - 1)
               - (first + Z.of_nat idx * stride p - (forecast_horizon p - 1))) with 0 by lia.
      reflexivity. }
  destruct Hres as [Hn Heq]. split; [exact Hn |]. split; [exact Heq |].
  rewrite Heq, length_take, length_drop.
  subst n j. unfold n_cal, cal_end_lpo, skip_n_train in *.
  destruct (train_length p); lia.
Qed.

Lemma nanquantile_padded (q : num) (n m : nat) (xs : list num) :
  np_nanquantile1 q (replicate n nan ++ xs ++ replicate m nan) = np_nanquantile1 q xs.
Proof.
  unfold np_nanquantile1.
  rewrite !filter_app, !filter_replicate_nan, app_nil_r. reflexivity.
Qed.

(** X4. With [last_points_only=False], for arguments assumed valid
    ([valid_params]), the masked window of forecast number [j = first_fc_idx + idx * stride] keeps, for
    every horizon step [h] and component [c], the residuals at step [h] of
    exactly [n] forecasts, the same number for every step: [n =
    train_length], or [j - (forecast_horizon - 1)] without [train_length].
    They are the forecasts [j - h - n, ..., j - h - 1], the most recent ones
    whose step [h] is realized before [j]; the other cells of the line are
    NaN, and the quantile of step [h] is the quantile of these [n]
    residuals. *)
Theorem full_window_per_horizon (p : HfcParams) (first : Z) (idx : nat)
    (res : list (list (list num))) tri (F C : nat) :
  valid_params p -> skip_n_train p <= first ->
  forecast_horizon p = Z.of_nat F -> (1 <= C)%nat ->
  Forall (shape2 F C) res ->
  first + Z.of_nat idx * stride p <= Z.of_nat (length res) ->
  _triul_indices (forecast_horizon p) C = Ok tri ->
  let j := first + Z.of_nat idx * stride p in
  let n := Z.to_nat (n_cal p j) in
  (1 <= n)%nat /\
  exists a a',
    cal_res_full p first idx res = Ok a /\
    mask_cal_res p tri a = Ok a' /\
    forall h c, (h < F)%nat -> (c < C)%nat ->
      let used := take n (drop (Z.to_nat (j - Z.of_nat h - Z.of_nat n)) res) in
      length used = n /\
      get2 a' h c =
        Some (replicate (F - 1 - h) nan ++ map (fun r => np_at2 r h c) used
              ++ replicate h nan) /\
      forall q, get2 (np_nanquantile_axis2 q a') h c =
                Some (np_nanquantile1 q (map (fun r => np_at2 r h c) used)).
Proof.
  intros Hv Hskip HF HC Hres Hj Htri j n.
  pose proof Hv as (Hfh & Hst & Htl).
  assert (Hidx : 0 <= Z.of_nat idx * stride p) by nia.
  set (N := (n + (F - 1))%nat).
  set (g0 := Z.to_nat (j - Z.of_nat N)).
  assert (Hn : (1 <= n)%nat /\ Z.of_nat N <= j).
  { subst N n j. unfold n_cal, skip_n_train in *. destruct (train_length p); lia. }
  destruct Hn as [Hn HNj]. split; [exact Hn |].
  assert (HW : Py.slice (cal_start_full p first idx) (Some (cal_end_full p first idx)) res
               = take N (drop g0 res)).
  { subst g0 N n j. unfold n_cal, cal_start_full, cal_end_full, skip_n_train in *.
    destruct (train_length p) as [tl |].
    - rewrite py_slice_range by lia. f_equal; try lia; f_equal; lia.
    - rewrite py_slice_take by lia.
      replace (Z.to_nat (first + Z.of_nat idx * stride p
                 - Z.of_nat (Z.to_nat (first + Z.of_nat idx * stride p
                                         - (forecast_horizon p - 1)) + (F - 1))))
        with 0%nat by lia.
      rewrite drop_0. f_equal. lia. }
  set (W := take N (drop g0 res)) in *.
  assert (HlenW : length W = N).
  { subst W. rewrite length_take, length_drop. lia. }
  assert (HWne : W <> []).
  { intros E. rewrite E in HlenW. cbn in HlenW. lia. }
  assert (HWs : Forall (shape2 F C) W) by (apply Forall_take, Forall_drop, Hres).
  destruct (np_concatenate_axis2_spec F C W HWne HWs) as (a & Ha & Hsa & Hga).
  rewrite HlenW in Hsa.
  destruct (mask_cal_res_spec p F C N a tri HF) as (a' & Ha' & Hsa' & Hga');
    try assumption; try lia.
  exists a, a'. split; [unfold cal_res_full; now rewrite HW |]. split; [exact Ha' |].
  intros h c Hh Hc used.
  assert (Hused : used = take n (drop (g0 + (F - 1 - h)) res)).
  { subst used. do 2 f_equal. lia. }
  assert (Hlu : length used = n).
  { rewrite Hused, length_take, length_drop. lia. }
  split; [exact Hlu |].
  destruct (shape3_lookup F C N a' h c Hsa' Hh Hc) as (plane & line & Hp & HpC & Hl & Hlen).
  assert (Hline : line = replicate (F - 1 - h) nan ++ map (fun r => np_at2 r h c) used
                         ++ replicate h nan).
  { apply list_eq. intros k.
    destruct (Nat.lt_ge_cases k N) as [Hk | Hk].
    - specialize (Hga' h c k Hh Hc Hk). unfold get3 at 1 in Hga'.
      rewrite Hp, Hl in Hga'. rewrite Hga'.
      destruct (Z.ltb_spec (Z.of_nat h + Z.of_nat k) (Z.of_nat F - 1)).
      { cbn [orb]. rewrite lookup_app_l by (rewrite length_replicate; lia).
        symmetry. apply lookup_replicate_2. lia. }
      cbn [orb]. rewrite lookup_app_r by (rewrite length_replicate; lia).
      rewrite length_replicate.
      destruct (Z.leb_spec (Z.of_nat N) (Z.of_nat h + Z.of_nat k)).
      + rewrite lookup_app_r by (rewrite length_map; lia).
        rewrite length_map, Hlu. symmetry. apply lookup_replicate_2. lia.
      + rewrite lookup_app_l by (rewrite length_map; lia).
        rewrite Hga by assumption.
        change (map ?f ?l !! ?i) with (fmap (M:=list) f l !! i).
        rewrite list_lookup_fmap. f_equal.
        subst W. rewrite Hused, !lookup_take_lt, !lookup_drop by lia.
        f_equal. lia.
    - rewrite !lookup_ge_None_2; [reflexivity | | lia].
      rewrite !length_app, length_map, !length_replicate. lia. }
  split.
  - unfold get2. rewrite Hp, Hl. now rewrite Hline.
  - intros q. unfold get2, np_nanquantile_axis2.
    change (map ?f ?l !! ?i) with (fmap (M:=list) f l !! i).
    rewrite list_lookup_fmap, Hp. cbn [fmap option_fmap option_map].
    change (map ?f ?l !! ?i) with (fmap (M:=list) f l !! i).
    rewrite list_lookup_fmap, Hl. cbn [fmap option_fmap option_map].
    now rewrite Hline, nanquantile_padded.
Qed.

(** ** Maps that may raise *)

Lemma mapR_Forall2 {A B} (f : A -> result B) (l : list A) (ys : list B) :
  mapR f l = Ok ys <-> Forall2 (fun x y => f x = Ok y) l ys.
Proof.
  revert ys. induction l as [| x l IH]; intros ys; cbn [mapR].
  - split; [intros [= <-]; constructor | intros H; inversion H; reflexivity].
  - destruct (f x) as [y |] eqn:Hx.
    + destruct (mapR f l) as [ys' |] eqn:Hl.
      * split.
        -- intros [= <-]. constructor; [exact Hx | now apply IH].
        -- intros H. inversion H as [| ? y0 ? ys0 Hy0 Hys0]; subst.
           apply IH in Hys0. congruence.
      * split; [discriminate |].
        intros H. inversion H as [| ? y0 ? ys0 Hy0 Hys0]; subst.
        apply IH in Hys0. discriminate.
    + split; [discriminate |].
      intros H. inversion H; subst. congruence.
Qed.

Lemma mapR_imap_ok {A B} (g : nat -> A -> result B) (l : list A) :
  (forall t x, l !! t = Some x -> exists y, g t x = Ok y) ->
  exists ys, mapR (fun '(i, a) => g i a) (imap (fun i x => (i, x)) l) = Ok ys.
Proof.
  revert g. induction l as [| x l IH]; intros g Hg; [now exists [] |].
  rewrite imap_cons. cbn [mapR].
  destruct (Hg 0%nat x eq_refl) as [y ->].
  destruct (IH (fun i => g (S i))) as [ys Hys].
  { intros t x' Hx'. apply (Hg (S t)). exact Hx'. }
  assert (E : mapR (fun '(i, a) => g i a) (imap ((fun i x0 => (i, x0)) ∘ S) l) =
              mapR (fun '(i, a) => g (S i) a) (imap (fun i x0 => (i, x0)) l)).
  { clear. generalize (fun i : nat => S i). intros u.
    assert (forall (v : nat -> nat),
      mapR (fun '(i, a) => g i a) (imap (fun i x0 => (S (v i), x0)) l) =
      mapR (fun '(i, a) => g (S i) a) (imap (fun i x0 => (v i, x0)) l)) as Hgen.
    { induction l as [| x l IH]; intros v; [reflexivity |].
      rewrite !imap_cons. cbn [mapR]. destruct (g (S (v 0%nat)) x); [| reflexivity].
      change (imap ((fun i x0 => (S (v i), x0)) ∘ S) l)
        with (imap (fun i (x0 : A) => (S ((v ∘ S) i), x0)) l).
      change (imap ((fun i x0 => (v i, x0)) ∘ S) l)
        with (imap (fun i (x0 : A) => ((v ∘ S) i, x0)) l).
      now rewrite IH. }
    exact (Hgen (fun i => i)). }
  rewrite E, Hys. eauto.
Qed.

Lemma enumerate_lookup {A} (l : list A) (i : nat) :
  enumerate l !! i = (fun x => (i, x)) <$> l !! i.
Proof. unfold enumerate. apply list_lookup_imap. Qed.

(** The elements of [mapR f (enumerate l)]. *)
Lemma mapR_enumerate_lookup {A B} (g : nat -> A -> result B) (l : list A) (ys : list B) :
  mapR (fun '(i, a) => g i a) (enumerate l) = Ok ys ->
  length ys = length l /\
  forall t, match l !! t with
            | Some x => exists y, ys !! t = Some y /\ g t x = Ok y
            | None => ys !! t = None
            end.
Proof.
  intros H. apply mapR_Forall2 in H.
  pose proof (Forall2_length _ _ _ H) as Hlen.
  unfold enumerate in Hlen. rewrite length_imap in Hlen. split; [lia |].
  intros t. destruct (l !! t) as [x |] eqn:Hx.
  - assert (Hi : enumerate l !! t = Some (t, x)) by (now rewrite enumerate_lookup, Hx).
    destruct (Forall2_lookup_l _ _ _ _ _ H Hi) as (y & Hy & Hg). eauto.
  - apply lookup_ge_None in Hx. apply lookup_ge_None. lia.
Qed.

(** A selection of the inputs gives the same selection of the outputs. *)
Lemma mapR_enumerate_sub {A B} (f g : nat -> A -> result B) (sel : nat -> nat)
    (xs1 xss : list A) (ys1 : list B) :
  mapR (fun '(i, a) => f i a) (enumerate xs1) = Ok ys1 ->
  (forall t, xss !! t = xs1 !! sel t) ->
  (forall t x, g t x = f (sel t) x) ->
  exists yss,
    mapR (fun '(i, a) => g i a) (enumerate xss) = Ok yss /\
    forall t, yss !! t = ys1 !! sel t.
Proof.
  intros H1 Hsel Hfg.
  destruct (mapR_enumerate_lookup f xs1 ys1 H1) as [_ Hys1].
  destruct (mapR_imap_ok g xss) as [yss Hyss].
  { intros t x Hx. rewrite Hsel in Hx. specialize (Hys1 (sel t)). rewrite Hx in Hys1.
    destruct Hys1 as (y & _ & Hy). exists y. now rewrite Hfg. }
  exists yss. split; [exact Hyss |].
  destruct (mapR_enumerate_lookup g xss yss Hyss) as [_ Hys].
  intros t. specialize (Hys t). specialize (Hys1 (sel t)). rewrite Hsel in Hys.
  destruct (xs1 !! sel t) as [x |].
  - destruct Hys as (y & -> & Hy), Hys1 as (y1 & -> & Hy1).
    rewrite Hfg in Hy. congruence.
  - now rewrite Hys, Hys1.
Qed.

(** ** Slices with a step *)

Lemma div_count (d s : Z) (t : nat) :
  0 < d -> 0 < s -> (Z.of_nat t < (d - 1) / s + 1 <-> Z.of_nat t * s < d).
Proof.
  intros Hd Hs.
  pose proof (Z.mul_div_le (d - 1) s Hs) as H1.
  pose proof (Z.mul_succ_div_gt (d - 1) s Hs) as H2.
  split; intros H3; nia.
Qed.

(** [l[first:last:stride]] for [0 <= first], [0 <= last] and a positive
    stride: element [t] is [l[first + t * stride]] as long as the index is
    below [last]. *)
Lemma slice_step_lookup_eq {A} (first last stride : Z) (l xs : list A) (t : nat) :
  0 <= first -> 0 <= last -> 0 < stride ->
  Py.slice_step first last stride l = Ok xs ->
  xs !! t = if first + Z.of_nat t * stride <? last
            then l !! Z.to_nat (first + Z.of_nat t * stride) else None.
Proof.
  intros Hf Hla Hs Hsl.
  destruct (xs !! t) as [x |] eqn:Hx.
  - destruct (slice_step_lookup first last stride l xs t x Hf Hla Hs Hsl Hx) as [Hl Hlt].
    destruct (Z.ltb_spec (first + Z.of_nat t * stride) last); [now rewrite Hl | lia].
  - destruct (Z.ltb_spec (first + Z.of_nat t * stride) last) as [Hlt | Hge]; [| reflexivity].
    destruct (l !! Z.to_nat (first + Z.of_nat t * stride)) as [y |] eqn:Hy; [| reflexivity].
    exfalso. apply lookup_ge_None in Hx. apply lookup_lt_Some in Hy.
    rewrite (slice_step_length first last stride l xs Hf Hla Hs Hsl) in Hx.
    unfold Py.slice_positions, Py.clip in Hx.
    destruct (Z.ltb_spec 0 stride); [| lia].
    destruct (Z.ltb_spec first 0); [lia |]. destruct (Z.ltb_spec last 0); [lia |].
    rewrite length_map, length_seq in Hx.
    assert (Hidx : 0 <= Z.of_nat t * stride) by nia.
    destruct (Z.ltb_spec (Z.min first (Z.of_nat (length l)))
                         (Z.min last (Z.of_nat (length l)))) as [Hlh | Hlh]; [| lia].
    rewrite (Z.min_l first) in Hx by lia.
    assert (Hd : 0 < Z.min last (Z.of_nat (length l)) - first) by lia.
    pose proof (proj2 (div_count _ stride t Hd Hs)) as Hc.
    rewrite (Z.min_l first) in Hlh by lia.
    assert (Hlt2 : Z.of_nat t * stride < Z.min last (Z.of_nat (length l)) - first) by lia.
    specialize (Hc Hlt2). lia.
Qed.

Lemma slice_step_sub {A} (first last st : Z) (l xs1 xss : list A) :
  0 <= first -> 0 <= last -> 1 <= st ->
  Py.slice_step first last 1 l = Ok xs1 ->
  Py.slice_step first last st l = Ok xss ->
  forall t, xss !! t = xs1 !! (t * Z.to_nat st)%nat.
Proof.
  intros Hf Hla Hst H1 Hs t.
  rewrite (slice_step_lookup_eq first last st l xss t) by (assumption || lia).
  rewrite (slice_step_lookup_eq first last 1 l xs1 (t * Z.to_nat st)) by (assumption || lia).
  replace (first + Z.of_nat (t * Z.to_nat st) * 1) with (first + Z.of_nat t * st) by lia.
  reflexivity.
Qed.

(** ** Series built by the code *)

Lemma build_forecast_series_inv (rows : list (list num)) (cols : list string)
    (t0 f : Z) (n : nat) (o : TimeSeries) :
  _build_forecast_series rows cols t0 f n = Ok o ->
  o = {| ts_start := t0; ts_freq := f; ts_components := cols; ts_values := rows |} /\
  length rows = n /\ Forall (fun row => length row = length cols) rows.
Proof.
  unfold _build_forecast_series.
  destruct (Nat.eqb_spec (length rows) n) as [Hn | Hn]; cbn [andb]; [| discriminate].
  destruct (forallb _ rows) eqn:Hall; [| discriminate].
  intros [= <-]. split; [reflexivity |]. split; [exact Hn |].
  apply Forall_forall. intros row Hrow. apply Nat.eqb_eq.
  rewrite forallb_forall in Hall. apply Hall. now apply list_elem_of_In.
Qed.

Lemma ts_entries_lookup (o : TimeSeries) (t : nat) :
  ts_entries o !! t =
  (fun row => (ts_start o + Z.of_nat t * ts_freq o, row)) <$> ts_values o !! t.
Proof.
  unfold ts_entries, ts_times, ts_len. rewrite lookup_zip_with.
  change (map ?f ?l !! ?i) with (fmap (M:=list) f l !! i).
  rewrite list_lookup_fmap.
  destruct (ts_values o !! t) as [row |] eqn:Hrow.
  - rewrite lookup_seq_lt by (now apply lookup_lt_Some in Hrow). reflexivity.
  - rewrite lookup_seq_ge by (now apply lookup_ge_None in Hrow). reflexivity.
Qed.

Lemma cp_pred_lpo_one_row (cm : ConformalModel) (p : HfcParams) (first : Z)
    (res : list (list num)) (idx : nat) (pv : list num) (rows : list (list num)) :
  cp_pred_lpo cm p first res idx pv = Ok rows -> exists row, rows = [row].
Proof.
  unfold cp_pred_lpo. destruct ((first =? 0) && Nat.eqb idx 0).
  - cbn. intros [= <-]. eauto.
  - destruct (alpha_level (alpha cm)) as [q | e]; cbn [bindR]; [| discriminate].
    unfold conformal_bounds, np_zip2.
    destruct (bool_decide _); [| discriminate].
    cbn. intros [= <-]. eauto.
Qed.

Lemma concat_one_row {A} (bs : list (list A)) :
  Forall (fun b => exists r, b = [r]) bs ->
  length (concat bs) = length bs /\
  forall t, concat bs !! t = bs !! t ≫= head.
Proof.
  induction 1 as [| b bs [r ->] _ [IHl IHt]]; [split; [reflexivity | now intros []] |].
  cbn [concat app length]. split; [now rewrite IHl |].
  intros [| t]; [reflexivity |]. cbn. apply IHt.
Qed.

Lemma np_concatenate_axis0_ok (blocks : list (list (list num))) :
  blocks <> [] -> np_concatenate_axis0 blocks = Ok (concat blocks).
Proof. destruct blocks; [contradiction | reflexivity]. Qed.

(** ** Strides *)

Lemma forecast_range_nonneg (p : HfcParams) (i : nat) (s : TimeSeries)
    {lpo} (h : hfcs_t lpo) (first last : Z) :
  outcome (forecast_range p i s h) = Ok (first, last) -> 0 <= first < last.
Proof.
  unfold forecast_range. rewrite outcome_bind. cbn [lift outcome snd].
  destruct (last_fc_idx p s h) as [last' | e]; [| discriminate].
  rewrite outcome_bind.
  destruct (outcome (skip_n_start p i s h last')) as [k | e] eqn:Hk; [| discriminate].
  apply skip_n_start_outcome_nonneg_or_skip in Hk.
  destruct (Z.leb_spec last' (Z.max (skip_n_train p) k)); [discriminate |].
  intros [= <- <-]. lia.
Qed.

Lemma forecast_range_with_stride (p : HfcParams) (st : Z) (i : nat) (s : TimeSeries)
    {lpo} (h : hfcs_t lpo) :
  forecast_range (with_stride p st) i s h = forecast_range p i s h.
Proof. destruct p, lpo; reflexivity. Qed.

Lemma cp_pred_full_stride (cm : ConformalModel) (p : HfcParams) tri (s : TimeSeries)
    (first st : Z) (res : list (list (list num))) (t : nat) (pred : TimeSeries) :
  1 <= st ->
  cp_pred_full cm (with_stride p st) tri s first res t pred =
  cp_pred_full cm (with_stride p 1) tri s first res (t * Z.to_nat st) pred.
Proof.
  intros Hst. unfold cp_pred_full.
  replace (Nat.eqb (t * Z.to_nat st) 0) with (Nat.eqb t 0).
  2:{ destruct t; [reflexivity |]. symmetry. apply Nat.eqb_neq. nia. }
  destruct ((first =? 0) && Nat.eqb t 0); [reflexivity |].
  unfold cal_res_full, cal_start_full, cal_end_full. cbn [with_stride stride train_length forecast_horizon].
  replace (first + Z.of_nat (t * Z.to_nat st) * 1) with (first + Z.of_nat t * st) by lia.
  reflexivity.
Qed.

Lemma cp_pred_lpo_stride (cm : ConformalModel) (p : HfcParams)
    (first st : Z) (res : list (list num)) (t : nat) (pv : list num) :
  1 <= st ->
  cp_pred_lpo cm (with_stride p st) first res t pv =
  cp_pred_lpo cm (with_stride p 1) first res (t * Z.to_nat st) pv.
Proof.
  intros Hst. unfold cp_pred_lpo.
  replace (Nat.eqb (t * Z.to_nat st) 0) with (Nat.eqb t 0).
  2:{ destruct t; [reflexivity |]. symmetry. apply Nat.eqb_neq. nia. }
  destruct ((first =? 0) && Nat.eqb t 0); [reflexivity |].
  unfold cal_res_lpo, cal_start_lpo, cal_end_lpo. cbn [with_stride stride train_length forecast_horizon].
  replace (first + Z.of_nat (t * Z.to_nat st) * 1) with (first + Z.of_nat t * st) by lia.
  reflexivity.
Qed.

Lemma conformal_loop_stride (cm : ConformalModel) (p : HfcParams) tri (s : TimeSeries)
    (first last st : Z) {lpo} (h : hfcs_t lpo) (r : res_t lpo) (o1 : CpOut) :
  0 <= first -> 0 <= last -> 1 <= st ->
  conformal_loop cm (with_stride p 1) tri s first last h r = Ok o1 ->
  exists os,
    conformal_loop cm (with_stride p st) tri s first last h r = Ok os /\
    subsampled (Z.to_nat st) o1 os.
Proof.
  intros Hf Hla Hst. destruct lpo; cbn [conformal_loop with_stride stride].
  - (* one series of last points *)
    destruct (slice_step_ok first last 1 (ts_values h)) as [xs1 Hx1]; [lia |].
    destruct (slice_step_ok first last st (ts_values h)) as [xss Hxs]; [lia |].
    rewrite Hx1, Hxs. cbn [bindR].
    destruct (mapR _ (enumerate xs1)) as [ys1 |] eqn:Hy1; cbn [bindR]; [| discriminate].
    destruct (mapR_enumerate_sub
                (fun idx pv => cp_pred_lpo cm (with_stride p 1) first r idx pv)
                (fun idx pv => cp_pred_lpo cm (with_stride p st) first r idx pv)
                (fun t => (t * Z.to_nat st)%nat) xs1 xss ys1 Hy1)
      as (yss & Hys & Hsel).
    { apply (slice_step_sub first last st (ts_values h)); assumption. }
    { intros t x. now apply cp_pred_lpo_stride. }
    rewrite Hys. cbn [bindR].
    assert (H1row : Forall (fun b : list (list num) => exists row, b = [row]) ys1).
    { apply Forall_lookup. intros t b Hb.
      destruct (mapR_enumerate_lookup _ _ _ Hy1) as [_ Hl]. specialize (Hl t).
      destruct (xs1 !! t) as [x |]; [| congruence].
      destruct Hl as (y & Hy & Hg). rewrite Hb in Hy. injection Hy as <-.
      eapply cp_pred_lpo_one_row. exact Hg. }
    assert (Hsrow : Forall (fun b : list (list num) => exists row, b = [row]) yss).
    { apply Forall_lookup. intros t b Hb. rewrite Hsel in Hb.
      rewrite Forall_lookup in H1row. eapply H1row. exact Hb. }
    destruct (concat_one_row ys1 H1row) as [Hl1 Hc1].
    destruct (concat_one_row yss Hsrow) as [Hls Hcs].
    intros Hrun.
    assert (Hne1 : ys1 <> []) by (intros ->; discriminate Hrun).
    assert (Hnes : yss <> []).
    { intros ->. specialize (Hsel 0%nat). destruct ys1; [congruence | discriminate Hsel]. }
    rewrite np_concatenate_axis0_ok in Hrun by assumption.
    rewrite np_concatenate_axis0_ok by assumption. cbn [bindR] in *.
    destruct (time_index_at h first) as [t0 |]; cbn [bindR] in *; [| discriminate].
    destruct (_build_forecast_series (concat ys1) _ _ _ _) as [s1 |] eqn:Hb1;
      cbn [bindR] in *; [| discriminate].
    injection Hrun as <-.
    apply build_forecast_series_inv in Hb1 as (-> & _ & Hw1).
    rewrite build_forecast_series_ok.
    + eexists. split; [reflexivity |]. cbn [subsampled ts_components].
      split; [reflexivity |]. intros t.
      rewrite !ts_entries_lookup. cbn [ts_values ts_start ts_freq].
      rewrite Hcs, Hc1, Hsel.
      destruct (ys1 !! (t * Z.to_nat st)%nat ≫= head) as [row |]; [| reflexivity].
      cbn. do 2 f_equal. lia.
    + exact Hls.
    + apply Forall_lookup. intros t row Hrow.
      rewrite Hcs, Hsel, <- Hc1 in Hrow.
      rewrite Forall_lookup in Hw1. eapply Hw1. exact Hrow.
  - (* the list of forecasts *)
    destruct (slice_step_ok first last 1 h) as [xs1 Hx1]; [lia |].
    destruct (slice_step_ok first last st h) as [xss Hxs]; [lia |].
    rewrite Hx1, Hxs. cbn [bindR].
    destruct (mapR _ (enumerate xs1)) as [ys1 |] eqn:Hy1; cbn [bindR]; [| discriminate].
    intros [= <-].
    destruct (mapR_enumerate_sub
                (fun idx pred => cp_pred_full cm (with_stride p 1) tri s first r idx pred)
                (fun idx pred => cp_pred_full cm (with_stride p st) tri s first r idx pred)
                (fun t => (t * Z.to_nat st)%nat) xs1 xss ys1 Hy1)
      as (yss & Hys & Hsel).
    { apply (slice_step_sub first last st h); assumption. }
    { intros t x. now apply cp_pred_full_stride. }
    rewrite Hys. cbn [bindR]. eexists. split; [reflexivity |]. exact Hsel.
Qed.

(** The body of the loop for one series: when the run with [stride=1]
    returns, the run with a stride [st >= 1] emits the same events and
    returns every [st]-th of its forecasts. *)
Lemma series_stride (cm : ConformalModel) (p : HfcParams) tri (i : nat)
    (s : TimeSeries) (st : Z) {lpo} (h : hfcs_t lpo) (r : res_t lpo) (o1 : CpOut) :
  1 <= st ->
  outcome (historical_forecasts_series cm (with_stride p 1) tri i s h r) = Ok o1 ->
  exists os,
    historical_forecasts_series cm (with_stride p st) tri i s h r =
      (trace (historical_forecasts_series cm (with_stride p 1) tri i s h r), Ok os) /\
    subsampled (Z.to_nat st) o1 os.
Proof.
  intros Hst. unfold historical_forecasts_series. cbn [with_stride train_length].
  match goal with |- context [if ?c then _ else _] => destruct c end.
  - intros [= <-]. exists (CpList []). split; [reflexivity |]. now intros t.
  - rewrite !forecast_range_with_stride.
    destruct (forecast_range p i s h) as [w [[first last] | e]] eqn:Hr;
      [| discriminate].
    assert (Hfl : 0 <= first < last).
    { apply (forecast_range_nonneg p i s h). now rewrite Hr. }
    cbn [bind lift fst snd outcome trace].
    destruct (conformal_loop cm (with_stride p 1) tri s first last h r) as [o |] eqn:Hl;
      [| discriminate].
    intros [= <-].
    destruct (conformal_loop_stride cm p tri s first last st h r o) as (os & -> & Hsub);
      try lia; [exact Hl |].
    exists os. split; [reflexivity | exact Hsub].
Qed.

Lemma map_trace_rel {A B} (f g : A -> M B) (R : B -> B -> Prop) (l : list A)
    (ys : list B) :
  (forall x y, outcome (f x) = Ok y -> exists y', g x = (trace (f x), Ok y') /\ R y y') ->
  outcome (map_trace f l) = Ok ys ->
  exists ys', map_trace g l = (trace (map_trace f l), Ok ys') /\ Forall2 R ys ys'.
Proof.
  intros Hfg. revert ys. induction l as [| x l IH]; intros ys.
  - cbn. intros [= <-]. exists []. split; [reflexivity | constructor].
  - cbn [map_trace]. destruct (f x) as [w [y | e]] eqn:Hx; [| discriminate].
    destruct (Hfg x y) as (y' & Hg & Hy); [now rewrite Hx |].
    rewrite Hg, Hx. cbn [trace fst bind].
    destruct (map_trace f l) as [w' [ys0 | e]] eqn:Hl; [| discriminate].
    destruct (IH ys0 eq_refl) as (ys' & -> & Hys).
    cbn. intros [= <-]. exists (y' :: ys'). split; [reflexivity |].
    now constructor.
Qed.

(** X5. The stride only selects among the forecasts: the wrapped model is
    called without a stride, and when the call with [stride=1] returns, the
    call with a stride [st >= 1] emits the same events and returns, for
    every series, every [st]-th forecast of that result (with
    [last_points_only=True] every [st]-th time stamp and row). *)
Theorem stride_subsamples (cm : ConformalModel) (series : SeriesArg) (p : HfcParams)
    (st : Z) (out1 : HfcOut) :
  1 <= st ->
  outcome (historical_forecasts cm series (with_stride p 1)) = Ok out1 ->
  exists outs,
    historical_forecasts cm series (with_stride p st) =
      (trace (historical_forecasts cm series (with_stride p 1)), Ok outs) /\
    hfc_subsampled (Z.to_nat st) out1 outs.
Proof.
  intros Hst. unfold historical_forecasts.
  cbn [with_stride num_samples forecast_horizon last_points_only].
  rewrite !bind_emit. cbn [outcome snd trace fst].
  rewrite !bind_lift.
  destruct (m_historical_forecasts (model cm) _) as [hfcs | e]; [| discriminate].
  rewrite !bind_emit. cbn [outcome snd trace fst].
  rewrite !bind_lift.
  destruct (m_residuals (model cm) _ _) as [res | e]; [| discriminate].
  rewrite !bind_lift. destruct (Py.index (series2seq series) 0) as [s0 | e]; [| discriminate].
  rewrite !bind_lift. destruct (_triul_indices _ _) as [tri | e]; [| discriminate].
  set (l := enumerate (zip3 (series2seq series) hfcs res)).
  set (f1 := fun '(series_idx, (series_, s_hfcs, res0)) =>
               historical_forecasts_series cm (with_stride p 1) tri series_idx series_ s_hfcs res0).
  set (fs := fun '(series_idx, (series_, s_hfcs, res0)) =>
               historical_forecasts_series cm (with_stride p st) tri series_idx series_ s_hfcs res0).
  destruct (map_trace f1 l) as [w [ys | e]] eqn:H1; [| discriminate].
  destruct (map_trace_rel f1 fs (subsampled (Z.to_nat st)) l ys) as (ys' & Hs & Hrel).
  { intros [i [[s h] r]] y Hy. subst f1 fs. cbn beta iota. now apply series_stride. }
  { now rewrite H1. }
  rewrite Hs, H1. cbn [trace fst bind].
  destruct (called_with_single series).
  - rewrite !bind_lift.
    destruct Hrel as [| y y' ys0 ys0' Hy Hrest]; [discriminate |].
    change (Py.index (y :: ys0) 0) with (Ok y).
    change (Py.index (y' :: ys0') 0) with (Ok y').
    cbn. intros [= <-]. exists (HfcOne y'). rewrite !app_nil_r. split; [reflexivity | exact Hy].
  - cbn. intros [= <-]. exists (HfcMany ys'). rewrite !app_nil_r. split; [reflexivity | exact Hrel].
Qed.

(** ** The rows of an output *)

Lemma zip_with_bounds_rows (pv q : list (list num)) :
  zip_with app (zip_with app (zip_with (zip_with fsub) pv q) pv)
               (zip_with (zip_with fadd) pv q) =
  zip_with bounds_row pv q.
Proof.
  revert q. induction pv as [| row pv IH]; intros [| qrow q]; try reflexivity.
  cbn. f_equal. apply IH.
Qed.

Lemma conformal_bounds_inv (pv q rows : list (list num)) :
  conformal_bounds pv q = Ok rows ->
  map length pv = map length q /\ rows = zip_with bounds_row pv q.
Proof.
  unfold conformal_bounds, np_zip2.
  destruct (bool_decide_reflect (map length pv = map length q)) as [Hl | Hl];
    [| discriminate].
  unfold np_concatenate3_axis1.
  match goal with |- context [if ?c then _ else _] => destruct c end; [| discriminate].
  intros [= <-]. split; [exact Hl | apply zip_with_bounds_rows].
Qed.

Lemma repeat3_inv (pv rows : list (list num)) :
  np_concatenate3_axis1 pv pv pv = Ok rows ->
  rows = map (fun row => (row ++ row) ++ row) pv.
Proof.
  unfold np_concatenate3_axis1. rewrite Nat.eqb_refl. cbn [andb]. intros [= <-].
  induction pv as [| row pv IH]; [reflexivity |]. cbn. now rewrite IH.
Qed.

(** The middle column of rows of width three. *)
Lemma middle_of_bounds_rows (pv q : list (list num)) :
  map length pv = map length q ->
  Forall (fun row => length row = 3%nat) (zip_with bounds_row pv q) ->
  Forall (fun row => length row = 1%nat) pv /\
  omap (fun row : list num => row !! 1%nat) (zip_with bounds_row pv q) =
  omap (fun row : list num => row !! 0%nat) pv.
Proof.
  revert q. induction pv as [| row pv IH]; intros [| qrow q] Hl Hw;
    try discriminate; [split; [constructor | reflexivity] |].
  cbn in Hl. injection Hl as Hrow Hl.
  cbn [zip_with] in Hw. apply Forall_cons in Hw as [Hw0 Hw].
  destruct (IH q Hl Hw) as [IH1 IH2].
  rewrite length_bounds_row in Hw0 by exact Hrow.
  assert (Hr1 : length row = 1%nat) by lia.
  split; [constructor; assumption |].
  destruct row as [| x [| ? ?]]; try discriminate.
  destruct qrow as [| y [| ? ?]]; try discriminate.
  cbn. now rewrite IH2.
Qed.

Lemma middle_of_repeated_rows (pv : list (list num)) :
  Forall (fun row => length row = 3%nat) (map (fun row => (row ++ row) ++ row) pv) ->
  Forall (fun row => length row = 1%nat) pv /\
  omap (fun row : list num => row !! 1%nat) (map (fun row => (row ++ row) ++ row) pv) =
  omap (fun row : list num => row !! 0%nat) pv.
Proof.
  induction pv as [| row pv IH]; intros Hw; [split; [constructor | reflexivity] |].
  cbn [map] in Hw. apply Forall_cons in Hw as [Hw0 Hw].
  destruct (IH Hw) as [IH1 IH2]. rewrite !length_app in Hw0.
  assert (Hr1 : length row = 1%nat) by lia.
  split; [constructor; assumption |].
  destruct row as [| x [| ? ?]]; try discriminate.
  cbn. now rewrite IH2.
Qed.

Lemma find_median_name (name : string) :
  list_find (fun c : string => c = (name ++ "_q_md")%string)
    [(name ++ "_q_lo")%string; (name ++ "_q_md")%string; (name ++ "_q_hi")%string]
  = Some (1%nat, (name ++ "_q_md")%string).
Proof.
  apply list_find_Some. split; [reflexivity |]. split; [reflexivity |].
  intros j y Hy Hj. assert (j = 0%nat) as -> by lia. injection Hy as <-.
  intros H. apply (string_app_inj name name) in H; [| reflexivity].
  destruct H as [_ H]. discriminate H.
Qed.

Lemma univariate_names (s : TimeSeries) (name : string) :
  ts_components s = [name] ->
  _cp_component_names s =
    [(name ++ "_q_lo")%string; (name ++ "_q_md")%string; (name ++ "_q_hi")%string].
Proof. unfold _cp_component_names. intros ->. reflexivity. Qed.

Lemma ts_times_eq (o pred : TimeSeries) :
  ts_start o = ts_start pred -> ts_freq o = ts_freq pred -> ts_len o = ts_len pred ->
  ts_times o = ts_times pred /\ end_time o = end_time pred.
Proof. unfold ts_times, end_time. intros -> -> ->. split; reflexivity. Qed.

(** ** Univariate series *)

(** X6. For a series with one component [name], the forecast that [predict]
    returns for it has the time stamps of the wrapped model's forecast and
    the columns [name_q_lo], [name_q_md], [name_q_hi]; the wrapped model's
    forecast has one column, and the column [name_q_md] holds its values
    unchanged. *)
Theorem predict_univariate_median (cm : ConformalModel) (series_ pred : TimeSeries)
    (res : list (list (list num))) (o : TimeSeries) (name : string) :
  ts_components series_ = [name] ->
  predict_series cm series_ pred res = Ok o ->
  ts_times o = ts_times pred /\
  ts_components o =
    [(name ++ "_q_lo")%string; (name ++ "_q_md")%string; (name ++ "_q_hi")%string] /\
  Forall (fun row => length row = 1%nat) (ts_values pred) /\
  ts_column o (name ++ "_q_md") = Some (ts_column_at pred 0).
Proof.
  intros Hname. unfold predict_series.
  destruct (np_concatenate_axis2 res) as [a |]; [| discriminate].
  destruct (alpha_level (alpha cm)) as [q |]; [| discriminate].
  destruct (conformal_bounds _ _) as [rows |] eqn:Hb; [| discriminate].
  intros Ho. apply build_forecast_series_inv in Ho as (-> & Hlen & Hw).
  apply conformal_bounds_inv in Hb as (Hl & ->).
  rewrite (univariate_names _ _ Hname) in *. cbn [length] in Hw.
  destruct (middle_of_bounds_rows _ _ Hl Hw) as [H1 Hmid].
  split; [apply ts_times_eq; [reflexivity | reflexivity | exact Hlen] |].
  split; [reflexivity |]. split; [exact H1 |].
  unfold ts_column. cbn [ts_components ts_values].
  rewrite find_median_name. now rewrite Hmid.
Qed.

(** X7. For a series with one component [name], every forecast corrected by
    the loop of [historical_forecasts] with [last_points_only=False] (in the
    branch that repeats the forecast as in the branch that calibrates it) has
    the time stamps of the historical forecast it corrects and the columns
    [name_q_lo], [name_q_md], [name_q_hi]; that forecast has one column, and
    the column [name_q_md] holds its values unchanged. *)
Theorem historical_univariate_median (cm : ConformalModel) (p : HfcParams) tri
    (series_ : TimeSeries) (first : Z) (res : list (list (list num))) (idx : nat)
    (pred o : TimeSeries) (name : string) :
  ts_components series_ = [name] ->
  cp_pred_full cm p tri series_ first res idx pred = Ok o ->
  ts_times o = ts_times pred /\
  ts_components o =
    [(name ++ "_q_lo")%string; (name ++ "_q_md")%string; (name ++ "_q_hi")%string] /\
  Forall (fun row => length row = 1%nat) (ts_values pred) /\
  ts_column o (name ++ "_q_md") = Some (ts_column_at pred 0).
Proof.
  intros Hname. unfold cp_pred_full.
  match goal with |- bindR ?c _ = _ -> _ => destruct c as [rows |] eqn:Hc end;
    cbn [bindR]; [| discriminate].
  intros Ho. apply build_forecast_series_inv in Ho as (-> & Hlen & Hw).
  rewrite (univariate_names _ _ Hname) in *. cbn [length] in Hw.
  assert (Hmid : Forall (fun row => length row = 1%nat) (ts_values pred) /\
                 omap (fun row : list num => row !! 1%nat) rows =
                 omap (fun row : list num => row !! 0%nat) (ts_values pred)).
  { destruct ((first =? 0) && Nat.eqb idx 0).
    - apply repeat3_inv in Hc as ->. now apply middle_of_repeated_rows.
    - destruct (cal_res_full p first idx res) as [a |]; cbn [bindR] in Hc; [| discriminate].
      destruct (mask_cal_res p tri a) as [a' |]; cbn [bindR] in Hc; [| discriminate].
      destruct (alpha_level (alpha cm)) as [q |]; cbn [bindR] in Hc; [| discriminate].
      apply conformal_bounds_inv in Hc as (Hl & ->).
      now apply middle_of_bounds_rows. }
  destruct Hmid as [H1 Hmid].
  split; [apply ts_times_eq; [reflexivity | reflexivity | exact Hlen] |].
  split; [reflexivity |]. split; [exact H1 |].
  unfold ts_column. cbn [ts_components ts_values].
  rewrite find_median_name. now rewrite Hmid.
Qed.

(** ** [predict] on arrays of matching shapes *)

Lemma shape2_quantiles_plain (F C N : nat) (q : num) a :
  shape3 F C N a -> shape2 F C (np_quantile_axis2 q a).
Proof.
  intros [Hl Ha]. unfold np_quantile_axis2. split; [now rewrite length_map |].
  apply Forall_fmap. eapply Forall_impl; [exact Ha |].
  intros plane [Hp _]. cbn. now rewrite length_map.
Qed.


(** ** The forecasts returned for one series *)

Lemma series_not_generated (cm : ConformalModel) (p : HfcParams) tri (i : nat)
    (s : TimeSeries) {lpo} (h : hfcs_t lpo) (r : res_t lpo) :
  historical_forecasts_series cm p tri i s h r =
  if nothing_generated p h then ret (CpList [])
  else
    let* range := forecast_range p i s h in
    lift (conformal_loop cm p tri s (fst range) (snd range) h r).
Proof. reflexivity. Qed.

Lemma cp_pred_full_inv (cm : ConformalModel) (p : HfcParams) tri (s : TimeSeries)
    (first : Z) (res : list (list (list num))) (idx : nat) (pred o : TimeSeries) :
  cp_pred_full cm p tri s first res idx pred = Ok o ->
  ts_start o = ts_start pred /\ ts_freq o = ts_freq pred /\ ts_len o = ts_len pred /\
  ts_components o = _cp_component_names s /\
  Forall (fun row => length row = (3 * ts_width s)%nat) (ts_values o).
Proof.
  unfold cp_pred_full.
  match goal with |- bindR ?c _ = _ -> _ => destruct c as [rows |] end;
    cbn [bindR]; [| discriminate].
  intros Ho. apply build_forecast_series_inv in Ho as (-> & Hlen & Hw).
  rewrite length_cp_component_names in Hw. auto.
Qed.

Lemma series_full_inv (cm : ConformalModel) (p : HfcParams) tri (i : nat)
    (s : TimeSeries) (h : list TimeSeries) (r : list (list (list num))) (o : CpOut) :
  nothing_generated p (lpo:=false) h = false ->
  outcome (historical_forecasts_series cm p tri i s (lpo:=false) h r) = Ok o ->
  exists first last,
    outcome (forecast_range p i s (lpo:=false) h) = Ok (first, last) /\
    skip_n_train p <= first /\ 0 <= first < last /\
    last_fc_idx p s (lpo:=false) h = Ok last /\
    conformal_loop cm p tri s first last (lpo:=false) h r = Ok o.
Proof.
  intros Hg. rewrite series_not_generated, Hg, outcome_bind.
  destruct (outcome (forecast_range p i s (lpo:=false) h)) as [[first last] |] eqn:Hr;
    [| discriminate].
  cbn [lift outcome snd fst]. intros Hl.
  pose proof (forecast_range_nonneg p i s (lpo:=false) h first last Hr) as Hfl.
  pose proof (forecast_range_bounds p i s (lpo:=false) h first last Hr) as (Hskip & _ & Hlast).
  exists first, last. auto.
Qed.

(** The forecasts returned by the loop with [last_points_only=False]. *)
Lemma full_loop_outputs (cm : ConformalModel) (p : HfcParams) tri
    (s : TimeSeries) (first last : Z) (h : list TimeSeries) (r : list (list (list num)))
    (outs : list TimeSeries) :
  0 <= first -> 0 <= last -> 1 <= stride p ->
  conformal_loop cm p tri s first last (lpo:=false) h r = Ok (CpList outs) ->
  (forall t o, outs !! t = Some o ->
     first + Z.of_nat t * stride p < last /\
     exists pred,
       h !! Z.to_nat (first + Z.of_nat t * stride p) = Some pred /\
       cp_pred_full cm p tri s first r t pred = Ok o /\
       ts_times o = ts_times pred /\ end_time o = end_time pred /\
       ts_components o = _cp_component_names s /\
       Forall (fun row => length row = (3 * ts_width s)%nat) (ts_values o)) /\
  (forall t, outs !! t = None ->
     last <= first + Z.of_nat t * stride p \/
     Z.of_nat (length h) <= first + Z.of_nat t * stride p).
Proof.
  intros Hf Hla Hst. cbn [conformal_loop].
  destruct (slice_step_ok first last (stride p) h) as [xs Hxs]; [lia |].
  rewrite Hxs. cbn [bindR].
  destruct (mapR _ (enumerate xs)) as [ys |] eqn:Hys; cbn [bindR]; [| discriminate].
  intros [= <-].
  destruct (mapR_enumerate_lookup _ _ _ Hys) as [_ Hl].
  assert (Hx : forall t, xs !! t =
             if first + Z.of_nat t * stride p <? last
             then h !! Z.to_nat (first + Z.of_nat t * stride p) else None).
  { intros t. apply slice_step_lookup_eq; (assumption || lia). }
  split.
  - intros t o Ho. specialize (Hl t). rewrite Hx in Hl.
    destruct (Z.ltb_spec (first + Z.of_nat t * stride p) last); [| congruence].
    split; [assumption |].
    destruct (h !! Z.to_nat (first + Z.of_nat t * stride p)) as [pred |]; [| congruence].
    destruct Hl as (y & Hy & Hc). rewrite Ho in Hy. injection Hy as <-.
    exists pred. split; [reflexivity |]. split; [exact Hc |].
    destruct (cp_pred_full_inv _ _ _ _ _ _ _ _ _ Hc) as (H1 & H2 & H3 & H4 & H5).
    destruct (ts_times_eq o pred H1 H2 H3). auto.
  - intros t Ho. specialize (Hl t). rewrite Hx in Hl.
    destruct (Z.ltb_spec (first + Z.of_nat t * stride p) last); [| now left].
    right. destruct (h !! Z.to_nat (first + Z.of_nat t * stride p)) as [pred |] eqn:Hp.
    + destruct Hl as (y & Hy & _). congruence.
    + apply lookup_ge_None in Hp. lia.
Qed.

(** X9. With [last_points_only=False], when forecasts were generated for the
    series and the body of the loop returns the list [outs], the range
    computation returned some [first] and [last] with [skip_n_train <= first
    < last], and the forecast number [t] of [outs] is the correction of the
    historical forecast number [first + t * stride], an index below [last]:
    it has the time stamps of that forecast, the columns of
    [_cp_component_names] and rows of [3 * width] values. The list ends
    where that index reaches [last] or the number of historical forecasts. *)
Theorem full_layout_outputs (cm : ConformalModel) (p : HfcParams) tri (i : nat)
    (s : TimeSeries) (h : list TimeSeries) (r : list (list (list num)))
    (outs : list TimeSeries) :
  1 <= stride p ->
  nothing_generated p (lpo:=false) h = false ->
  outcome (historical_forecasts_series cm p tri i s (lpo:=false) h r) = Ok (CpList outs) ->
  exists first last,
    outcome (forecast_range p i s (lpo:=false) h) = Ok (first, last) /\
    skip_n_train p <= first /\ 0 <= first < last /\
    (forall t o, outs !! t = Some o ->
       first + Z.of_nat t * stride p < last /\
       exists pred,
         h !! Z.to_nat (first + Z.of_nat t * stride p) = Some pred /\
         cp_pred_full cm p tri s first r t pred = Ok o /\
         ts_times o = ts_times pred /\ end_time o = end_time pred /\
         ts_components o = _cp_component_names s /\
         Forall (fun row => length row = (3 * ts_width s)%nat) (ts_values o)) /\
    (forall t, outs !! t = None ->
       last <= first + Z.of_nat t * stride p \/
       Z.of_nat (length h) <= first + Z.of_nat t * stride p).
Proof.
  intros Hst Hg Hrun.
  destruct (series_full_inv cm p tri i s h r _ Hg Hrun)
    as (first & last & Hr & Hskip & Hfl & _ & Hloop).
  exists first, last. split; [exact Hr |]. split; [exact Hskip |]. split; [exact Hfl |].
  apply (full_loop_outputs cm p tri s first last h r outs); (assumption || lia).
Qed.

(** X10. With [last_points_only=True], when the body of the loop returns a
    series [o], the range computation returned some [first] and [last] with
    [skip_n_train <= first < last]; [o] starts at the time stamp of the last
    point number [first], its step is [freq * stride], its columns are those
    of [_cp_component_names], and its row [t] is the correction of the last
    point number [first + t * stride], an index below [last]. When the last
    points have the step of the series, row [t] carries the time stamp of the
    point it corrects. *)
Theorem last_points_layout_outputs (cm : ConformalModel) (p : HfcParams) tri (i : nat)
    (s : TimeSeries) (h : TimeSeries) (r : list (list num)) (o : TimeSeries) :
  1 <= stride p ->
  outcome (historical_forecasts_series cm p tri i s (lpo:=true) h r) = Ok (CpSeries o) ->
  exists first last,
    outcome (forecast_range p i s (lpo:=true) h) = Ok (first, last) /\
    skip_n_train p <= first /\ 0 <= first < last /\
    time_index_at h first = Ok (ts_start o) /\
    ts_freq o = ts_freq s * stride p /\
    ts_components o = _cp_component_names s /\
    ts_values o <> [] /\
    (forall t row, ts_values o !! t = Some row ->
       first + Z.of_nat t * stride p < last /\
       length row = (3 * ts_width s)%nat /\
       exists pv,
         ts_values h !! Z.to_nat (first + Z.of_nat t * stride p) = Some pv /\
         cp_pred_lpo cm p first r t pv = Ok [row]) /\
    (forall t, ts_values o !! t = None ->
       last <= first + Z.of_nat t * stride p \/
       Z.of_nat (ts_len h) <= first + Z.of_nat t * stride p) /\
    (ts_freq h = ts_freq s ->
     forall t tm row, ts_entries o !! t = Some (tm, row) ->
       time_index_at h (first + Z.of_nat t * stride p) = Ok tm).
Proof.
  intros Hst. rewrite series_not_generated.
  destruct (nothing_generated p (lpo:=true) h); [discriminate |].
  rewrite outcome_bind.
  destruct (outcome (forecast_range p i s (lpo:=true) h)) as [[first last] |] eqn:Hr;
    [| discriminate].
  cbn [lift outcome snd fst conformal_loop].
  pose proof (forecast_range_nonneg p i s (lpo:=true) h first last Hr) as Hfl.
  pose proof (forecast_range_bounds p i s (lpo:=true) h first last Hr) as (Hskip & _ & _).
  destruct (slice_step_ok first last (stride p) (ts_values h)) as [xs Hxs]; [lia |].
  rewrite Hxs. cbn [bindR].
  destruct (mapR _ (enumerate xs)) as [ys |] eqn:Hys; cbn [bindR]; [| discriminate].
  intros Hrun.
  assert (Hne : ys <> []) by (intros ->; discriminate Hrun).
  rewrite np_concatenate_axis0_ok in Hrun by assumption. cbn [bindR] in Hrun.
  destruct (time_index_at h first) as [t0 |] eqn:Ht0; cbn [bindR] in Hrun; [| discriminate].
  destruct (_build_forecast_series _ _ _ _ _) as [o' |] eqn:Hb; cbn [bindR] in Hrun;
    [| discriminate].
  injection Hrun as ->.
  apply build_forecast_series_inv in Hb as (-> & _ & Hw).
  rewrite length_cp_component_names in Hw.
  cbn [ts_start ts_freq ts_components ts_values].
  destruct (mapR_enumerate_lookup _ _ _ Hys) as [Hlen Hl].
  assert (Hrows : Forall (fun b : list (list num) => exists row, b = [row]) ys).
  { apply Forall_lookup. intros t b Hb. specialize (Hl t).
    destruct (xs !! t) as [x |]; [| congruence].
    destruct Hl as (y & Hy & Hg). rewrite Hb in Hy. injection Hy as <-.
    eapply cp_pred_lpo_one_row. exact Hg. }
  destruct (concat_one_row ys Hrows) as [Hcl Hct].
  assert (Hx : forall t, xs !! t =
             if first + Z.of_nat t * stride p <? last
             then ts_values h !! Z.to_nat (first + Z.of_nat t * stride p) else None).
  { intros t. apply slice_step_lookup_eq; (assumption || lia). }
  assert (Hrow : forall t row, concat ys !! t = Some row ->
            first + Z.of_nat t * stride p < last /\
            exists pv,
              ts_values h !! Z.to_nat (first + Z.of_nat t * stride p) = Some pv /\
              cp_pred_lpo cm p first r t pv = Ok [row]).
  { intros t row Hrow. rewrite Hct in Hrow. specialize (Hl t). rewrite Hx in Hl.
    destruct (ys !! t) as [b |] eqn:Hb; [| discriminate]. cbn in Hrow.
    rewrite Forall_lookup in Hrows. destruct (Hrows _ _ Hb) as [row' ->].
    cbn in Hrow. injection Hrow as ->.
    destruct (Z.ltb_spec (first + Z.of_nat t * stride p) last); [| congruence].
    split; [assumption |].
    destruct (ts_values h !! Z.to_nat (first + Z.of_nat t * stride p)) as [pv |];
      [| congruence].
    destruct Hl as (y & Hy & Hc). injection Hy as <-. eauto. }
  exists first, last. split; [reflexivity |]. split; [exact Hskip |].
  split; [exact Hfl |]. split; [exact Ht0 |]. split; [reflexivity |].
  split; [reflexivity |]. split; [| split; [| split]].
  - intros E. apply Hne. apply length_zero_iff_nil.
    rewrite <- Hcl, E. reflexivity.
  - intros t row Hr0.
    destruct (Hrow t row Hr0) as [Hlt Hpv]. split; [exact Hlt |]. split; [| exact Hpv].
    rewrite Forall_lookup in Hw. eapply Hw. exact Hr0.
  - intros t Hnone. rewrite Hct in Hnone. specialize (Hl t). rewrite Hx in Hl.
    destruct (Z.ltb_spec (first + Z.of_nat t * stride p) last); [| now left].
    right. destruct (ts_values h !! Z.to_nat (first + Z.of_nat t * stride p)) as [pv |] eqn:Hp.
    + destruct Hl as (y & Hy & Hg). rewrite Hy in Hnone. cbn in Hnone.
      apply cp_pred_lpo_one_row in Hg as [row ->]. discriminate Hnone.
    + apply lookup_ge_None in Hp. unfold ts_len. lia.
  - intros Hfreq t tm row He. rewrite ts_entries_lookup in He.
    cbn [ts_values ts_start ts_freq] in He.
    destruct (concat ys !! t) as [row' |] eqn:Hr'; [| discriminate].
    cbn in He. injection He as <- <-.
    destruct (Hrow t row' Hr') as [Hlt (pv & Hpv & _)].
    apply lookup_lt_Some in Hpv.
    unfold time_index_at in *.
    assert (Hidx : 0 <= Z.of_nat t * stride p) by nia.
    replace (first + Z.of_nat t * stride p)
      with (Z.of_nat (Z.to_nat (first + Z.of_nat t * stride p))) by lia.
    rewrite norm_index_nat by (unfold ts_len; lia).
    destruct (Py.norm_index (ts_len h) first) as [k |] eqn:Hk; [| discriminate].
    injection Ht0 as <-.
    assert (Hk' : k = Z.to_nat first).
    { unfold Py.norm_index in Hk. destruct (Z.leb_spec 0 first); [| lia].
      destruct (first <? Z.of_nat (ts_len h)); [| discriminate].
      now injection Hk as <-. }
    subst k. rewrite Hfreq. f_equal. rewrite !Z2Nat.id by lia. ring.
Qed.

(** ** The end of the series and [overlap_end] *)

Lemma py_index_inv {A} (l : list A) (i : Z) (x : A) :
  Py.index l i = Ok x ->
  exists k, Py.norm_index (length l) i = Some k /\ l !! k = Some x.
Proof.
  unfold Py.index. destruct (Py.norm_index (length l) i) as [k |]; [| discriminate].
  destruct (l !! k) as [y |] eqn:Hy; [| discriminate].
  intros [= <-]. eauto.
Qed.

Lemma py_index_last {A} (l : list A) (x : A) :
  Py.index l (-1) = Ok x -> l !! (length l - 1)%nat = Some x /\ (1 <= length l)%nat.
Proof.
  intros H. apply py_index_inv in H as (k & Hk & Hx).
  pose proof (norm_index_lt _ _ _ Hk) as Hlt.
  unfold Py.norm_index in Hk. destruct (Z.leb_spec 0 (-1)); [lia |].
  destruct (Z.leb_spec (- Z.of_nat (length l)) (-1)); [| discriminate].
  injection Hk as <-.
  replace (length l - 1)%nat with (Z.to_nat (Z.of_nat (length l) + -1)) by lia.
  split; [exact Hx | lia].
Qed.

Lemma py_index_first {A} (l : list A) (x : A) :
  Py.index l 0 = Ok x -> l !! 0%nat = Some x.
Proof.
  intros H. apply py_index_inv in H as (k & Hk & Hx).
  unfold Py.norm_index in Hk. destruct (Z.leb_spec 0 0); [| lia].
  destruct (0 <? Z.of_nat (length l)); [| discriminate].
  injection Hk as <-. exact Hx.
Qed.

(** X11. With [overlap_end=False] and [last_points_only=False], when the wrapped
    model's forecasts for the series end one step of the series after
    another, on the time grid of the series, no forecast returned for the
    series ends after the end of the series. *)
Theorem no_forecast_past_the_end (cm : ConformalModel) (p : HfcParams) tri (i : nat)
    (s : TimeSeries) (h : list TimeSeries) (r : list (list (list num)))
    (outs : list TimeSeries) (e0 : Z) :
  overlap_end p = false -> 1 <= stride p -> 0 < ts_freq s ->
  (forall k fc, h !! k = Some fc -> end_time fc = e0 + Z.of_nat k * ts_freq s) ->
  (e0 - end_time s) mod ts_freq s = 0 ->
  outcome (historical_forecasts_series cm p tri i s (lpo:=false) h r) = Ok (CpList outs) ->
  Forall (fun o => end_time o <= end_time s) outs.
Proof.
  intros Hov Hst Hfreq Hgrid Hmod Hrun.
  destruct (nothing_generated p (lpo:=false) h) eqn:Hg.
  { rewrite series_not_generated, Hg in Hrun. injection Hrun as <-. constructor. }
  destruct (series_full_inv cm p tri i s h r _ Hg Hrun)
    as (first & last & _ & _ & Hfl & Hlast & Hloop).
  destruct (full_loop_outputs cm p tri s first last h r outs) as [Hsome _];
    try (assumption || lia).
  unfold last_fc_idx in Hlast. cbn [last_hfc_end hfcs_len] in Hlast.
  destruct (Py.index h (-1)) as [fcl |] eqn:Hfcl; cbn [bindR] in Hlast; [| discriminate].
  apply py_index_last in Hfcl as [Hfcl Hlen].
  rewrite Hov in Hlast. cbn [negb] in Hlast.
  destruct (Z.eqb_spec (Z.of_nat (length h)) 0) as [E | _]; [lia |].
  cbn [negb] in Hlast. injection Hlast as Hlast.
  pose proof (Hgrid _ _ Hfcl) as Hend. unfold n_steps_between in Hlast.
  set (d := end_time fcl - end_time s) in *.
  assert (Hd : d = ts_freq s * (d / ts_freq s)).
  { apply Z.div_exact; [lia |]. subst d. rewrite Hend.
    replace (e0 + Z.of_nat (length h - 1) * ts_freq s - end_time s)
      with (e0 - end_time s + Z.of_nat (length h - 1) * ts_freq s) by lia.
    now rewrite Z.mod_add by lia. }
  apply Forall_lookup. intros t o Ho.
  destruct (Hsome t o Ho) as (Hlt & pred & Hpred & _ & _ & -> & _).
  rewrite (Hgrid _ _ Hpred).
  assert (Hidx : 0 <= Z.of_nat t * stride p) by nia.
  rewrite Z2Nat.id by lia.
  set (j := first + Z.of_nat t * stride p) in *.
  assert (Hj : j <= Z.of_nat (length h) - 1 - d / ts_freq s) by lia.
  assert (Hjf : j * ts_freq s <= (Z.of_nat (length h) - 1 - d / ts_freq s) * ts_freq s)
    by (apply Z.mul_le_mono_nonneg_r; lia).
  replace (Z.of_nat (length h - 1)) with (Z.of_nat (length h) - 1) in Hend by lia.
  subst d. nia.
Qed.

(** ** A start within bounds *)

(** X12. With [last_points_only=False]: when the number of steps [k] from the
    first historical forecast to [start] is within bounds (at least
    [skip_n_train], below the last forecast index), the range of forecasts
    starts at [k] and no warning is emitted; the first forecast returned is
    the correction of the historical forecast number [k], and when the
    historical forecasts start one step of the series after another and
    [start] lies on their grid, it starts at [start]. *)
Theorem start_in_bounds_honoured (cm : ConformalModel) (p : HfcParams) tri (i : nat)
    (s : TimeSeries) (h : list TimeSeries) (r : list (list (list num)))
    (st tm k last : Z) :
  start p = Some st -> start_time_of p s st = Ok tm ->
  skip_of_start_time p s (lpo:=false) h tm = Ok k ->
  last_fc_idx p s (lpo:=false) h = Ok last ->
  out_of_bounds p k last = false ->
  1 <= stride p ->
  forecast_range p i s (lpo:=false) h = ([], Ok (k, last)) /\
  forall outs o,
    outcome (historical_forecasts_series cm p tri i s (lpo:=false) h r) = Ok (CpList outs) ->
    outs !! 0%nat = Some o ->
    trace (historical_forecasts_series cm p tri i s (lpo:=false) h r) = [] /\
    exists fc,
      h !! Z.to_nat k = Some fc /\ ts_times o = ts_times fc /\
      (0 < ts_freq s ->
       (forall fc0 j fcj, h !! 0%nat = Some fc0 -> h !! j = Some fcj ->
          start_time fcj = start_time fc0 + Z.of_nat j * ts_freq s) ->
       (forall fc0, h !! 0%nat = Some fc0 -> (tm - start_time fc0) mod ts_freq s = 0) ->
       start_time o = tm).
Proof.
  intros Hs Htm Hk Hlast Hoob Hst.
  assert (Hb : 0 <= k /\ k < last /\ skip_n_train p <= k).
  { unfold out_of_bounds in Hoob.
    apply orb_false_elim in Hoob as [Hoob H3]. apply orb_false_elim in Hoob as [H1 H2].
    lia. }
  assert (Hrange : forecast_range p i s (lpo:=false) h = ([], Ok (k, last))).
  { unfold forecast_range. rewrite Hlast, bind_lift.
    unfold skip_n_start. rewrite Hs, Htm, bind_lift, Hk, bind_lift, Hoob, bind_ret.
    rewrite Z.max_r by lia.
    destruct (Z.leb_spec last k); [lia | reflexivity]. }
  split; [exact Hrange |].
  intros outs o Hrun Ho.
  destruct (nothing_generated p (lpo:=false) h) eqn:Hg.
  { rewrite series_not_generated, Hg in Hrun. injection Hrun as <-. discriminate Ho. }
  split.
  { rewrite series_not_generated, Hg, trace_bind, Hrange. cbn [trace fst outcome snd lift].
    reflexivity. }
  destruct (series_full_inv cm p tri i s h r _ Hg Hrun)
    as (first & last' & Hr & _ & _ & _ & Hloop).
  rewrite Hrange in Hr. injection Hr as <- <-.
  destruct (full_loop_outputs cm p tri s k last h r outs) as [Hsome _];
    try (assumption || lia).
  destruct (Hsome 0%nat o Ho) as (_ & fc & Hfc & Hc & Htimes & _).
  replace (k + Z.of_nat 0 * stride p) with k in Hfc by lia.
  exists fc. split; [exact Hfc |]. split; [exact Htimes |].
  intros Hfreq Hgrid Hmod.
  unfold skip_of_start_time in Hk. cbn [first_hfc_start] in Hk.
  destruct (Py.index h 0) as [fc0 |] eqn:Hfc0; cbn [bindR] in Hk; [| discriminate].
  apply py_index_first in Hfc0. injection Hk as Hk.
  unfold n_steps_between in Hk.
  assert (Hso : start_time o = start_time fc).
  { unfold start_time. now destruct (cp_pred_full_inv _ _ _ _ _ _ _ _ _ Hc) as (H1 & _). }
  rewrite Hso, (Hgrid fc0 _ fc Hfc0 Hfc), Z2Nat.id by lia.
  specialize (Hmod fc0 Hfc0).
  pose proof (proj2 (Z.div_exact (tm - start_time fc0) (ts_freq s) ltac:(lia)) Hmod) as Hd.
  rewrite <- Hk. lia.
Qed.

(** ** A single series and a list of one series *)

(** X13. Called with a single series, [predict] and [historical_forecasts] make
    the calls and emit the events of the call with the list of that one
    series, and return the first element of its result; when that result is
    the empty list (the wrapped model returned nothing for the series) they
    raise [IndexError]. *)
Theorem single_series_is_first_of_list (cm : ConformalModel) (n ns : Z)
    (s : TimeSeries) (p : HfcParams) :
  (trace (predict cm n (SingleSeries s) ns) = trace (predict cm n (SeriesSeq [s]) ns) /\
   outcome (predict cm n (SingleSeries s) ns) =
     match outcome (predict cm n (SeriesSeq [s]) ns) with
     | Ok (PredMany (o :: _)) => Ok (PredOne o)
     | Ok (PredMany []) => Raise (IndexError "index out of range")
     | Ok (PredOne o) => Ok (PredOne o)
     | Raise e => Raise e
     end) /\
  (trace (historical_forecasts cm (SingleSeries s) p) =
     trace (historical_forecasts cm (SeriesSeq [s]) p) /\
   outcome (historical_forecasts cm (SingleSeries s) p) =
     match outcome (historical_forecasts cm (SeriesSeq [s]) p) with
     | Ok (HfcMany (o :: _)) => Ok (HfcOne o)
     | Ok (HfcMany []) => Raise (IndexError "index out of range")
     | Ok (HfcOne o) => Ok (HfcOne o)
     | Raise e => Raise e
     end).
Proof.
  split.
  - unfold predict. cbn [series2seq called_with_single].
    rewrite !bind_emit. cbn [trace fst outcome snd].
    rewrite !bind_lift. destruct (m_predict _ _) as [preds |]; [| auto].
    rewrite !bind_emit. cbn [trace fst outcome snd].
    rewrite !bind_lift. destruct (m_residuals _ _ _) as [res |]; [| auto].
    destruct (negb (String.eqb (method cm) "naive")); [auto |].
    rewrite !bind_lift. destruct (mapR _ _) as [[| o l] |]; [| | auto].
    + rewrite bind_lift.
      change (Py.index (@nil TimeSeries) 0)
        with (@Raise TimeSeries (IndexError "index out of range")).
      auto.
    + rewrite bind_lift. change (Py.index (o :: l) 0) with (Ok o). auto.
  - unfold historical_forecasts. cbn [series2seq called_with_single].
    rewrite !bind_emit. cbn [trace fst outcome snd].
    rewrite !bind_lift. destruct (m_historical_forecasts _ _) as [hfcs |]; [| auto].
    rewrite !bind_emit. cbn [trace fst outcome snd].
    rewrite !bind_lift. destruct (m_residuals _ _ _) as [res |]; [| auto].
    rewrite !bind_lift. change (Py.index [s] 0) with (Ok s). cbv iota.
    rewrite !bind_lift. destruct (_triul_indices _ _) as [tri |]; [| auto].
    destruct (map_trace _ _) as [w [[| o l] | e]]; cbn [bind ret].
    + rewrite bind_lift.
      change (Py.index (@nil CpOut) 0) with (@Raise CpOut (IndexError "index out of range")).
      cbn. rewrite !app_nil_r. auto.
    + rewrite bind_lift. change (Py.index (o :: l) 0) with (Ok o).
      cbn. rewrite !app_nil_r. auto.
    + auto.
Qed.

(** ** Warnings *)

Lemma map_trace_silent {A B} (f : A -> M B) (l : list A) :
  (forall x, trace (f x) = []) -> trace (map_trace f l) = [].
Proof.
  intros Hf. induction l as [| x l IH]; [reflexivity |].
  cbn [map_trace]. rewrite trace_bind, Hf.
  destruct (outcome (f x)); [| reflexivity].
  rewrite trace_bind, IH. destruct (outcome _); reflexivity.
Qed.

Lemma series_silent (cm : ConformalModel) (p : HfcParams) tri (i : nat)
    (s : TimeSeries) {lpo} (h : hfcs_t lpo) (r : res_t lpo) :
  start p = None \/ show_warnings p = false ->
  trace (historical_forecasts_series cm p tri i s h r) = [].
Proof.
  intros Hq. rewrite series_not_generated.
  destruct (nothing_generated p h); [reflexivity |].
  assert (Hskip : forall last, trace (skip_n_start p i s h last) = []).
  { intros last. unfold skip_n_start.
    destruct (start p) as [st |] eqn:Hs; [| reflexivity].
    destruct Hq as [Hq | Hq]; [discriminate |].
    rewrite bind_lift. destruct (start_time_of p s st); [| reflexivity].
    rewrite bind_lift. destruct (skip_of_start_time p s h _); [| reflexivity].
    destruct (out_of_bounds p _ last); [| reflexivity].
    unfold start_warning. rewrite Hq. reflexivity. }
  rewrite trace_bind.
  assert (Hrange : trace (forecast_range p i s h) = []).
  { unfold forecast_range. rewrite bind_lift.
    destruct (last_fc_idx p s h) as [last |]; [| reflexivity].
    rewrite trace_bind, Hskip. destruct (outcome _); [| reflexivity].
    destruct (last <=? _); reflexivity. }
  rewrite Hrange. destruct (outcome _); reflexivity.
Qed.

(** X14. Without [start], or with [show_warnings=False], [historical_forecasts]
    emits no warning: its only events are the call of the wrapped model's
    [historical_forecasts] and, when that call returns, the call of its
    [residuals]. *)
Theorem no_warning_unless_asked (cm : ConformalModel) (series : SeriesArg) (p : HfcParams) :
  start p = None \/ show_warnings p = false ->
  trace (historical_forecasts cm series p) =
    EvHistoricalForecasts (hfc_kwargs series p) ::
    match m_historical_forecasts (model cm) (hfc_kwargs series p) with
    | Ok _ => [EvResiduals (res_kwargs series p)]
    | Raise _ => []
    end.
Proof.
  intros Hq. unfold historical_forecasts. rewrite bind_emit. cbn [trace fst].
  fold (hfc_kwargs series p). f_equal.
  rewrite bind_lift.
  destruct (m_historical_forecasts (model cm) (hfc_kwargs series p)) as [hfcs |];
    [| reflexivity].
  rewrite bind_emit. cbn [trace fst]. f_equal.
  rewrite bind_lift. destruct (m_residuals _ _ _) as [res |]; [| reflexivity].
  rewrite bind_lift. destruct (Py.index _ 0) as [s0 |]; [| reflexivity].
  rewrite bind_lift. destruct (_triul_indices _ _) as [tri |]; [| reflexivity].
  rewrite trace_bind, map_trace_silent.
  2:{ intros [i [[s h] r]]. now apply series_silent. }
  destruct (outcome _); [| reflexivity].
  destruct (called_with_single series); [| reflexivity].
  rewrite bind_lift. destruct (Py.index _ 0); reflexivity.
Qed.

(** ** The calls made by [predict] *)

(** X17. For every method, the events of [predict] are the call of the wrapped
    model's [predict] and, when it returns, the call of its [residuals] for
    the horizon [n] with [last_points_only=False], [retrain=False] and
    [stride=1]; [predict] calls nothing else and emits no warning. *)
Theorem predict_wrapped_calls (cm : ConformalModel) (n : Z) (series : SeriesArg) (ns : Z) :
  trace (predict cm n series ns) =
    EvPredict (predict_kwargs n series ns) ::
    match m_predict (model cm) (predict_kwargs n series ns) with
    | Ok _ => [EvResiduals (predict_res_kwargs n series)]
    | Raise _ => []
    end /\
  rk_forecast_horizon (predict_res_kwargs n series) = Some n /\
  rk_last_points_only (predict_res_kwargs n series) = false /\
  rk_retrain (predict_res_kwargs n series) = Some false /\
  rk_stride (predict_res_kwargs n series) = Some 1.
Proof.
  split; [| repeat split].
  unfold predict. fold (predict_kwargs n series ns). fold (predict_res_kwargs n series).
  rewrite bind_emit. cbn [trace fst]. f_equal.
  rewrite bind_lift. destruct (m_predict _ _) as [preds |]; [| reflexivity].
  rewrite bind_emit. cbn [trace fst]. f_equal.
  rewrite bind_lift. destruct (m_residuals _ _ _) as [res |]; [| reflexivity].
  destruct (negb _); [reflexivity |].
  rewrite bind_lift. destruct (mapR _ _) as [cp |]; [| reflexivity].
  destruct (called_with_single series); [| reflexivity].
  rewrite bind_lift. destruct (Py.index cp 0); reflexivity.
Qed.

(** ** The first forecast without [start] *)

(** X18. Without [start], for arguments assumed valid ([valid_params]) and
    [last_points_only=False]: the range of forecasts starts at [skip_n_train = forecast_horizon (+
    train_length - 1)], so that the historical forecasts before that index
    are never returned (they only calibrate); when this index is below the
    number of historical forecasts and the body of the loop returns, the
    first forecast returned is the correction of the historical forecast
    number [skip_n_train]. *)
Theorem first_forecast_without_start (cm : ConformalModel) (p : HfcParams) tri (i : nat)
    (s : TimeSeries) (h : list TimeSeries) (r : list (list (list num)))
    (outs : list TimeSeries) :
  start p = None -> valid_params p ->
  nothing_generated p (lpo:=false) h = false ->
  outcome (historical_forecasts_series cm p tri i s (lpo:=false) h r) = Ok (CpList outs) ->
  exists last,
    forecast_range p i s (lpo:=false) h = ([], Ok (skip_n_train p, last)) /\
    (forall o, outs !! 0%nat = Some o ->
       exists fc, h !! Z.to_nat (skip_n_train p) = Some fc /\
                  cp_pred_full cm p tri s (skip_n_train p) r 0 fc = Ok o /\
                  ts_times o = ts_times fc) /\
    (skip_n_train p < Z.of_nat (length h) -> exists o, outs !! 0%nat = Some o).
Proof.
  intros Hs (Hfh & Hst & Htl) Hg Hrun.
  destruct (series_full_inv cm p tri i s h r _ Hg Hrun)
    as (first & last & Hr & Hskip & Hfl & Hlast & Hloop).
  assert (Hrange : forecast_range p i s (lpo:=false) h = ([], Ok (first, last)) /\
                   first = skip_n_train p).
  { unfold forecast_range in *. rewrite Hlast, bind_lift in *.
    unfold skip_n_start in *. rewrite Hs, bind_ret in *.
    assert (H0 : 0 <= skip_n_train p)
      by (unfold skip_n_train; destruct (train_length p); lia).
    rewrite Z.max_l in * by lia.
    destruct (last <=? skip_n_train p); [discriminate |].
    injection Hr as <-. auto. }
  destruct Hrange as [Hrange ->].
  destruct (full_loop_outputs cm p tri s (skip_n_train p) last h r outs) as [Hsome Hnone];
    try (assumption || lia).
  exists last. split; [exact Hrange |]. split.
  - intros o Ho. destruct (Hsome 0%nat o Ho) as (_ & fc & Hfc & Hc & Ht & _).
    replace (skip_n_train p + Z.of_nat 0 * stride p) with (skip_n_train p) in Hfc by lia.
    eauto.
  - intros Hlen. destruct (outs !! 0%nat) as [o |] eqn:Ho; [eauto |].
    destruct (Hnone 0%nat Ho); lia.
Qed.

(** ** [overlap_end] *)

Lemma prefix_of_lookup {A} (l' l : list A) :
  (length l' <= length l)%nat ->
  (forall t x, l' !! t = Some x -> l !! t = Some x) ->
  l' `prefix_of` l.
Proof.
  intros Hlen Hl. exists (drop (length l') l).
  rewrite <- (take_drop (length l') l) at 1. f_equal.
  apply list_eq. intros t.
  destruct (l' !! t) as [x |] eqn:Hx.
  - rewrite lookup_take_lt by (now apply lookup_lt_Some in Hx). now apply Hl.
  - apply lookup_ge_None in Hx. apply lookup_ge_None. rewrite length_take. lia.
Qed.

(** A selection of the inputs gives the same selection of the outputs. *)
Lemma mapR_enumerate_sel {A B} (f g : nat -> A -> result B) (sel : nat -> nat)
    (xs1 xss : list A) (ys1 : list B) :
  mapR (fun '(i, a) => f i a) (enumerate xs1) = Ok ys1 ->
  (forall t x, xss !! t = Some x -> xs1 !! sel t = Some x) ->
  (forall t x, g t x = f (sel t) x) ->
  exists yss,
    mapR (fun '(i, a) => g i a) (enumerate xss) = Ok yss /\
    length yss = length xss /\
    forall t y, yss !! t = Some y -> ys1 !! sel t = Some y.
Proof.
  intros H1 Hsel Hfg.
  destruct (mapR_enumerate_lookup f xs1 ys1 H1) as [_ Hys1].
  destruct (mapR_imap_ok g xss) as [yss Hyss].
  { intros t x Hx. apply Hsel in Hx. specialize (Hys1 (sel t)). rewrite Hx in Hys1.
    destruct Hys1 as (y & _ & Hy). exists y. now rewrite Hfg. }
  exists yss. split; [exact Hyss |].
  destruct (mapR_enumerate_lookup g xss yss Hyss) as [Hlen Hys].
  split; [exact Hlen |].
  intros t y Hy. specialize (Hys t). specialize (Hys1 (sel t)).
  destruct (xss !! t) as [x |] eqn:Hx; [| congruence].
  rewrite (Hsel _ _ Hx) in Hys1.
  destruct Hys as (y' & Hy' & Hg), Hys1 as (y1 & Hy1 & Hf).
  rewrite Hfg in Hg. congruence.
Qed.

Lemma slice_step_shorter {A} (first last last' st : Z) (l xs xs' : list A) :
  0 <= first -> 0 <= last' -> last' <= last -> 1 <= st ->
  Py.slice_step first last st l = Ok xs ->
  Py.slice_step first last' st l = Ok xs' ->
  forall t x, xs' !! t = Some x -> xs !! t = Some x.
Proof.
  intros Hf Hl' Hle Hst Hx Hx' t x.
  rewrite (slice_step_lookup_eq first last' st l xs' t) by (assumption || lia).
  rewrite (slice_step_lookup_eq first last st l xs t) by (assumption || lia).
  destruct (Z.ltb_spec (first + Z.of_nat t * st) last'); [| discriminate].
  destruct (Z.ltb_spec (first + Z.of_nat t * st) last); [auto | lia].
Qed.

Lemma slice_step_beyond {A} (first last last' st : Z) (l xs xs' : list A) :
  0 <= first -> 0 <= last' -> Z.of_nat (length l) <= last -> 1 <= st ->
  Py.slice_step first last st l = Ok xs ->
  Py.slice_step first last' st l = Ok xs' ->
  forall t x, xs' !! t = Some x -> xs !! t = Some x.
Proof.
  intros Hf Hl' Hle Hst Hx Hx' t x.
  rewrite (slice_step_lookup_eq first last' st l xs' t) by (assumption || lia).
  rewrite (slice_step_lookup_eq first last st l xs t) by (assumption || lia).
  destruct (Z.ltb_spec (first + Z.of_nat t * st) last'); [| discriminate].
  intros Hl. pose proof (lookup_lt_Some _ _ _ Hl) as Hlt.
  assert (Hidx : 0 <= Z.of_nat t * st) by nia.
  destruct (Z.ltb_spec (first + Z.of_nat t * st) last); [auto | lia].
Qed.

Lemma last_fc_idx_overlap (p : HfcParams) (s : TimeSeries) {lpo} (h : hfcs_t lpo)
    (last : Z) :
  last_fc_idx (with_overlap_end p true) s h = Ok last ->
  last = Z.of_nat (hfcs_len h) /\
  exists last', last_fc_idx (with_overlap_end p false) s h = Ok last'.
Proof.
  unfold last_fc_idx. cbn [with_overlap_end overlap_end negb].
  destruct (last_hfc_end h) as [e |]; cbn [bindR]; [| discriminate].
  intros [= <-]. split; [reflexivity |].
  destruct (negb _); eauto.
Qed.

Lemma conformal_loop_with_overlap_end (cm : ConformalModel) (p : HfcParams) (b : bool) tri
    (s : TimeSeries) (first last : Z) {lpo} (h : hfcs_t lpo) (r : res_t lpo) :
  conformal_loop cm (with_overlap_end p b) tri s first last h r =
  conformal_loop cm p tri s first last h r.
Proof. destruct p, lpo; reflexivity. Qed.

Lemma conformal_loop_shorter (cm : ConformalModel) (p : HfcParams) tri (s : TimeSeries)
    (first last' : Z) {lpo} (h : hfcs_t lpo) (r : res_t lpo) (o : CpOut) :
  0 <= first < last' -> 1 <= stride p ->
  conformal_loop cm p tri s first (Z.of_nat (hfcs_len h)) h r = Ok o ->
  exists o', conformal_loop cm p tri s first last' h r = Ok o' /\ truncated o o'.
Proof.
  intros Hfl Hst. destruct lpo; cbn [conformal_loop hfcs_len].
  - destruct (slice_step_ok first (Z.of_nat (ts_len h)) (stride p) (ts_values h))
      as [xs Hxs]; [lia |].
    destruct (slice_step_ok first last' (stride p) (ts_values h)) as [xs' Hxs']; [lia |].
    rewrite Hxs, Hxs'. cbn [bindR].
    destruct (mapR _ (enumerate xs)) as [ys |] eqn:Hys; cbn [bindR]; [| discriminate].
    destruct (mapR_enumerate_sel
                (fun idx pv => cp_pred_lpo cm p first r idx pv)
                (fun idx pv => cp_pred_lpo cm p first r idx pv)
                (fun t => t) xs xs' ys Hys) as (ys' & Hys' & Hlen' & Hsel).
    { apply (slice_step_beyond first (Z.of_nat (ts_len h)) last' (stride p) (ts_values h));
        try (assumption || lia). unfold ts_len. lia. }
    { reflexivity. }
    rewrite Hys'. cbn [bindR]. intros Hrun.
    assert (Hne : ys <> []) by (intros ->; discriminate Hrun).
    destruct (mapR_enumerate_lookup _ _ _ Hys) as [Hlen Hl].
    destruct (mapR_enumerate_lookup _ _ _ Hys') as [_ Hl'].
    assert (Hrows : Forall (fun b : list (list num) => exists row, b = [row]) ys).
    { apply Forall_lookup. intros t b Hb. specialize (Hl t).
      destruct (xs !! t) as [x |]; [| congruence].
      destruct Hl as (y & Hy & Hg). rewrite Hb in Hy. injection Hy as <-.
      eapply cp_pred_lpo_one_row. exact Hg. }
    assert (Hrows' : Forall (fun b : list (list num) => exists row, b = [row]) ys').
    { apply Forall_lookup. intros t b Hb. apply Hsel in Hb.
      rewrite Forall_lookup in Hrows. eapply Hrows. exact Hb. }
    destruct (concat_one_row ys Hrows) as [Hcl Hct].
    destruct (concat_one_row ys' Hrows') as [Hcl' Hct'].
    (* the first selected point is selected with the shorter range too *)
    assert (Hx0 : exists x0, xs !! 0%nat = Some x0).
    { destruct xs as [| x0 xs0]; [| eauto]. cbn in Hlen. destruct ys; [congruence | discriminate]. }
    destruct Hx0 as [x0 Hx0].
    assert (Hx0' : xs' !! 0%nat = Some x0).
    { rewrite (slice_step_lookup_eq first last' (stride p) (ts_values h) xs' 0)
        by (assumption || lia).
      rewrite (slice_step_lookup_eq first (Z.of_nat (ts_len h)) (stride p) (ts_values h) xs 0)
        in Hx0 by (assumption || lia).
      replace (first + Z.of_nat 0 * stride p) with first in * by lia.
      destruct (Z.ltb_spec first last'); [| lia].
      destruct (first <? Z.of_nat (ts_len h)); [exact Hx0 | discriminate]. }
    assert (Hne' : ys' <> []).
    { intros ->. cbn in Hlen'. apply lookup_lt_Some in Hx0'. lia. }
    rewrite np_concatenate_axis0_ok in Hrun by assumption.
    rewrite np_concatenate_axis0_ok by assumption. cbn [bindR] in *.
    destruct (time_index_at h first) as [t0 |]; cbn [bindR] in *; [| discriminate].
    destruct (_build_forecast_series (concat ys) _ _ _ _) as [s1 |] eqn:Hb1;
      cbn [bindR] in *; [| discriminate].
    injection Hrun as <-.
    apply build_forecast_series_inv in Hb1 as (-> & _ & Hw1).
    assert (Hpre : forall t row, concat ys' !! t = Some row -> concat ys !! t = Some row).
    { intros t row. rewrite Hct', Hct.
      destruct (ys' !! t) as [b |] eqn:Hb; [| discriminate].
      now rewrite (Hsel _ _ Hb). }
    rewrite build_forecast_series_ok.
    + eexists. split; [reflexivity |]. cbn [truncated ts_start ts_freq ts_components ts_values].
      repeat split. apply prefix_of_lookup; [| exact Hpre].
      rewrite Hcl, Hcl', Hlen, Hlen'.
      destruct (Nat.le_gt_cases (length xs') (length xs)) as [Hle | Hgt]; [exact Hle |].
      exfalso. destruct (lookup_lt_is_Some_2 xs' (length xs)) as [x Hx]; [lia |].
      pose proof (slice_step_beyond first (Z.of_nat (ts_len h)) last' (stride p)
                    (ts_values h) xs xs') as Hsb.
      assert (Hxx : xs !! length xs = Some x).
      { apply Hsb; try (assumption || lia). unfold ts_len. lia. }
      apply lookup_lt_Some in Hxx. lia.
    + exact Hcl'.
    + apply Forall_lookup. intros t row Hrow. apply Hpre in Hrow.
      rewrite Forall_lookup in Hw1. eapply Hw1. exact Hrow.
  - destruct (slice_step_ok first (Z.of_nat (length h)) (stride p) h) as [xs Hxs]; [lia |].
    destruct (slice_step_ok first last' (stride p) h) as [xs' Hxs']; [lia |].
    rewrite Hxs, Hxs'. cbn [bindR].
    destruct (mapR _ (enumerate xs)) as [ys |] eqn:Hys; cbn [bindR]; [| discriminate].
    intros [= <-].
    assert (Hxsel : forall t x, xs' !! t = Some x -> xs !! t = Some x).
    { apply (slice_step_beyond first (Z.of_nat (length h)) last' (stride p) h);
        (assumption || lia). }
    destruct (mapR_enumerate_sel
                (fun idx pred => cp_pred_full cm p tri s first r idx pred)
                (fun idx pred => cp_pred_full cm p tri s first r idx pred)
                (fun t => t) xs xs' ys Hys Hxsel) as (ys' & Hys' & Hlen' & Hsel);
      [reflexivity |].
    rewrite Hys'. cbn [bindR]. eexists. split; [reflexivity |].
    cbn [truncated]. apply prefix_of_lookup; [| exact Hsel].
    destruct (mapR_enumerate_lookup _ _ _ Hys) as [Hlen _].
    rewrite Hlen, Hlen'.
    destruct (Nat.le_gt_cases (length xs') (length xs)) as [Hle | Hgt]; [exact Hle |].
    exfalso. destruct (lookup_lt_is_Some_2 xs' (length xs)) as [x Hx]; [lia |].
    apply Hxsel, lookup_lt_Some in Hx. lia.
Qed.

(** The body of the loop for one series without [start]: when the run with
    [overlap_end=True] returns, the run with [overlap_end=False] emits no
    event and returns the beginning of its result, or raises the
    [ValueError] of lines 407 to 418 when no forecast index is left. *)
Lemma series_overlap_end (cm : ConformalModel) (p : HfcParams) tri (i : nat)
    (s : TimeSeries) {lpo} (h : hfcs_t lpo) (r : res_t lpo) (o : CpOut) :
  start p = None -> 1 <= stride p ->
  outcome (historical_forecasts_series cm (with_overlap_end p true) tri i s h r) = Ok o ->
  trace (historical_forecasts_series cm (with_overlap_end p true) tri i s h r) = [] /\
  trace (historical_forecasts_series cm (with_overlap_end p false) tri i s h r) = [] /\
  match outcome (historical_forecasts_series cm (with_overlap_end p false) tri i s h r) with
  | Ok o' => truncated o o'
  | Raise e => e = ValueError insufficient_msg
  end.
Proof.
  intros Hs Hst Hrun.
  split; [apply series_silent; now left |]. split; [apply series_silent; now left |].
  revert Hrun. rewrite !series_not_generated.
  replace (nothing_generated (with_overlap_end p false) h)
    with (nothing_generated (with_overlap_end p true) h) by (destruct p; reflexivity).
  destruct (nothing_generated (with_overlap_end p true) h).
  { intros [= <-]. cbn. exists []. reflexivity. }
  rewrite !outcome_bind.
  unfold forecast_range. rewrite !outcome_bind. cbn [lift outcome snd].
  destruct (last_fc_idx (with_overlap_end p true) s h) as [last |] eqn:Hlast;
    [| discriminate].
  destruct (last_fc_idx_overlap p s h last Hlast) as (-> & last' & Hlast').
  rewrite Hlast'.
  unfold skip_n_start. cbn [with_overlap_end start]. rewrite Hs, !bind_ret.
  replace (skip_n_train (with_overlap_end p true)) with (skip_n_train p)
    by (destruct p; reflexivity).
  replace (skip_n_train (with_overlap_end p false)) with (skip_n_train p)
    by (destruct p; reflexivity).
  set (first := Z.max (skip_n_train p) 0).
  destruct (Z.leb_spec (Z.of_nat (hfcs_len h)) first) as [| Hlt]; [discriminate |].
  cbn [raise_log ret outcome snd fst]. rewrite !conformal_loop_with_overlap_end.
  intros Hloop.
  destruct (Z.leb_spec last' first) as [| Hlt']; [reflexivity |].
  cbn [ret outcome snd fst]. rewrite conformal_loop_with_overlap_end.
  destruct (conformal_loop_shorter cm p tri s first last' h r o) as (o' & Ho' & Ht);
    [lia | lia | exact Hloop |].
  rewrite Ho'. exact Ht.
Qed.

Lemma map_trace_rel_or {A B} (f g : A -> M B) (R : B -> B -> Prop) (err : exn)
    (l : list A) (ys : list B) :
  (forall x y, outcome (f x) = Ok y ->
     trace (f x) = [] /\ trace (g x) = [] /\
     match outcome (g x) with Ok y' => R y y' | Raise e => e = err end) ->
  outcome (map_trace f l) = Ok ys ->
  trace (map_trace f l) = [] /\ trace (map_trace g l) = [] /\
  match outcome (map_trace g l) with
  | Ok ys' => Forall2 R ys ys'
  | Raise e => e = err
  end.
Proof.
  intros Hfg. revert ys. induction l as [| x l IH]; intros ys.
  - cbn. intros [= <-]. repeat split. constructor.
  - cbn [map_trace]. rewrite !trace_bind, !outcome_bind.
    destruct (outcome (f x)) as [y |] eqn:Hx; [| discriminate].
    destruct (Hfg x y Hx) as (Htf & Htg & Hg). rewrite Htf, Htg.
    rewrite !trace_bind, !outcome_bind.
    destruct (outcome (map_trace f l)) as [ys0 |] eqn:Hl; [| discriminate].
    destruct (IH ys0 eq_refl) as (Htl & Htl' & Hl').
    cbn [ret outcome snd trace fst]. intros [= <-]. rewrite Htl. split; [reflexivity |].
    destruct (outcome (g x)) as [y' |]; [| split; [reflexivity | exact Hg]].
    rewrite !trace_bind, !outcome_bind, Htl'.
    destruct (outcome (map_trace g l)) as [ys' |]; cbn.
    + split; [reflexivity |]. now constructor.
    + split; [reflexivity | exact Hl'].
Qed.

(** X23. Without [start], [overlap_end] only truncates the result: the wrapped
    model is called with [overlap_end=True] in both cases, and whenever the
    call with [overlap_end=True] returns, the call with [overlap_end=False]
    makes the same two calls, emits no warning, and either returns, for
    every series, the beginning of that result (the first forecasts of the
    list, or the first rows of the series of last points with the same
    start, step and columns), or raises the [ValueError] of lines 407 to 418
    because a series has no forecast index left before its end. *)
Theorem overlap_end_only_truncates (cm : ConformalModel) (series : SeriesArg)
    (p : HfcParams) (out : HfcOut) :
  start p = None -> 1 <= stride p ->
  outcome (historical_forecasts cm series (with_overlap_end p true)) = Ok out ->
  trace (historical_forecasts cm series (with_overlap_end p false)) =
    trace (historical_forecasts cm series (with_overlap_end p true)) /\
  match outcome (historical_forecasts cm series (with_overlap_end p false)) with
  | Ok out' => hfc_truncated out out'
  | Raise e => e = ValueError insufficient_msg
  end.
Proof.
  intros Hs Hst. unfold historical_forecasts.
  cbn [with_overlap_end num_samples forecast_horizon last_points_only].
  rewrite !bind_emit. cbn [outcome snd trace fst].
  rewrite !bind_lift.
  destruct (m_historical_forecasts (model cm) _) as [hfcs | e]; [| discriminate].
  rewrite !bind_emit. cbn [outcome snd trace fst].
  rewrite !bind_lift.
  destruct (m_residuals (model cm) _ _) as [res | e]; [| discriminate].
  rewrite !bind_lift. destruct (Py.index (series2seq series) 0) as [s0 | e]; [| discriminate].
  rewrite !bind_lift. destruct (_triul_indices _ _) as [tri | e]; [| discriminate].
  set (l := enumerate (zip3 (series2seq series) hfcs res)).
  set (fT := fun '(series_idx, (series_, s_hfcs, res0)) =>
               historical_forecasts_series cm (with_overlap_end p true) tri series_idx
                 series_ s_hfcs res0).
  set (fF := fun '(series_idx, (series_, s_hfcs, res0)) =>
               historical_forecasts_series cm (with_overlap_end p false) tri series_idx
                 series_ s_hfcs res0).
  rewrite !trace_bind, !outcome_bind.
  destruct (outcome (map_trace fT l)) as [ys |] eqn:HT; [| discriminate].
  destruct (map_trace_rel_or fT fF truncated (ValueError insufficient_msg) l ys)
    as (HtT & HtF & HF).
  { intros [i [[s h] r]] y Hy. subst fT fF. cbn beta iota.
    now apply series_overlap_end. }
  { exact HT. }
  rewrite HtT, HtF.
  assert (Hfin : forall zs : list CpOut,
            trace (if called_with_single series
                   then let* o := lift (Py.index zs 0) in ret (HfcOne o)
                   else ret (HfcMany zs)) = []).
  { intros zs. destruct (called_with_single series); [| reflexivity].
    rewrite bind_lift. destruct (Py.index zs 0); reflexivity. }
  rewrite Hfin.
  destruct (outcome (map_trace fF l)) as [ys' |]; [| intros _; split; [reflexivity | exact HF]].
  rewrite Hfin. intros Hout. split; [reflexivity |]. revert Hout.
  destruct (called_with_single series).
  - rewrite !outcome_bind. cbn [lift outcome snd].
    destruct HF as [| y y' ys0 ys0' Hy Hrest]; [discriminate |].
    change (Py.index (y :: ys0) 0) with (Ok y).
    change (Py.index (y' :: ys0') 0) with (Ok y').
    cbn. intros [= <-]. exact Hy.
  - cbn. intros [= <-]. exact HF.
Qed.

(** ** A pair of significance levels *)

Lemma cp_pred_lpo_pair (cm : ConformalModel) (p : HfcParams) (first : Z)
    (res : list (list num)) (idx : nat) (pv : list num) (lo hi : num) :
  alpha cm = APair lo hi -> first <> 0 ->
  is_ok (cp_pred_lpo cm p first res idx pv) = false.
Proof.
  intros Ha Hf. unfold cp_pred_lpo.
  destruct (Z.eqb_spec first 0); [contradiction |]. cbn [andb].
  now rewrite Ha.
Qed.

Lemma cp_pred_full_pair (cm : ConformalModel) (p : HfcParams) tri (s : TimeSeries)
    (first : Z) (res : list (list (list num))) (idx : nat) (pred : TimeSeries)
    (lo hi : num) :
  alpha cm = APair lo hi -> first <> 0 ->
  is_ok (cp_pred_full cm p tri s first res idx pred) = false.
Proof.
  intros Ha Hf. unfold cp_pred_full.
  destruct (Z.eqb_spec first 0); [contradiction |]. cbn [andb].
  destruct (cal_res_full p first idx res) as [c |]; [| reflexivity]. cbn [bindR].
  destruct (mask_cal_res p tri c) as [c' |]; [| reflexivity]. cbn [bindR].
  now rewrite Ha.
Qed.

Lemma series_pair_alpha (cm : ConformalModel) (p : HfcParams) tri (i : nat)
    (s : TimeSeries) {lpo} (h : hfcs_t lpo) (r : res_t lpo) (lo hi : num) (o : CpOut) :
  alpha cm = APair lo hi -> valid_params p ->
  outcome (historical_forecasts_series cm p tri i s h r) = Ok o -> o = CpList [].
Proof.
  intros Ha (Hh & Hst & Htl). rewrite series_not_generated.
  destruct (nothing_generated p h); [now intros [= <-] |].
  rewrite outcome_bind.
  destruct (outcome (forecast_range p i s h)) as [[first last] |] eqn:Hr; [| discriminate].
  cbn [fst snd lift outcome].
  destruct (forecast_range_bounds _ _ _ _ _ _ Hr) as (Hsk & Hlt & _).
  assert (Hf : first <> 0).
  { unfold skip_n_train in Hsk. destruct (train_length p); lia. }
  destruct lpo; cbn [conformal_loop].
  - destruct (slice_step_ok first last (stride p) (ts_values h)) as [xs Hxs]; [lia |].
    rewrite Hxs. cbn [bindR].
    destruct (mapR _ (enumerate xs)) as [ys |] eqn:Hys; cbn [bindR]; [| discriminate].
    destruct (mapR_enumerate_lookup _ _ _ Hys) as [Hlen Hl].
    destruct xs as [| x xs].
    + destruct ys; [| discriminate]. discriminate.
    + specialize (Hl 0%nat). cbn in Hl. destruct Hl as (y & _ & Hy).
      pose proof (cp_pred_lpo_pair cm p first r 0 x lo hi Ha Hf) as Hn.
      rewrite Hy in Hn. discriminate.
  - destruct (slice_step_ok first last (stride p) h) as [xs Hxs]; [lia |].
    rewrite Hxs. cbn [bindR].
    destruct (mapR _ (enumerate xs)) as [ys |] eqn:Hys; cbn [bindR]; [| discriminate].
    destruct (mapR_enumerate_lookup _ _ _ Hys) as [Hlen Hl].
    destruct xs as [| x xs].
    + destruct ys; [| discriminate]. now intros [= <-].
    + specialize (Hl 0%nat). cbn in Hl. destruct Hl as (y & _ & Hy).
      pose proof (cp_pred_full_pair cm p tri s first r 0 x lo hi Ha Hf) as Hn.
      rewrite Hy in Hn. discriminate.
Qed.

Lemma map_trace_outcome_Forall {A B} (f : A -> M B) (P : B -> Prop) (l : list A)
    (ys : list B) :
  (forall x y, outcome (f x) = Ok y -> P y) ->
  outcome (map_trace f l) = Ok ys -> Forall P ys.
Proof.
  intros Hf. revert ys. induction l as [| x l IH]; intros ys.
  - cbn. intros [= <-]. constructor.
  - cbn [map_trace]. rewrite outcome_bind.
    destruct (outcome (f x)) as [y |] eqn:Hx; [| discriminate].
    rewrite outcome_bind.
    destruct (outcome (map_trace f l)) as [ys0 |] eqn:Hl; [| discriminate].
    cbn. intros [= <-]. constructor; [now apply (Hf x) | now apply IH].
Qed.

(** X24. With a pair of significance levels, which the constructor accepts
    for every method but "naive", [historical_forecasts] computes no
    interval: whenever it returns, the result is the empty list for every
    series, as for a series without enough historical forecasts. *)
Theorem pair_alpha_never_calibrates (cm : ConformalModel) (series : SeriesArg)
    (p : HfcParams) (lo hi : num) (out : HfcOut) :
  alpha cm = APair lo hi -> valid_params p ->
  outcome (historical_forecasts cm series p) = Ok out ->
  no_forecasts out.
Proof.
  intros Ha Hv. unfold historical_forecasts.
  rewrite !bind_emit. cbn [outcome snd]. rewrite !bind_lift.
  destruct (m_historical_forecasts (model cm) _) as [hfcs | e]; [| discriminate].
  rewrite !bind_emit. cbn [outcome snd]. rewrite !bind_lift.
  destruct (m_residuals (model cm) _ _) as [res | e]; [| discriminate].
  rewrite !bind_lift. destruct (Py.index (series2seq series) 0) as [s0 | e]; [| discriminate].
  rewrite !bind_lift. destruct (_triul_indices _ _) as [tri | e]; [| discriminate].
  rewrite outcome_bind.
  destruct (outcome (map_trace _ _)) as [outs |] eqn:Hm; [| discriminate].
  assert (Hall : Forall (fun o => o = CpList []) outs).
  { revert Hm. apply map_trace_outcome_Forall.
    intros [i [[s h] r]] o. destruct (last_points_only p); now apply series_pair_alpha with (lo:=lo) (hi:=hi). }
  destruct (called_with_single series).
  - rewrite bind_lift. destruct (Py.index outs 0) as [o |] eqn:Ho; [| discriminate].
    cbn. intros [= <-]. cbn.
    apply py_index_inv in Ho. destruct Ho as (t & _ & Ht).
    rewrite Forall_lookup in Hall. eapply Hall. exact Ht.
  - cbn. intros [= <-]. exact Hall.
Qed.

End Further.

Section ScoreProperties.
Context `{FL : Float}.
Variable fgt : num -> num -> bool.
Variable fmul_int : Z -> num -> num.
Variable int_of_float : num -> sresult Z.

(** ** The CQR scores *)

Lemma getitem_Some {V} (d : gmap string V) (key : string) (v : V) :
  d !! key = Some v -> getitem d key = Returns v.
Proof. unfold getitem. now intros ->. Qed.

(** X19. The symmetric score is computed from the same two differences as the
    asymmetric one: whenever [cqr_score_asym] returns the two differences and
    the side, [cqr_score_sym] returns their [max] and the same side; they
    raise the same exceptions, and both return [[None, None]], a list of two
    elements in both functions, as soon as the lower quantile is [None]
    (whatever the rest of the row, even without the columns of the upper
    quantile and of y) or the upper quantile is. *)
Theorem cqr_score_sym_of_asym (row : gmap string (option num))
    (quantile_lo_col quantile_hi_col : string) :
  cqr_score_sym fgt row quantile_lo_col quantile_hi_col =
    match cqr_score_asym fgt row quantile_lo_col quantile_hi_col with
    | Returns [CFloat a; CFloat b; CInt arg] => Returns [CFloat (py_max fgt a b); CInt arg]
    | Returns cells => Returns cells
    | Raises e => Raises e
    end /\
  (row !! quantile_lo_col = None ->
   cqr_score_asym fgt row quantile_lo_col quantile_hi_col = Raises (KeyError quantile_lo_col)) /\
  (row !! quantile_lo_col = Some None ->
   cqr_score_asym fgt row quantile_lo_col quantile_hi_col = Returns [CNone; CNone]) /\
  (forall lo, row !! quantile_lo_col = Some (Some lo) ->
     row !! quantile_hi_col = Some None ->
     cqr_score_asym fgt row quantile_lo_col quantile_hi_col = Returns [CNone; CNone]).
Proof.
  split; [| split; [| split]].
  - unfold cqr_score_sym, cqr_score_asym.
    destruct (quantile_is_none row quantile_lo_col quantile_hi_col) as [[|] | e];
      cbn [bindS]; try reflexivity.
    destruct (lo_minus_y row quantile_lo_col) as [a | e]; cbn [bindS]; [| reflexivity].
    destruct (y_minus_hi row quantile_hi_col) as [b | e]; cbn [bindS]; [| reflexivity].
    destruct (score_arg fgt row quantile_lo_col quantile_hi_col) as [arg | e];
      reflexivity.
  - intros H. unfold cqr_score_asym, quantile_is_none, getitem. now rewrite H.
  - intros H. unfold cqr_score_asym, quantile_is_none, getitem. now rewrite H.
  - intros lo Hlo Hhi. unfold cqr_score_asym, quantile_is_none, getitem.
    now rewrite Hlo, Hhi.
Qed.

(** X20. For a row with the two quantiles and y, and a comparison of floats that
    is irreflexive and asymmetric (as [>] on floats is, NaN included), the
    symmetric score is one of the two differences [lo - y] and [y - hi],
    neither of them is greater than it, and the side is 0 exactly when [lo -
    y > y - hi], in which case the score is [lo - y]; when [y - hi > lo - y]
    the score is [y - hi] and the side is 1. *)
Theorem cqr_score_sym_is_max (row : gmap string (option num))
    (quantile_lo_col quantile_hi_col : string) (lo hi y : num) :
  (forall a, fgt a a = false) ->
  (forall a b, fgt a b = true -> fgt b a = false) ->
  row !! quantile_lo_col = Some (Some lo) ->
  row !! quantile_hi_col = Some (Some hi) ->
  row !! "y"%string = Some (Some y) ->
  exists score arg,
    cqr_score_sym fgt row quantile_lo_col quantile_hi_col =
      Returns [CFloat score; CInt arg] /\
    (score = fsub lo y \/ score = fsub y hi) /\
    fgt (fsub lo y) score = false /\ fgt (fsub y hi) score = false /\
    (arg = 0 \/ arg = 1) /\
    (arg = 0 <-> fgt (fsub lo y) (fsub y hi) = true) /\
    (arg = 0 -> score = fsub lo y) /\
    (fgt (fsub y hi) (fsub lo y) = true -> score = fsub y hi /\ arg = 1).
Proof.
  intros Hirr Hasym Hlo Hhi Hy.
  unfold cqr_score_sym, quantile_is_none, score_arg, lo_minus_y, y_minus_hi.
  rewrite !(getitem_Some _ _ _ Hlo), !(getitem_Some _ _ _ Hhi), !(getitem_Some _ _ _ Hy).
  cbn [bindS sub_opt].
  set (a := fsub lo y). set (b := fsub y hi).
  eexists _, _. split; [reflexivity |]. unfold py_max.
  destruct (fgt b a) eqn:Hba, (fgt a b) eqn:Hab.
  - rewrite (Hasym _ _ Hba) in Hab. discriminate.
  - rewrite Hirr. repeat split; auto; try discriminate; intros; discriminate.
  - rewrite Hirr, Hba. repeat split; auto; try discriminate.
  - rewrite Hirr, Hba. repeat split; auto; try discriminate; intros; discriminate.
Qed.

(** ** [_get_q_hat] *)

Lemma of_result_index (scores : list num) (i : Z) :
  of_result (Py.index scores i) =
  match Py.norm_index (length scores) i with
  | Some k =>
      match scores !! k with
      | Some x => Returns x
      | None => Raises (Builtin (IndexError "index out of range"))
      end
  | None => Raises (Builtin (IndexError "index out of range"))
  end.
Proof.
  unfold Py.index. destruct (Py.norm_index _ _) as [k |]; [| reflexivity].
  destruct (scores !! k); reflexivity.
Qed.

Lemma norm_index_neg (n : nat) (k : Z) :
  Py.norm_index n (- k) =
  if (- Z.of_nat n <? k) && (k <=? Z.of_nat n)
  then Some (Z.to_nat ((Z.of_nat n - k) mod Z.of_nat n)) else None.
Proof.
  unfold Py.norm_index.
  destruct (Z.leb_spec 0 (- k)).
  - destruct (Z.ltb_spec (- k) (Z.of_nat n)).
    + destruct (Z.ltb_spec (- Z.of_nat n) k); [| lia].
      destruct (Z.leb_spec k (Z.of_nat n)); [| lia]. cbn [andb]. do 2 f_equal.
      replace (Z.of_nat n - k) with (- k + 1 * Z.of_nat n) by lia.
      rewrite Z.mod_add by lia. rewrite Z.mod_small; lia.
    + destruct (Z.ltb_spec (- Z.of_nat n) k); [lia | reflexivity].
  - destruct (Z.ltb_spec (- Z.of_nat n) k); [| lia]. cbn [andb].
    destruct (Z.leb_spec (- Z.of_nat n) (- k)).
    + destruct (Z.leb_spec k (Z.of_nat n)); [| lia]. do 2 f_equal.
      destruct (Z.eq_dec k (Z.of_nat n)) as [-> | Hne].
      * rewrite Z.sub_diag, Z.mod_0_l by lia. lia.
      * rewrite Z.mod_small by lia. lia.
    + destruct (Z.leb_spec k (Z.of_nat n)); [lia | reflexivity].
Qed.

(** X21. In the symmetric branch (any method but "cqr", or a symmetrical model)
    with a float [alpha], for the scores under the key "noncon_scores" and
    [k = int(len(scores) * alpha)]: [_get_q_hat] returns the dictionary with
    the one key "q_hat_sym", whose value is [scores[(len - k) mod len]] when
    [-len < k <= len], and raises [IndexError] otherwise, in particular for
    empty scores. So [k = 0] (fewer than [1 / alpha] scores) selects the first
    score, [scores[-0] = scores[0]], as [k = len] does, and [k = 1] the last
    one. *)
Theorem get_q_hat_sym (cm : ConformalModel) (noncon_scores : gmap string (list num))
    (scores : list num) (a : num) (k : Z) :
  method cm <> "cqr"%string \/ symmetrical cm = true ->
  alpha cm = AFloat a ->
  noncon_scores !! "noncon_scores"%string = Some scores ->
  int_of_float (fmul_int (Z.of_nat (length scores)) a) = Returns k ->
  let len := Z.of_nat (length scores) in
  _get_q_hat fmul_int int_of_float cm noncon_scores =
    (if (- len <? k) && (k <=? len)
     then match scores !! Z.to_nat ((len - k) mod len) with
          | Some x => Returns (<["q_hat_sym"%string := x]> ∅)
          | None => Raises (Builtin (IndexError "index out of range"))
          end
     else Raises (Builtin (IndexError "index out of range"))) /\
  (k = 0 ->
   _get_q_hat fmul_int int_of_float cm noncon_scores =
     match scores with
     | x :: _ => Returns (<["q_hat_sym"%string := x]> ∅)
     | [] => Raises (Builtin (IndexError "index out of range"))
     end) /\
  (1 <= k <= len ->
   exists x, scores !! Z.to_nat (len - k) = Some x /\
     _get_q_hat fmul_int int_of_float cm noncon_scores =
       Returns (<["q_hat_sym"%string := x]> ∅)).
Proof.
  intros Hsym Ha Hs Hk len.
  assert (Hbranch : String.eqb (method cm) "cqr" && negb (symmetrical cm) = false).
  { destruct Hsym as [Hm | Hm].
    - apply String.eqb_neq in Hm. now rewrite Hm.
    - rewrite Hm. apply andb_false_r. }
  assert (Hrun : _get_q_hat fmul_int int_of_float cm noncon_scores =
                 let? q_hat := of_result (Py.index scores (- k)) in
                 Returns (<["q_hat_sym"%string := q_hat]> ∅)).
  { unfold _get_q_hat. rewrite Hbranch, (getitem_Some _ _ _ Hs). cbn [bindS].
    rewrite Ha. unfold q_hat_idx_alpha, q_hat_idx. rewrite Hk. reflexivity. }
  rewrite Hrun, of_result_index, norm_index_neg. fold len.
  split; [| split].
  - destruct ((- len <? k) && (k <=? len)); [| reflexivity].
    destruct (scores !! _); reflexivity.
  - intros ->. subst len. destruct scores as [| x scores]; [reflexivity |].
    destruct (Z.ltb_spec (- Z.of_nat (length (x :: scores))) 0); [| cbn [length] in *; lia].
    destruct (Z.leb_spec 0 (Z.of_nat (length (x :: scores)))); [| lia].
    cbn [andb]. rewrite Z.sub_0_r, Z.mod_same by (cbn [length]; lia).
    reflexivity.
  - intros Hk1.
    destruct (Z.ltb_spec (- len) k); [| lia]. destruct (Z.leb_spec k len); [| lia].
    cbn [andb].
    assert (Hidx : Z.to_nat ((len - k) mod len) = Z.to_nat (len - k)).
    { destruct (Z.eq_dec k len) as [-> | Hne].
      - rewrite Z.sub_diag, Z.mod_0_l by lia. reflexivity.
      - rewrite Z.mod_small by lia. reflexivity. }
    rewrite Hidx.
    destruct (lookup_lt_is_Some_2 scores (Z.to_nat (len - k))) as [x Hx]; [subst len; lia |].
    exists x. rewrite Hx. auto.
Qed.

Lemma index_elem (scores : list num) (i : Z) (x : num) :
  of_result (Py.index scores i) = Returns x -> x ∈ scores.
Proof.
  rewrite of_result_index. destruct (Py.norm_index _ _) as [k |]; [| discriminate].
  destruct (scores !! k) as [y |] eqn:Hy; [| discriminate].
  intros [= <-]. eapply list_elem_of_lookup_2. exact Hy.
Qed.

(** X22. Whenever [_get_q_hat] returns, its values are elements of the score
    arrays it was given: either the method is "cqr", the model is not
    symmetrical and the result has the keys "q_hat_lo" and "q_hat_hi", taken
    from the arrays under "noncon_scores_lo" and "noncon_scores_hi", or the
    result has the one key "q_hat_sym", taken from the array under
    "noncon_scores". It never returns for an empty array or a missing key. *)
Theorem get_q_hat_returns_a_score (cm : ConformalModel)
    (noncon_scores : gmap string (list num)) (d : gmap string num) :
  _get_q_hat fmul_int int_of_float cm noncon_scores = Returns d ->
  (method cm = "cqr"%string /\ symmetrical cm = false /\
   exists lo hi q_lo q_hi,
     noncon_scores !! "noncon_scores_lo"%string = Some lo /\
     noncon_scores !! "noncon_scores_hi"%string = Some hi /\
     q_lo ∈ lo /\ q_hi ∈ hi /\
     d = <["q_hat_lo"%string := q_lo]> (<["q_hat_hi"%string := q_hi]> ∅)) \/
  ((method cm <> "cqr"%string \/ symmetrical cm = true) /\
   exists scores q,
     noncon_scores !! "noncon_scores"%string = Some scores /\
     q ∈ scores /\
     d = <["q_hat_sym"%string := q]> ∅).
Proof.
  unfold _get_q_hat.
  destruct (String.eqb_spec (method cm) "cqr") as [Hm | Hm];
    destruct (symmetrical cm) eqn:Hsym; cbn [andb negb].
  2:{ (* cqr, not symmetrical *)
    unfold getitem.
    destruct (noncon_scores !! "noncon_scores_lo"%string) as [lo |] eqn:Hlo;
      cbn [bindS]; [| discriminate].
    destruct (noncon_scores !! "noncon_scores_hi"%string) as [hi |] eqn:Hhi;
      cbn [bindS]; [| discriminate].
    destruct (alpha_lo cm) as [alo |]; cbn [bindS]; [| discriminate].
    destruct (q_hat_idx fmul_int int_of_float lo alo) as [klo |]; cbn [bindS];
      [| discriminate].
    destruct (alpha_hi cm) as [ahi |]; cbn [bindS]; [| discriminate].
    destruct (q_hat_idx fmul_int int_of_float hi ahi) as [khi |]; cbn [bindS];
      [| discriminate].
    destruct (of_result (Py.index lo (- klo))) as [qlo |] eqn:Hqlo; cbn [bindS];
      [| discriminate].
    destruct (of_result (Py.index hi (- khi))) as [qhi |] eqn:Hqhi; cbn [bindS];
      [| discriminate].
    intros [= <-]. left. split; [exact Hm |]. split; [reflexivity |].
    exists lo, hi, qlo, qhi. repeat split; eauto using index_elem. }
  all: unfold getitem;
    destruct (noncon_scores !! "noncon_scores"%string) as [scores |] eqn:Hs;
      cbn [bindS]; [| discriminate];
    destruct (q_hat_idx_alpha fmul_int int_of_float scores (alpha cm)) as [k |];
      cbn [bindS]; [| discriminate];
    destruct (of_result (Py.index scores (- k))) as [q |] eqn:Hq; cbn [bindS];
      [| discriminate];
    intros [= <-]; right; (split; [auto |]);
    exists scores, q; repeat split; eauto using index_elem.
Qed.

End ScoreProperties.

Section MetricsProperties.
Context `{FL : Float}.
Variable np_mean : list num -> num.
Variable fle : num -> num -> bool.
Variable fge : num -> num -> bool.
Variable int_truediv : Z -> Z -> num.
Variable of_int : Z -> num.

(** ** The evaluation metrics *)

Lemma np_sum_bool_bounds (l : list bool) : 0 <= np_sum_bool l <= Z.of_nat (length l).
Proof.
  induction l as [| b l IH]; cbn [np_sum_bool foldr length]; [lia |].
  fold (np_sum_bool l). destruct b; lia.
Qed.

Lemma np_sum_bool_all (l : list bool) :
  np_sum_bool l = Z.of_nat (length l) <-> Forall (fun b => b = true) l.
Proof.
  induction l as [| b l IH]; cbn [np_sum_bool foldr length].
  - split; [constructor | reflexivity].
  - fold (np_sum_bool l). pose proof (np_sum_bool_bounds l) as Hb.
    rewrite Forall_cons, <- IH. destruct b.
    + split; [intros H; split; [reflexivity | lia] | intros [_ H]; lia].
    + split; [lia | intros [H _]; discriminate].
Qed.

Lemma np_sum_bool_mono (l l' : list bool) :
  Forall2 (fun b b' => b = true -> b' = true) l l' -> np_sum_bool l <= np_sum_bool l'.
Proof.
  induction 1 as [| b b' l l' Hb _ IH]; cbn [np_sum_bool foldr]; [lia |].
  fold (np_sum_bool l) (np_sum_bool l').
  destruct b, b'; lia || (specialize (Hb eq_refl); discriminate).
Qed.

Lemma np_broadcast1_same {A B C} (op : A -> B -> C) (a : list A) (b : list B) :
  length a = length b -> np_broadcast1 op a b = Ok (zip_with op a b).
Proof.
  intros H. unfold np_broadcast1. now rewrite H, Nat.eqb_refl.
Qed.

Lemma evaluate_metrics_same_length (y yhat_lo yhat_hi : list num) :
  length yhat_lo = length y -> length yhat_hi = length y ->
  _get_evaluate_metrics_from_dataset np_mean fle fge int_truediv of_int y yhat_lo yhat_hi =
    Ok (fsub (np_mean yhat_hi) (np_mean yhat_lo),
        fsub (of_int 1)
             (int_truediv (covered_count fle fge y yhat_lo yhat_hi)
                          (Z.of_nat (length y)))).
Proof.
  intros Hlo Hhi. unfold _get_evaluate_metrics_from_dataset, covered_count.
  rewrite (np_broadcast1_same fge) by congruence. cbn [bindR].
  rewrite (np_broadcast1_same fle) by congruence. cbn [bindR].
  rewrite (np_broadcast1_same andb); [reflexivity |].
  rewrite !length_zip_with. lia.
Qed.

Lemma covered_lookup (y yhat_lo yhat_hi : list num) (i : nat) :
  zip_with andb (zip_with fge y yhat_lo) (zip_with fle y yhat_hi) !! i =
  match y !! i, yhat_lo !! i, yhat_hi !! i with
  | Some yi, Some li, Some ui => Some (fge yi li && fle yi ui)
  | _, _, _ => None
  end.
Proof.
  rewrite !lookup_zip_with.
  destruct (y !! i) as [yi |]; cbn; [| reflexivity].
  destruct (yhat_lo !! i) as [li |]; cbn; [| reflexivity].
  destruct (yhat_hi !! i) as [ui |]; reflexivity.
Qed.

(** X25. For three arrays of one length the metrics are the difference of
    the means of the two bounds and one minus the share of the points [y[i]]
    with [yhat_lo[i] <= y[i] <= yhat_hi[i]]: the number of these points lies
    between zero and [len(y)], and it is [len(y)] exactly when every point
    lies in its interval. *)
Theorem evaluate_metrics_spec (y yhat_lo yhat_hi : list num) :
  length yhat_lo = length y -> length yhat_hi = length y ->
  let n_covered := covered_count fle fge y yhat_lo yhat_hi in
  _get_evaluate_metrics_from_dataset np_mean fle fge int_truediv of_int y yhat_lo yhat_hi =
    Ok (fsub (np_mean yhat_hi) (np_mean yhat_lo),
        fsub (of_int 1) (int_truediv n_covered (Z.of_nat (length y)))) /\
  0 <= n_covered <= Z.of_nat (length y) /\
  (n_covered = Z.of_nat (length y) <->
   forall i yi li ui,
     y !! i = Some yi -> yhat_lo !! i = Some li -> yhat_hi !! i = Some ui ->
     fge yi li = true /\ fle yi ui = true).
Proof.
  intros Hlo Hhi n_covered.
  assert (Hlen : length (zip_with andb (zip_with fge y yhat_lo) (zip_with fle y yhat_hi)) =
                 length y) by (rewrite !length_zip_with; lia).
  split; [now apply evaluate_metrics_same_length |].
  subst n_covered. unfold covered_count.
  pose proof (np_sum_bool_bounds
                (zip_with andb (zip_with fge y yhat_lo) (zip_with fle y yhat_hi))) as Hb.
  rewrite Hlen in Hb. split; [exact Hb |].
  rewrite <- Hlen, np_sum_bool_all, Forall_lookup. split.
  - intros H i yi li ui Hy Hl Hu. apply andb_true_iff. apply (H i).
    now rewrite covered_lookup, Hy, Hl, Hu.
  - intros H i b. rewrite covered_lookup.
    destruct (y !! i) as [yi |] eqn:Hy; [| discriminate].
    destruct (yhat_lo !! i) as [li |] eqn:Hl; [| discriminate].
    destruct (yhat_hi !! i) as [ui |] eqn:Hu; [| discriminate].
    intros [= <-]. apply andb_true_iff. now apply (H i).
Qed.

(** X26. Wider intervals cover at least as many points. When [<=] on floats
    is transitive and [a >= b] is [b <= a], and every lower bound is lowered
    and every upper bound raised (or kept), the metrics of the new bounds are
    computed from a number of covered points at least as large. *)
Theorem wider_intervals_cover_more (y yhat_lo yhat_hi lo' hi' : list num) :
  (forall a b c, fle a b = true -> fle b c = true -> fle a c = true) ->
  (forall a b, fge a b = fle b a) ->
  length yhat_lo = length y -> length yhat_hi = length y ->
  Forall2 (fun l' l => fle l' l = true) lo' yhat_lo ->
  Forall2 (fun u u' => fle u u' = true) yhat_hi hi' ->
  _get_evaluate_metrics_from_dataset np_mean fle fge int_truediv of_int y lo' hi' =
    Ok (fsub (np_mean hi') (np_mean lo'),
        fsub (of_int 1)
             (int_truediv (covered_count fle fge y lo' hi') (Z.of_nat (length y)))) /\
  covered_count fle fge y yhat_lo yhat_hi <= covered_count fle fge y lo' hi'.
Proof.
  intros Htr Hge Hlo Hhi Hl Hu.
  pose proof (Forall2_length _ _ _ Hl) as Hll.
  pose proof (Forall2_length _ _ _ Hu) as Hlu.
  split; [apply evaluate_metrics_same_length; congruence |].
  unfold covered_count. apply np_sum_bool_mono.
  apply Forall2_same_length_lookup. split.
  - rewrite !length_zip_with. lia.
  - intros i b b'. rewrite !covered_lookup.
    destruct (y !! i) as [yi |] eqn:Hy; [| discriminate].
    destruct (yhat_lo !! i) as [li |] eqn:Hli; [| discriminate].
    destruct (yhat_hi !! i) as [ui |] eqn:Hui; [| discriminate].
    intros [= <-].
    destruct (Forall2_lookup_r _ _ _ _ _ Hl Hli) as (li' & Hli' & Hle1).
    destruct (Forall2_lookup_l _ _ _ _ _ Hu Hui) as (ui' & Hui' & Hle2).
    rewrite Hli', Hui'. intros [= <-].
    rewrite !andb_true_iff, !Hge. intros [H1 H2].
    split; eapply Htr; eassumption.
Qed.

Lemma np_broadcast1_mismatch {A B C} (op : A -> B -> C) (a : list A) (b : list B) :
  length a <> length b -> length a <> 1%nat -> length b <> 1%nat ->
  np_broadcast1 op a b = Raise (ValueError "operands could not be broadcast together").
Proof.
  intros Hne Ha Hb. unfold np_broadcast1.
  destruct (Nat.eqb_spec (length a) (length b)); [contradiction |].
  destruct a as [| a0 [| a1 a]]; destruct b as [| b0 [| b1 b]];
    cbn in *; try reflexivity; congruence.
Qed.

(** X27. An array of bounds whose length is neither [len(y)] nor one is
    refused when [y] has not exactly one element: a comparison raises
    [ValueError] and no metric is returned. *)
Theorem evaluate_metrics_shape_mismatch (y yhat_lo yhat_hi : list num) :
  length y <> 1%nat ->
  (length yhat_lo <> length y /\ length yhat_lo <> 1%nat) \/
  (length yhat_hi <> length y /\ length yhat_hi <> 1%nat) ->
  exists msg,
    _get_evaluate_metrics_from_dataset np_mean fle fge int_truediv of_int y yhat_lo yhat_hi =
      Raise (ValueError msg).
Proof.
  intros Hy H. unfold _get_evaluate_metrics_from_dataset.
  destruct (np_broadcast1 fge y yhat_lo) as [above | e] eqn:Ha.
  - cbn [bindR]. destruct H as [[H1 H2] | [H1 H2]].
    + rewrite np_broadcast1_mismatch in Ha by congruence. discriminate.
    + rewrite np_broadcast1_mismatch by congruence. cbn [bindR]. eauto.
  - cbn [bindR]. revert Ha. unfold np_broadcast1.
    destruct (Nat.eqb (length y) (length yhat_lo)); [discriminate |].
    destruct y as [| y0 [| y1 y]]; destruct yhat_lo as [| l0 [| l1 lo]];
      intros [= <-]; eauto.
Qed.

End MetricsProperties.

(** * Concrete runs

    The properties above at concrete inputs, and the inputs at which the
    code departs from a statement. The wrapped model repeats the last
    observed row; numbers are exact rationals. *)

Import Exact Inputs.

Lemma init_raises_iff_witness :
  exists e, init toy_model (APair half half) "naive" = Raise e.
Proof.
  apply (proj1 (init_raises_iff toy_model (APair half half) "naive" half)).
  right. split; reflexivity.
Defined.

Lemma predict_not_naive_witness :
  method cqr_cm <> "naive"%string /\
  predict cqr_cm 1 (SingleSeries s5) 1 =
    ([EvPredict {| pk_n := 1; pk_series := [s5]; pk_num_samples := 1 |};
      EvResiduals {| rk_series := [s5]; rk_from_historical_forecasts := false;
                     rk_forecast_horizon := Some 1; rk_overlap_end := None;
                     rk_last_points_only := false; rk_retrain := Some false;
                     rk_stride := Some 1; rk_values_only := true |}],
     Raise (NotImplementedError "non-naive not yet implemented")).
Proof.
  assert (H : method cqr_cm <> "naive"%string) by discriminate.
  split; [exact H |].
  eapply (proj2 (predict_not_naive cqr_cm 1 (SingleSeries s5) 1 H)); reflexivity.
Defined.

(** C3 (as stated) fails: called with [last_points_only=True], the wrapped
    model's [historical_forecasts] is called with [last_points_only=True]. *)
Lemma wrapped_calls_counterexample :
  ~ (forall kw,
       In (EvHistoricalForecasts kw)
          (trace (historical_forecasts naive_cm (SingleSeries s5) p_lpo)) ->
       hk_overlap_end kw = true /\ hk_last_points_only kw = false).
Proof.
  intros H.
  destruct (H (hfc_kwargs (SingleSeries s5) p_lpo)) as [_ Hf].
  - destruct (historical_forecasts_trace naive_cm (SingleSeries s5) p_lpo) as [rest [-> _]].
    left. reflexivity.
  - discriminate Hf.
Qed.

Lemma historical_forecasts_wrapped_calls_witness :
  exists hkw rest,
    trace (historical_forecasts naive_cm (SingleSeries s5) p_lpo) =
      EvHistoricalForecasts hkw :: rest /\
    hk_overlap_end hkw = true /\
    hk_last_points_only hkw = true.
Proof.
  destruct (historical_forecasts_wrapped_calls naive_cm (SingleSeries s5) p_lpo)
    as (hkw & rest & Ht & Ho & _ & Hl & _).
  exists hkw, rest. auto.
Defined.

(** C6 (as stated) fails: no row of the output for [s5] has a zero width. *)
Lemma zero_width_counterexample :
  exists o,
    outcome (historical_forecasts naive_cm (SingleSeries s5) p_lpo) = Ok (HfcOne (CpSeries o)) /\
    ts_values o = [[fin 1; fin 3; fin 5];
                   [Some (1 # 2)%Q; fin 2; Some (7 # 2)%Q];
                   [fin 5; fin 7; fin 9]] /\
    ~ Exists zero_width (ts_values o).
Proof.
  exists out_s5. split; [reflexivity |]. split; [reflexivity |].
  cbn [ts_values out_s5]. intros H.
  repeat (apply Exists_cons in H as [[x Hx] | H];
          [injection Hx as H1 H2 H3; rewrite <- H1 in H2; discriminate H2 |]).
  now apply Exists_nil in H.
Qed.

Lemma zero_width_branch_unreachable_witness :
  1 <= forecast_horizon p_lpo <= 1 /\
  cp_pred_lpo naive_cm p_lpo 1 [[fin 2]] 0 [fin 3] = Ok [[fin 1; fin 3; fin 5]].
Proof.
  assert (Hv : valid_params p_lpo) by (unfold valid_params; cbn; lia).
  assert (Hr : outcome (forecast_range p_lpo 0 s5 (lpo:=true) (hfcs_last 1 true s5))
               = Ok (1, 4)) by reflexivity.
  destruct (zero_width_branch_unreachable naive_cm p_lpo 0 s5 (lpo:=true)
              (hfcs_last 1 true s5) 1 4 Hv Hr)
    as (Hf & Hlpo & _).
  split; [exact Hf |]. rewrite Hlpo. reflexivity.
Defined.

(** C7 (as stated) fails: with [train_length=10] and the five historical
    forecasts of [s5] no calibration window can be formed, and the call
    returns the empty list. *)
Lemma too_short_counterexample :
  (Z.of_nat (hfcs_len (lpo:=true) (hfcs_last 1 true s5)) < 10) /\
  historical_forecasts naive_cm (SingleSeries s5) p_train10 =
    ([EvHistoricalForecasts (hfc_kwargs (SingleSeries s5) p_train10);
      EvResiduals (res_kwargs (SingleSeries s5) p_train10)],
     Ok (HfcOne (CpList []))).
Proof. split; reflexivity. Qed.

Lemma too_short_series_witness :
  exists e,
    outcome (historical_forecasts_series naive_cm p_h3_start ([], [], []) 0 s2
               (lpo:=false) (hfcs_full 3 true s2)
               (map (residual_rows s2) (hfcs_full 3 true s2))) = Raise e.
Proof.
  apply (proj2 (too_short_series naive_cm p_h3_start ([], [], []) 0 s2 (lpo:=false)
                  (hfcs_full 3 true s2)
                  (map (residual_rows s2) (hfcs_full 3 true s2)))) with (last := -1).
  - discriminate.
  - intros tl Htl. discriminate Htl.
  - reflexivity.
  - discriminate.
Defined.

(** A series too short for any eligible index raises with or without
    [start]: here [start=1] lies before the minimum index 3, the warning is
    off, and the two forecasts of [s2] leave no eligible index. *)
Lemma start_ignored_too_short :
  skip_of_start_time p_h3_start s2 (lpo:=false) (hfcs_full 3 true s2) 1 = Ok 0 /\
  out_of_bounds p_h3_start 0 (-1) = true /\
  outcome (historical_forecasts naive_cm (SingleSeries s2) p_h3_start) =
    Raise (ValueError insufficient_msg).
Proof. repeat split; reflexivity. Qed.

Lemma out_of_bounds_start_ignored_s5 :
  forecast_range p_start1 0 s5 (lpo:=false) (hfcs_full 1 true s5) =
    ([EvStartWarning 0 1 1 2 5], Ok (1, 4)).
Proof.
  assert (Hw : show_warnings p_start1 = true ->
               hfc_start_at (lpo:=false) (hfcs_full 1 true s5) (skip_n_train p_start1) = Ok 2 /\
               hfc_start_at (lpo:=false) (hfcs_full 1 true s5) 4 = Ok 5)
    by (intros _; split; reflexivity).
  destruct (out_of_bounds_start_ignored naive_cm p_start1 ([], [], []) 0 s5 (lpo:=false)
              (hfcs_full 1 true s5) (map (residual_rows s5) (hfcs_full 1 true s5))
              1 1 0 4 2 5 eq_refl eq_refl eq_refl eq_refl eq_refl Hw) as (Hr & _).
  rewrite Hr. reflexivity.
Defined.

(** C8: for [s5] with horizon 1, [overlap_end=True], warnings on and
    [start=1], which lies before the minimum eligible index (one residual is
    needed first), the call raises [IndexError] instead of ignoring the start
    with a warning: the warning looks up [s_hfcs[last_fc_idx]], and with
    [overlap_end=True] the last forecast index is [len(s_hfcs) = 5], which is
    not an index of [s_hfcs]. The same call without [start] returns, as does
    the call with [overlap_end=False], where the start is ignored with a
    warning. *)
Theorem start_warning_overlap_end_raises :
  skip_of_start_time p_start1_overlap s5 (lpo:=false) (hfcs_full 1 true s5) 1 = Ok 0 /\
  skip_n_train p_start1_overlap = 1 /\
  out_of_bounds p_start1_overlap 0 5 = true /\
  hfc_start_at (lpo:=false) (hfcs_full 1 true s5) 5 = Raise (IndexError "index out of range") /\
  outcome (historical_forecasts naive_cm (SingleSeries s5) p_start1_overlap) =
    Raise (IndexError "index out of range") /\
  is_ok (outcome (historical_forecasts naive_cm (SingleSeries s5)
                    (without_start p_start1_overlap))) = true /\
  trace (historical_forecasts naive_cm (SingleSeries s5) p_start1) =
    [EvHistoricalForecasts (hfc_kwargs (SingleSeries s5) p_start1);
     EvResiduals (res_kwargs (SingleSeries s5) p_start1);
     EvStartWarning 0 1 1 2 5] /\
  is_ok (outcome (historical_forecasts naive_cm (SingleSeries s5) p_start1)) = true.
Proof. repeat split; reflexivity. Qed.

Lemma valid_p_h2 : valid_params p_h2.
Proof. unfold valid_params. cbn. lia. Qed.

Lemma calibration_windows_causal_witness :
  exists a a' (g0 N : nat),
    cal_res_full p_h2 3 1 res_full8 = Ok a /\
    mask_cal_res p_h2 ([0], [0], [0]) a = Ok a' /\
    shape3 2 1 N a' /\
    Z.of_nat g0 + Z.of_nat N = 5.
Proof.
  assert (Hs : skip_n_train p_h2 <= 3) by discriminate.
  destruct (proj2 (calibration_windows_causal p_h2 3 1 valid_p_h2 Hs)
              res_full8 ([0], [0], [0]) 2%nat 1%nat)
    as (a & a' & g0 & N & Ha & Ha' & Hsh & Hsum & _).
  - reflexivity.
  - lia.
  - repeat constructor.
  - discriminate.
  - reflexivity.
  - exists a, a', g0, N. auto.
Defined.

Lemma layouts_agree_8 : layouts_agree p_h2 s8 full8 res_full8 lpo8 res_lpo8.
Proof.
  constructor.
  - reflexivity.
  - cbn. lia.
  - intros k fc Hfc.
    do 8 (destruct k as [| k];
          [injection Hfc as <-; split; [reflexivity |];
           split; [reflexivity | split; [reflexivity | repeat constructor]] |]).
    discriminate Hfc.
  - repeat constructor.
  - reflexivity.
  - reflexivity.
  - reflexivity.
  - reflexivity.
  - discriminate.
Qed.


(** C4: for the series [ab] with the components a and b the values of a row
    are the two lower bounds, the two forecasts and the two upper bounds,
    while the columns are named component by component: the column named
    [a_q_md] holds the lower bound of b, [a_q_hi] the forecast of a, and so
    on. The raw forecast is (7, 20) and the quantiles are (2, 20). *)
Theorem column_names_do_not_match_values :
  m_predict toy_model {| pk_n := 1; pk_series := [ab]; pk_num_samples := 1 |} =
    Ok [{| ts_start := 4; ts_freq := 1; ts_components := ["a"; "b"]%string;
           ts_values := [[fin 7; fin 20]] |}] /\
  outcome (predict naive_cm 1 (SingleSeries ab) 1) =
    Ok (PredOne
          {| ts_start := 4; ts_freq := 1;
             ts_components :=
               ["a_q_lo"; "a_q_md"; "a_q_hi"; "b_q_lo"; "b_q_md"; "b_q_hi"]%string;
             ts_values := [[fin 5; fin 0; fin 7; fin 20; fin 9; fin 40]] |}).
Proof. split; reflexivity. Qed.

(** C2: for the series [ab] the column named [a_q_md] of the output of
    [predict] is 0 while the raw forecast of a is 7, and the column named
    [a_q_md] of the first forecast returned by [historical_forecasts] (time
    stamp 2) is 10 while the raw forecast of a for that time stamp is 3. *)
Theorem median_column_is_not_raw_forecast :
  (exists raw o,
     m_predict toy_model {| pk_n := 1; pk_series := [ab]; pk_num_samples := 1 |} = Ok [raw] /\
     outcome (predict naive_cm 1 (SingleSeries ab) 1) = Ok (PredOne o) /\
     ts_times raw = [4] /\ ts_times o = [4] /\
     ts_column raw "a" = Some [fin 7] /\
     ts_column o "a_q_md" = Some [fin 0]) /\
  (exists raws raw o outs,
     m_historical_forecasts toy_model (hfc_kwargs (SingleSeries ab) p_full) = Ok [raws] /\
     outcome (historical_forecasts naive_cm (SingleSeries ab) p_full)
       = Ok (HfcOne (CpList (o :: outs))) /\
     raws !! 1%nat = Some raw /\
     ts_times raw = [2] /\ ts_times o = [2] /\
     ts_column raw "a" = Some [fin 3] /\
     ts_column o "a_q_md" = Some [fin 10]).
Proof.
  split.
  - exists (last_value_forecast 1 ab 3), out_ab_predict. repeat split; reflexivity.
  - exists (hfcs_full 1 true ab), (last_value_forecast 1 ab 1), out_ab_1, [out_ab_2].
    repeat split; reflexivity.
Qed.

(** * Further runs

    The further properties at concrete inputs. *)

Import ExactScores MoreInputs.

Lemma triul_indices_cells_witness :
  exists ih ic ik,
    _triul_indices 3 2 = Ok (ih, ic, ik) /\ 2 * Z.of_nat (length ih) = 12.
Proof.
  assert (H0 : 0 <= 3) by lia.
  destruct (triul_indices_cells 3 2 H0) as (ih & ic & ik & H & _ & _ & Hl & _).
  exists ih, ic, ik. split; [exact H | exact Hl].
Defined.

Lemma cp_component_names_spec_witness :
  _cp_component_names ab !! 4%nat = Some "b_q_md"%string /\
  NoDup (_cp_component_names ab).
Proof.
  destruct (cp_component_names_spec ab) as (_ & Hpos & Hnd). split.
  - exact (proj1 (proj2 (Hpos 1%nat "b"%string eq_refl))).
  - apply Hnd. cbn. apply NoDup_cons. split; [| apply NoDup_singleton].
    rewrite elem_of_cons, elem_of_nil. intros [H | []]. discriminate H.
Defined.

Lemma valid_p_h2_lpo : valid_params p_h2_lpo.
Proof. unfold valid_params. cbn. lia. Qed.

Lemma lpo_window_size_witness :
  cal_res_lpo p_h2_lpo 3 1 res_lpo8 = take 2 (drop 2 res_lpo8) /\
  length (cal_res_lpo p_h2_lpo 3 1 res_lpo8) = 2%nat.
Proof.
  assert (Hs : skip_n_train p_h2_lpo <= 3) by discriminate.
  assert (Hl : cal_end_lpo p_h2_lpo 3 1 <= Z.of_nat (length res_lpo8)) by discriminate.
  destruct (lpo_window_size p_h2_lpo 3 1 res_lpo8 valid_p_h2_lpo Hs Hl) as (_ & Hw & Hn).
  split; [exact Hw | exact Hn].
Defined.

Lemma full_window_per_horizon_witness :
  exists a a',
    cal_res_full p_h2 3 1 res_full8 = Ok a /\
    mask_cal_res p_h2 ([0], [0], [0]) a = Ok a' /\
    get2 a' 0 0 = Some [None; fin 2; fin 1] /\
    get2 a' 1 0 = Some [fin 3; fin 1; None].
Proof.
  assert (Hs : skip_n_train p_h2 <= 3) by discriminate.
  assert (HF : forecast_horizon p_h2 = Z.of_nat 2) by reflexivity.
  assert (HC : (1 <= 1)%nat) by lia.
  assert (Hres : Forall (shape2 2 1) res_full8) by repeat constructor.
  assert (Hj : 3 + Z.of_nat 1 * stride p_h2 <= Z.of_nat (length res_full8)) by discriminate.
  assert (Htri : _triul_indices (forecast_horizon p_h2) 1 = Ok ([0], [0], [0]))
    by reflexivity.
  destruct (full_window_per_horizon p_h2 3 1 res_full8 ([0], [0], [0]) 2 1
              valid_p_h2 Hs HF HC Hres Hj Htri) as (_ & a & a' & Ha & Ha' & Hcells).
  exists a, a'. split; [exact Ha |]. split; [exact Ha' |]. split.
  - assert (H0 : (0 < 2)%nat) by lia. assert (H1 : (0 < 1)%nat) by lia.
    exact (proj1 (proj2 (Hcells 0%nat 0%nat H0 H1))).
  - assert (H0 : (1 < 2)%nat) by lia. assert (H1 : (0 < 1)%nat) by lia.
    exact (proj1 (proj2 (Hcells 1%nat 0%nat H0 H1))).
Defined.

Lemma stride_subsamples_witness :
  exists out1 outs,
    outcome (historical_forecasts naive_cm (SingleSeries s8) (with_stride p_h2 1)) = Ok out1 /\
    outcome (historical_forecasts naive_cm (SingleSeries s8) (with_stride p_h2 2)) = Ok outs /\
    hfc_subsampled 2 out1 outs.
Proof.
  assert (H1 : 1 <= 2) by lia.
  destruct (outcome (historical_forecasts naive_cm (SingleSeries s8) (with_stride p_h2 1)))
    as [out1 | e] eqn:Hrun.
  - destruct (stride_subsamples naive_cm (SingleSeries s8) p_h2 2 out1 H1 Hrun)
      as (outs & Hs & Hsub).
    exists out1, outs. split; [reflexivity |]. split; [now rewrite Hs | exact Hsub].
  - exfalso.
    assert (E : is_ok (outcome (historical_forecasts naive_cm (SingleSeries s8)
                                  (with_stride p_h2 1))) = true) by reflexivity.
    rewrite Hrun in E. discriminate E.
Defined.

Lemma predict_univariate_median_witness :
  exists o,
    predict_series naive_cm s5 pred5 res_pred5 = Ok o /\
    ts_column o "a_q_md" = Some [fin 5].
Proof.
  destruct (predict_series naive_cm s5 pred5 res_pred5) as [o | e] eqn:Hrun.
  - destruct (predict_univariate_median naive_cm s5 pred5 res_pred5 o "a" eq_refl Hrun)
      as (_ & _ & _ & Hc).
    exists o. split; [reflexivity | exact Hc].
  - exfalso.
    assert (E : is_ok (predict_series naive_cm s5 pred5 res_pred5) = true) by reflexivity.
    rewrite Hrun in E. discriminate E.
Defined.

Lemma historical_univariate_median_witness :
  exists fc o,
    full5 !! 1%nat = Some fc /\
    cp_pred_full naive_cm p_full tri1 s5 1 res_full5 0 fc = Ok o /\
    ts_column o "a_q_md" = Some [fin 3].
Proof.
  set (fc := last_value_forecast 1 s5 1).
  destruct (cp_pred_full naive_cm p_full tri1 s5 1 res_full5 0 fc) as [o | e] eqn:Hrun.
  - destruct (historical_univariate_median naive_cm p_full tri1 s5 1 res_full5 0 fc o "a"
                eq_refl Hrun) as (_ & _ & _ & Hc).
    exists fc, o. split; [reflexivity |]. split; [exact Hrun | exact Hc].
  - exfalso.
    assert (E : is_ok (cp_pred_full naive_cm p_full tri1 s5 1 res_full5 0 fc) = true)
      by reflexivity.
    rewrite Hrun in E. discriminate E.
Defined.


Lemma nothing_generated_full5 : nothing_generated p_full (lpo:=false) full5 = false.
Proof. reflexivity. Qed.

Lemma full_layout_outputs_witness :
  exists outs o fc,
    outcome (historical_forecasts_series naive_cm p_full tri1 0 s5 (lpo:=false)
               full5 res_full5) = Ok (CpList outs) /\
    outs !! 2%nat = Some o /\ full5 !! 3%nat = Some fc /\
    ts_times o = ts_times fc /\ ts_times o = [4].
Proof.
  assert (Hst : 1 <= stride p_full) by discriminate.
  destruct (outcome (historical_forecasts_series naive_cm p_full tri1 0 s5 (lpo:=false)
                       full5 res_full5)) as [[o | outs] | e] eqn:Hrun.
  - exfalso.
    assert (E : returns_list (outcome (historical_forecasts_series naive_cm p_full tri1 0 s5
                  (lpo:=false) full5 res_full5)) = true) by reflexivity.
    rewrite Hrun in E. discriminate E.
  - destruct (full_layout_outputs naive_cm p_full tri1 0 s5 full5 res_full5 outs
                Hst nothing_generated_full5 Hrun)
      as (first & last & Hr & _ & _ & Hsome & Hnone).
    assert (Hfl : (first, last) = (1, 4)).
    { assert (E : outcome (forecast_range p_full 0 s5 (lpo:=false) full5) = Ok (1, 4))
        by reflexivity.
      rewrite E in Hr. now injection Hr as <- <-. }
    injection Hfl as -> ->.
    destruct (outs !! 2%nat) as [o |] eqn:Ho.
    + destruct (Hsome 2%nat o Ho) as (_ & fc & Hfc & _ & Ht & _).
      exists outs, o, fc. split; [reflexivity |]. split; [exact Ho |].
      split; [exact Hfc |]. split; [exact Ht |].
      rewrite Ht. injection Hfc as <-. reflexivity.
    + exfalso. destruct (Hnone 2%nat Ho) as [H | H]; apply H; reflexivity.
  - exfalso.
    assert (E : returns_list (outcome (historical_forecasts_series naive_cm p_full tri1 0 s5
                  (lpo:=false) full5 res_full5)) = true) by reflexivity.
    rewrite Hrun in E. discriminate E.
Defined.

Lemma last_points_layout_outputs_witness :
  exists first last,
    outcome (forecast_range p_lpo 0 s5 (lpo:=true) lpo5) = Ok (first, last) /\
    time_index_at lpo5 first = Ok (ts_start out_s5) /\
    ts_freq out_s5 = ts_freq s5 * stride p_lpo.
Proof.
  assert (Hst : 1 <= stride p_lpo) by discriminate.
  assert (Hrun : outcome (historical_forecasts_series naive_cm p_lpo tri1 0 s5 (lpo:=true)
                            lpo5 res_lpo5) = Ok (CpSeries out_s5)) by reflexivity.
  destruct (last_points_layout_outputs naive_cm p_lpo tri1 0 s5 lpo5 res_lpo5 out_s5
              Hst Hrun) as (first & last & Hr & _ & _ & Ht0 & Hf & _).
  exists first, last. split; [exact Hr |]. split; [exact Ht0 | exact Hf].
Defined.

Lemma full5_ends (k : nat) (fc : TimeSeries) :
  full5 !! k = Some fc -> end_time fc = 1 + Z.of_nat k * ts_freq s5.
Proof.
  intros Hfc.
  do 5 (destruct k as [| k]; [injection Hfc as <-; reflexivity |]).
  discriminate Hfc.
Qed.

Lemma no_forecast_past_the_end_witness :
  exists outs,
    outcome (historical_forecasts_series naive_cm p_full tri1 0 s5 (lpo:=false)
               full5 res_full5) = Ok (CpList outs) /\
    Forall (fun o => end_time o <= 4) outs.
Proof.
  assert (Hst : 1 <= stride p_full) by discriminate.
  assert (Hfreq : 0 < ts_freq s5) by reflexivity.
  assert (Hmod : (1 - end_time s5) mod ts_freq s5 = 0) by reflexivity.
  destruct (outcome (historical_forecasts_series naive_cm p_full tri1 0 s5 (lpo:=false)
                       full5 res_full5)) as [[o | outs] | e] eqn:Hrun.
  - exfalso.
    assert (E : returns_list (outcome (historical_forecasts_series naive_cm p_full tri1 0 s5
                  (lpo:=false) full5 res_full5)) = true) by reflexivity.
    rewrite Hrun in E. discriminate E.
  - exists outs. split; [reflexivity |].
    exact (no_forecast_past_the_end naive_cm p_full tri1 0 s5 full5 res_full5 outs 1
             eq_refl Hst Hfreq full5_ends Hmod Hrun).
  - exfalso.
    assert (E : returns_list (outcome (historical_forecasts_series naive_cm p_full tri1 0 s5
                  (lpo:=false) full5 res_full5)) = true) by reflexivity.
    rewrite Hrun in E. discriminate E.
Defined.

Lemma start_in_bounds_honoured_witness :
  forecast_range p_start3 0 s5 (lpo:=false) full5 = ([], Ok (2, 4)).
Proof.
  assert (Hst : 1 <= stride p_start3) by discriminate.
  exact (proj1 (start_in_bounds_honoured naive_cm p_start3 tri1 0 s5 full5 res_full5
                  3 3 2 4 eq_refl eq_refl eq_refl eq_refl eq_refl Hst)).
Defined.

Lemma no_warning_unless_asked_witness :
  trace (historical_forecasts naive_cm (SingleSeries s5) p_lpo) =
    [EvHistoricalForecasts (hfc_kwargs (SingleSeries s5) p_lpo);
     EvResiduals (res_kwargs (SingleSeries s5) p_lpo)].
Proof.
  exact (no_warning_unless_asked naive_cm (SingleSeries s5) p_lpo (or_introl eq_refl)).
Defined.

Lemma valid_p_full : valid_params p_full.
Proof. unfold valid_params. cbn. lia. Qed.

Lemma first_forecast_without_start_witness :
  exists outs o fc,
    outcome (historical_forecasts_series naive_cm p_full tri1 0 s5 (lpo:=false)
               full5 res_full5) = Ok (CpList outs) /\
    forecast_range p_full 0 s5 (lpo:=false) full5 = ([], Ok (1, 4)) /\
    outs !! 0%nat = Some o /\ full5 !! 1%nat = Some fc /\ ts_times o = ts_times fc.
Proof.
  destruct (outcome (historical_forecasts_series naive_cm p_full tri1 0 s5 (lpo:=false)
                       full5 res_full5)) as [[o | outs] | e] eqn:Hrun.
  - exfalso.
    assert (E : returns_list (outcome (historical_forecasts_series naive_cm p_full tri1 0 s5
                  (lpo:=false) full5 res_full5)) = true) by reflexivity.
    rewrite Hrun in E. discriminate E.
  - destruct (first_forecast_without_start naive_cm p_full tri1 0 s5 full5 res_full5 outs
                eq_refl valid_p_full nothing_generated_full5 Hrun)
      as (last & Hr & Hfirst & Hex).
    assert (Hlen : skip_n_train p_full < Z.of_nat (length full5)) by reflexivity.
    destruct (Hex Hlen) as [o Ho].
    destruct (Hfirst o Ho) as (fc & Hfc & _ & Ht).
    exists outs, o, fc. split; [reflexivity |].
    split; [reflexivity |]. split; [exact Ho |]. split; [exact Hfc | exact Ht].
  - exfalso.
    assert (E : returns_list (outcome (historical_forecasts_series naive_cm p_full tri1 0 s5
                  (lpo:=false) full5 res_full5)) = true) by reflexivity.
    rewrite Hrun in E. discriminate E.
Defined.

(** The comparison of the exact rationals is irreflexive and asymmetric. *)
Lemma xgt_irrefl (a : num) : xgt a a = false.
Proof.
  destruct a as [x |]; [| reflexivity]. cbn.
  apply negb_false_iff, Qle_bool_iff, Qle_refl.
Qed.

Lemma xgt_asym (a b : num) : xgt a b = true -> xgt b a = false.
Proof.
  destruct a as [x |], b as [y |]; cbn; try discriminate.
  intros H. apply negb_true_iff in H. apply negb_false_iff, Qle_bool_iff.
  apply Qlt_le_weak, Qnot_le_lt. intros Hle. apply Qle_bool_iff in Hle. congruence.
Qed.

Lemma cqr_score_sym_of_asym_witness :
  cqr_score_asym xgt row_lo_none "lo" "hi" = Returns [CNone; CNone] /\
  cqr_score_sym xgt row_lo_none "lo" "hi" = Returns [CNone; CNone].
Proof.
  destruct (cqr_score_sym_of_asym xgt row_lo_none "lo" "hi") as (Hsym & _ & Hnone & _).
  assert (Hrow : row_lo_none !! "lo"%string = Some None) by reflexivity.
  split; [exact (Hnone Hrow) |].
  rewrite Hsym, (Hnone Hrow). reflexivity.
Defined.

Lemma cqr_score_sym_is_max_witness :
  exists score arg,
    cqr_score_sym xgt row_3_5_8 "lo" "hi" = Returns [CFloat score; CInt arg] /\
    arg = 0 /\ score = fin (-2).
Proof.
  destruct (cqr_score_sym_is_max xgt row_3_5_8 "lo" "hi" (fin 3) (fin 8) (fin 5)
              xgt_irrefl xgt_asym eq_refl eq_refl eq_refl)
    as (score & arg & Hrun & _ & _ & _ & _ & Harg & Hscore & _).
  assert (H0 : arg = 0) by (apply Harg; reflexivity).
  exists score, arg. split; [exact Hrun |]. split; [exact H0 |].
  exact (Hscore H0).
Defined.

Lemma get_q_hat_sym_witness :
  _get_q_hat xmul_int xint quarter_cm scores_124 =
    Returns (<["q_hat_sym"%string := fin 1]> ∅).
Proof.
  assert (Hm : method quarter_cm <> "cqr"%string) by discriminate.
  destruct (get_q_hat_sym xmul_int xint quarter_cm scores_124 [fin 1; fin 2; fin 4]
              (Some (1 # 4)%Q) 0 (or_introl Hm) eq_refl eq_refl eq_refl) as (_ & H0 & _).
  exact (H0 eq_refl).
Defined.

Lemma get_q_hat_returns_a_score_witness :
  exists scores q,
    scores_124 !! "noncon_scores"%string = Some scores /\ q ∈ scores.
Proof.
  assert (Hrun : _get_q_hat xmul_int xint quarter_cm scores_124 =
                 Returns (<["q_hat_sym"%string := fin 1]> ∅)) by reflexivity.
  destruct (get_q_hat_returns_a_score xmul_int xint quarter_cm scores_124 _ Hrun)
    as [(Hm & _) | (_ & scores & q & Hs & Hq & _)].
  - discriminate Hm.
  - exists scores, q. split; [exact Hs | exact Hq].
Defined.

Import ExactMetrics.

Lemma overlap_end_only_truncates_witness :
  exists out out',
    outcome (historical_forecasts naive_cm (SingleSeries s8) (with_overlap_end p_h2 true)) =
      Ok out /\
    outcome (historical_forecasts naive_cm (SingleSeries s8) (with_overlap_end p_h2 false)) =
      Ok out' /\
    hfc_truncated out out'.
Proof.
  assert (H0 : start p_h2 = None) by reflexivity.
  assert (H1 : 1 <= stride p_h2) by discriminate.
  destruct (outcome (historical_forecasts naive_cm (SingleSeries s8)
                       (with_overlap_end p_h2 true))) as [out | e] eqn:Hrun.
  - destruct (overlap_end_only_truncates naive_cm (SingleSeries s8) p_h2 out H0 H1 Hrun)
      as [_ Hout].
    destruct (outcome (historical_forecasts naive_cm (SingleSeries s8)
                         (with_overlap_end p_h2 false))) as [out' | e] eqn:Hrun'.
    + exists out, out'. split; [reflexivity |]. split; [reflexivity | exact Hout].
    + exfalso.
      assert (E : is_ok (outcome (historical_forecasts naive_cm (SingleSeries s8)
                                    (with_overlap_end p_h2 false))) = true) by reflexivity.
      rewrite Hrun' in E. discriminate E.
  - exfalso.
    assert (E : is_ok (outcome (historical_forecasts naive_cm (SingleSeries s8)
                                  (with_overlap_end p_h2 true))) = true) by reflexivity.
    rewrite Hrun in E. discriminate E.
Defined.

Lemma valid_p_train10 : valid_params p_train10.
Proof. unfold valid_params. cbn. lia. Qed.

Lemma pair_alpha_never_calibrates_witness :
  outcome (historical_forecasts pair_cm (SingleSeries s5) p_train10) = Ok (HfcOne (CpList [])) /\
  no_forecasts (HfcOne (CpList [])).
Proof.
  assert (Hrun : outcome (historical_forecasts pair_cm (SingleSeries s5) p_train10) =
                 Ok (HfcOne (CpList []))) by reflexivity.
  split; [exact Hrun |].
  exact (pair_alpha_never_calibrates pair_cm (SingleSeries s5) p_train10 _ _ _
           eq_refl valid_p_train10 Hrun).
Defined.

Lemma evaluate_metrics_spec_witness :
  _get_evaluate_metrics_from_dataset xmean xle xge xtruediv xof_int y_159 lo_068 hi_27x =
    Ok (fsub (xmean hi_27x) (xmean lo_068),
        fsub (xof_int 1) (xtruediv (covered_count xle xge y_159 lo_068 hi_27x) 3)) /\
  0 <= covered_count xle xge y_159 lo_068 hi_27x <= 3.
Proof.
  destruct (evaluate_metrics_spec xmean xle xge xtruediv xof_int y_159 lo_068 hi_27x
              eq_refl eq_refl) as (Hm & Hb & _).
  split; [exact Hm | exact Hb].
Defined.

Lemma xle_trans (a b c : num) : xle a b = true -> xle b c = true -> xle a c = true.
Proof.
  destruct a as [x |], b as [y |], c as [z |]; cbn; try discriminate.
  rewrite !Qle_bool_iff. apply Qle_trans.
Qed.

Lemma wider_intervals_cover_more_witness :
  covered_count xle xge y_159 lo_068 hi_27x <= covered_count xle xge y_159 lo_048 hi_37x.
Proof.
  assert (Hge : forall a b, xge a b = xle b a) by reflexivity.
  assert (Hl : Forall2 (fun l' l => xle l' l = true) lo_048 lo_068)
    by (repeat constructor).
  assert (Hu : Forall2 (fun u u' => xle u u' = true) hi_27x hi_37x)
    by (repeat constructor).
  exact (proj2 (wider_intervals_cover_more xmean xle xge xtruediv xof_int
                  y_159 lo_068 hi_27x lo_048 hi_37x xle_trans Hge eq_refl eq_refl Hl Hu)).
Defined.

Lemma evaluate_metrics_shape_mismatch_witness :
  exists msg,
    _get_evaluate_metrics_from_dataset xmean xle xge xtruediv xof_int
      y_159 lo_068 [fin 2; fin 7] = Raise (ValueError msg).
Proof.
  assert (Hy : length y_159 <> 1%nat) by discriminate.
  apply (evaluate_metrics_shape_mismatch xmean xle xge xtruediv xof_int
           y_159 lo_068 [fin 2; fin 7] Hy).
  right. split; discriminate.
Defined.
